(** * testcode2: extraction and comparison of numerical test data

    A shallow embedding of [lib/testcode2/validation.py] (the classes
    [Status] and [Tolerance] and the function [compare_data]) and of the data
    extraction functions of [lib/testcode2/util.py] ([try_floatify],
    [extract_tagged_data], [dict_table_string]).

    The code is read as CPython 3 runs it.  Python floats are IEEE 754
    binary64 numbers and are modelled by Rocq's primitive floats; Python
    strings are modelled by [string] (code points 0..255); a Python [dict] is
    an insertion-ordered association list with unique keys; exceptions are an
    explicit error result. *)

From Stdlib Require Import ZArith Bool List String Ascii Lia Floats.
From Stdlib Require Import Permutation OrdersEx RelationClasses.
Import ListNotations.
Local Open Scope string_scope.
Local Open Scope list_scope.

(** ** Exceptions and results *)

(** The Python exceptions the modelled code can raise. *)
Inductive exception : Type :=
| TypeError
| KeyError
| IndexError
| ValueError
| ZeroDivisionError
| NameError
| RunError (err : string).

Inductive result (A : Type) : Type :=
| Ok (a : A)
| Raise (e : exception).

Arguments Ok {A} a.
Arguments Raise {A} e.

Definition bind {A B : Type} (r : result A) (k : A -> result B) : result B :=
  match r with
  | Ok a => k a
  | Raise e => Raise e
  end.

Notation "x <- r ;; k" := (bind r (fun x => k))
  (at level 61, r at next level, right associativity).

(** ** Scalars

    A DataSet entry is what [try_floatify] returns: a float, or the token
    itself when it is not the text of a number. *)
Inductive value : Type :=
| Num (x : float)
| Str (s : string).

(** [a != b] on scalars: a float never equals a string. *)
Definition py_ne (a b : value) : bool :=
  match a, b with
  | Num x, Num y => negb (x =? y)%float
  | Str s, Str t => negb (String.eqb s t)
  | _, _ => true
  end.

(** [a - b]: defined on two floats; a [str] operand is a [TypeError]. *)
Definition py_sub (a b : value) : result float :=
  match a, b with
  | Num x, Num y => Ok (x - y)%float
  | _, _ => Raise TypeError
  end.

(** [a / b] for a float [a]: float division by zero raises
    [ZeroDivisionError], a [str] divisor is a [TypeError]. *)
Definition py_div (a : float) (b : value) : result float :=
  match b with
  | Num y => if (y =? 0)%float then Raise ZeroDivisionError else Ok (a / y)%float
  | Str _ => Raise TypeError
  end.

(** [v == 0]. *)
Definition py_eq_zero (v : value) : bool :=
  match v with
  | Num x => (x =? 0)%float
  | Str _ => false
  end.

(** Modelled from the spec: [testcode2.compatibility] is not among the source
    files.  [compat.isnan] is the NaN test of [math.isnan]: it is "only
    meaningful when both are numeric" and the comparison of non-numeric
    tokens is reached "via exception interception", so a [str] argument
    raises [TypeError]. *)
Definition isnan (v : value) : result bool :=
  match v with
  | Num x => Ok (is_nan x)
  | Str _ => Raise TypeError
  end.

(** Modelled from the spec: [compat.compat_all] and [compat.compat_any] are
    the builtins [all] and [any] ("Pass iff all true, Fail iff none true,
    Warning otherwise"). *)
Definition compat_all (bools : list bool) : bool := forallb (fun b => b) bools.
Definition compat_any (bools : list bool) : bool := existsb (fun b => b) bools.

(** ** Status *)

(** The three values of [Status.status]; the class stores them as the
    ordinals [_pass = 0], [_partial = 1], [_fail = 2]. *)
Inductive Status : Type :=
| Pass
| Warning
| Fail.

Definition _pass : Z := 0.
Definition _partial : Z := 1.
Definition _fail : Z := 2.

Definition status (s : Status) : Z :=
  match s with
  | Pass => _pass
  | Warning => _partial
  | Fail => _fail
  end.

(** The Status stored for an ordinal; like [print_status], everything that is
    neither [_pass] nor [_partial] reads as failed. *)
Definition of_status (z : Z) : Status :=
  if (z =? _pass)%Z then Pass
  else if (z =? _partial)%Z then Warning
  else Fail.

(** [Status.__init__(bools, status)]: [bools] is ignored if [status] is
    supplied. *)
Definition Status_init (bools : list bool) (st : option Z) : Status :=
  match st with
  | Some z => of_status z
  | None =>
      if compat_all bools then Pass
      else if compat_any bools then Warning
      else Fail
  end.

Definition passed (s : Status) : bool := (status s =? _pass)%Z.
Definition warning (s : Status) : bool := (status s =? _partial)%Z.
Definition failed (s : Status) : bool := (status s =? _fail)%Z.

(** [Status.__add__]: the maximum level (the most "failed") of the two. *)
Definition Status_add (self other : Status) : Status :=
  Status_init [] (Some (Z.max (status self) (status other))).

(** The order Pass < Warning < Fail, written out case by case. *)
Definition Status_leb (a b : Status) : bool :=
  match a, b with
  | Pass, _ => true
  | Warning, Pass => false
  | Warning, _ => true
  | Fail, Fail => true
  | Fail, _ => false
  end.

Definition Status_max (a b : Status) : Status :=
  if Status_leb a b then b else a.

(** ** Tolerance *)

Record Tolerance : Type := mkTolerance {
  absolute : option float;
  relative : option float
}.

(** Truth value of a threshold in [if self.absolute:]: [None] and zero (of
    either sign) are false, every other float (NaN included) is true. *)
Definition threshold_set (t : option float) : option float :=
  match t with
  | Some x => if (x =? 0)%float then None else Some x
  | None => None
  end.

(** [compat.isnan(test_val) or compat.isnan(benchmark_val)]; the second
    operand is evaluated only when the first is false. *)
Definition either_isnan (test_val benchmark_val : value) : result bool :=
  t <- isnan test_val ;;
  if t then Ok true else isnan benchmark_val.

(** The error of the relative check (lines 101-106 of validation.py).  The
    integer [0] of the first branch is compared and formatted as the float
    zero. *)
Definition relative_err (diff : float) (benchmark_val : value) : result float :=
  if py_eq_zero benchmark_val && (diff =? 0)%float then Ok zero
  else if py_eq_zero benchmark_val then Ok infinity
  else
    q <- py_div diff benchmark_val ;;
    Ok (abs q).

Section Validate.

(** Python's ['%.2e' % x], taken as a parameter. *)
Variable format_2e : float -> string.

Definition absolute_msg (err a : float) : string :=
  "absolute error " ++ format_2e err ++ " greater than " ++ format_2e a ++ ".".

Definition relative_msg (err r : float) : string :=
  "relative error " ++ format_2e err ++ " greater than " ++ format_2e r ++ ".".

(** The body of the [try] block of [Tolerance.validate], threading the
    local variables [(status, msg)]; an exception leaves them as they were
    when it was raised. *)
Definition validate_try (self : Tolerance) (test_val benchmark_val : value)
    (st0 : Status * string) : (Status * string) * option exception :=
  match either_isnan test_val benchmark_val with
  | Raise e => (st0, Some e)
  | Ok true => ((Status_init [false] None, "cannot compare NaNs."), None)
  | Ok false =>
      match py_sub test_val benchmark_val with
      | Raise e => (st0, Some e)
      | Ok diff =>
          let st1 :=
            match threshold_set (absolute self) with
            | Some a =>
                let err := abs diff in
                let abs_passed := (err <? a)%float in
                let msg := if negb abs_passed then absolute_msg err a
                           else snd st0 in
                (Status_add (fst st0) (Status_init [abs_passed] None), msg)
            | None => st0
            end in
          match threshold_set (relative self) with
          | Some r =>
              match relative_err diff benchmark_val with
              | Raise e => (st1, Some e)
              | Ok err =>
                  let rel_passed := (err <? r)%float in
                  let msg := if negb rel_passed then relative_msg err r
                             else snd st1 in
                  ((Status_add (fst st1) (Status_init [rel_passed] None), msg),
                   None)
              end
          | None => (st1, None)
          end
      end
  end.

(** [if key: msg = '%s: %s' % (key, msg)]. *)
Definition with_key (key msg : string) : string :=
  match key with
  | EmptyString => msg
  | _ => key ++ ": " ++ msg
  end.

(** [Tolerance.validate(self, test_val, benchmark_val, key)]. *)
Definition validate (self : Tolerance) (test_val benchmark_val : value)
    (key : string) : result (Status * string) :=
  let st0 := (Status_init [true] None, "values are within tolerance.") in
  match validate_try self test_val benchmark_val st0 with
  | (st, None) => Ok (fst st, with_key key (snd st))
  | (st, Some TypeError) =>
      let st' := if py_ne test_val benchmark_val
                 then (Status_init [false] None, "values are different.")
                 else st in
      Ok (fst st', with_key key (snd st'))
  | (_, Some e) => Raise e
  end.

End Validate.

(** ** Dictionaries

    A Python [dict] keeps its keys unique and iterates in insertion order: an
    association list whose keys are pairwise distinct ([dict_wf]). *)
Definition dict (V : Type) : Type := list (string * V).

Definition keys {V : Type} (d : dict V) : list string := map fst d.

Definition dict_wf {V : Type} (d : dict V) : Prop := NoDup (keys d).

Fixpoint dict_get {V : Type} (d : dict V) (k : string) : option V :=
  match d with
  | [] => None
  | (k', v) :: d' => if String.eqb k k' then Some v else dict_get d' k
  end.

(** [k in d]. *)
Definition contains {V : Type} (d : dict V) (k : string) : bool :=
  match dict_get d k with
  | Some _ => true
  | None => false
  end.

(** [d[k]] as an expression. *)
Definition getitem {V : Type} (d : dict V) (k : string) : result V :=
  match dict_get d k with
  | Some v => Ok v
  | None => Raise KeyError
  end.

(** [d[k] = v]: the value of a present key is replaced in place, a new key
    goes last. *)
Fixpoint setitem {V : Type} (d : dict V) (k : string) (v : V) : dict V :=
  match d with
  | [] => [(k, v)]
  | (k', v') :: d' =>
      if String.eqb k k' then (k', v) :: d' else (k', v') :: setitem d' k v
  end.

Fixpoint dict_remove {V : Type} (d : dict V) (k : string) : dict V :=
  match d with
  | [] => []
  | (k', v) :: d' =>
      if String.eqb k k' then d' else (k', v) :: dict_remove d' k
  end.

(** The objects [compare_data] passes to [dict.pop]: a field name, or a list
    of field names. *)
Inductive key_object : Type :=
| KeyStr (s : string)
| KeyList (l : list string).

(** [d.pop(key)] without a default: the popped value and the remaining dict.
    CPython answers [KeyError] for an empty dict before it hashes the key; a
    list is unhashable ([TypeError]); an absent key is a [KeyError]. *)
Definition dict_pop {V : Type} (d : dict V) (key : key_object)
    : result (V * dict V) :=
  match d with
  | [] => Raise KeyError
  | _ :: _ =>
      match key with
      | KeyList _ => Raise TypeError
      | KeyStr s =>
          match dict_get d s with
          | Some v => Ok (v, dict_remove d s)
          | None => Raise KeyError
          end
      end
  end.

(** [l[i]] for an index in [range(len(...))]. *)
Definition index {A : Type} (l : list A) (i : nat) : result A :=
  match nth_error l i with
  | Some a => Ok a
  | None => Raise IndexError
  end.

(** A [for] loop whose body may raise. *)
Fixpoint for_each {A B : Type} (body : A -> B -> result A) (l : list B) (a : A)
    : result A :=
  match l with
  | [] => Ok a
  | x :: l' => a' <- body a x ;; for_each body l' a'
  end.

(** ** Sorting

    [sorted] on strings (ordered by code point) and on the items of a dict.
    Items are [(key, value)] tuples; the keys of a dict are distinct, so the
    tuple comparison is decided by the keys and never reaches the values. *)
Fixpoint insert_key {V : Type} (kv : string * V) (l : list (string * V))
    : list (string * V) :=
  match l with
  | [] => [kv]
  | kv' :: l' =>
      if (fst kv <=? fst kv')%string then kv :: l
      else kv' :: insert_key kv l'
  end.

Fixpoint sorted_items {V : Type} (l : list (string * V)) : list (string * V) :=
  match l with
  | [] => []
  | kv :: l' => insert_key kv (sorted_items l')
  end.

Fixpoint insert (k : string) (l : list string) : list string :=
  match l with
  | [] => [k]
  | k' :: l' => if (k <=? k')%string then k :: l else k' :: insert k l'
  end.

Fixpoint sorted (l : list string) : list string :=
  match l with
  | [] => []
  | k :: l' => insert k (sorted l')
  end.

Fixpoint list_eqb {A : Type} (eqb : A -> A -> bool) (l1 l2 : list A) : bool :=
  match l1, l2 with
  | [], [] => true
  | x :: l1', y :: l2' => eqb x y && list_eqb eqb l1' l2'
  | _, _ => false
  end.

(** ** compare_data *)

Definition DataSet : Type := dict (list value).

(** [nitems = lambda data_dict: [len(val) for (key, val) in
    sorted(data_dict.items())]]. *)
Definition nitems (data_dict : DataSet) : list nat :=
  map (fun kv => List.length (snd kv)) (sorted_items data_dict).

(** The test of lines 131-132:
    [sorted(benchmark.keys()) != sorted(test.keys()) or
     nitems(benchmark) != nitems(test)]. *)
Definition different_shapes (benchmark test : DataSet) : bool :=
  negb (list_eqb String.eqb (sorted (keys benchmark)) (sorted (keys test)))
  || negb (list_eqb Nat.eqb (nitems benchmark) (nitems test)).

(** The loop over [ignore_fields] (lines 126-128): each field is popped from
    the benchmark and then from the test, with the one-element list [[field]]
    as the key. *)
Fixpoint pop_ignored (ignore_fields : list string) (bt : DataSet * DataSet)
    : result (DataSet * DataSet) :=
  match ignore_fields with
  | [] => Ok bt
  | field :: rest =>
      b <- dict_pop (fst bt) (KeyList [field]) ;;
      t <- dict_pop (snd bt) (KeyList [field]) ;;
      pop_ignored rest (snd b, snd t)
  end.

Definition different_sets : string :=
  "Different sets of data extracted from benchmark and test.".

Definition newline : string := String (ascii_of_nat 10) EmptyString.

Definition nonempty (s : string) : bool :=
  match s with
  | EmptyString => false
  | _ => true
  end.

Section Compare.

Variable format_2e : float -> string.

(** One turn of the inner loop (lines 148-152). *)
Definition compare_index (tol : Tolerance) (benchmark test : DataSet)
    (key : string) (acc : Status * list string) (ind : nat)
    : result (Status * list string) :=
  tvals <- getitem test key ;;
  tv <- index tvals ind ;;
  bvals <- getitem benchmark key ;;
  bv <- index bvals ind ;;
  r <- validate format_2e tol tv bv key ;;
  let key_status := fst r in
  let err := snd r in
  Ok (Status_add (fst acc) key_status,
      if negb (passed key_status) && nonempty err
      then snd acc ++ [err] else snd acc).

(** One turn of the outer loop (lines 143-152). *)
Definition compare_key (default_tolerance : Tolerance)
    (tolerances : dict Tolerance) (benchmark test : DataSet)
    (acc : Status * list string) (key : string)
    : result (Status * list string) :=
  let tol := if contains tolerances key
             then match dict_get tolerances key with
                  | Some t => t
                  | None => default_tolerance
                  end
             else default_tolerance in
  bvals <- getitem benchmark key ;;
  for_each (compare_index tol benchmark test key)
           (seq 0 (List.length bvals)) acc.

(** The function after the removal of the ignored fields
    (lines 129-154). *)
Definition compare_shapes_and_values (benchmark test : DataSet)
    (default_tolerance : Tolerance) (tolerances : dict Tolerance)
    : result (bool * Status * string) :=
  if different_shapes benchmark test
  then Ok (false, Status_init [false] None, different_sets)
  else
    r <- for_each (compare_key default_tolerance tolerances benchmark test)
                  (keys benchmark) (Status_init [true] None, []) ;;
    Ok (true, fst r, String.concat newline (snd r)).

(** [compare_data(benchmark, test, default_tolerance, tolerances,
    ignore_fields=None)]; [ignore_fields] is [None] or a collection of
    field names, and is true when it is not empty. *)
Definition compare_data (benchmark test : DataSet)
    (default_tolerance : Tolerance) (tolerances : dict Tolerance)
    (ignore_fields : option (list string))
    : result (bool * Status * string) :=
  bt <- match ignore_fields with
        | Some (field :: rest) => pop_ignored (field :: rest) (benchmark, test)
        | _ => Ok (benchmark, test)
        end ;;
  compare_shapes_and_values (fst bt) (snd bt) default_tolerance tolerances.

End Compare.

(** ** Text

    [str.isspace], [str.split()] without arguments, [str.splitlines()] and
    [file.readlines()] for code points below 256. *)
Definition code (c : ascii) : N := N_of_ascii c.

Definition isspace (c : ascii) : bool :=
  let n := code c in
  ((9 <=? n) && (n <=? 13) || (28 <=? n) && (n <=? 32)
   || (n =? 133) || (n =? 160))%N.

Definition snoc (s : string) (c : ascii) : string :=
  (s ++ String c EmptyString)%string.

(** [s.split()]: the maximal runs of non-space characters; [word] is the run
    being read. *)
Fixpoint split_from (s word : string) : list string :=
  match s with
  | EmptyString => if nonempty word then [word] else []
  | String c s' =>
      if isspace c
      then (if nonempty word then word :: split_from s' EmptyString
            else split_from s' EmptyString)
      else split_from s' (snoc word c)
  end.

Definition split (s : string) : list string := split_from s EmptyString.

(** Line boundaries of [str.splitlines]: LF, VT, FF, CR, FS, GS, RS and NEL;
    CR LF is one boundary. *)
Definition is_linebreak (c : ascii) : bool :=
  let n := code c in
  ((10 <=? n) && (n <=? 13) || (28 <=? n) && (n <=? 30) || (n =? 133))%N.

Definition is_cr (c : ascii) : bool := (code c =? 13)%N.
Definition is_lf (c : ascii) : bool := (code c =? 10)%N.

(** [after_cr] tells that the previous character was a CR, which has already
    ended its line. *)
Fixpoint splitlines_from (s line : string) (after_cr : bool) : list string :=
  match s with
  | EmptyString => if nonempty line then [line] else []
  | String c s' =>
      if is_lf c && after_cr then splitlines_from s' line false
      else if is_linebreak c then line :: splitlines_from s' EmptyString (is_cr c)
      else splitlines_from s' (snoc line c) false
  end.

Definition splitlines (s : string) : list string :=
  splitlines_from s EmptyString false.

(** [open(filename).readlines()]: text mode with universal newlines, so CR
    and CR LF both read as LF; every line keeps its LF. *)
Fixpoint readlines_from (s line : string) (after_cr : bool) : list string :=
  match s with
  | EmptyString => if nonempty line then [line] else []
  | String c s' =>
      if is_lf c && after_cr then readlines_from s' line false
      else if is_lf c || is_cr c
      then (line ++ newline)%string :: readlines_from s' EmptyString (is_cr c)
      else readlines_from s' (snoc line c) false
  end.

Definition readlines (content : string) : list string :=
  readlines_from content EmptyString false.

(** [re.compile('^ *%s' % re.escape(data_tag)).match(line)]: some of the
    leading blanks of the line, then the tag itself. *)
Fixpoint data_tag_regex_match (data_tag line : string) : bool :=
  String.prefix data_tag line
  || match line with
     | String c line' =>
         if (code c =? 32)%N then data_tag_regex_match data_tag line' else false
     | EmptyString => false
     end.

(** [s[-1]]: the last character, [IndexError] on the empty string. *)
Fixpoint last_char (s : string) : result ascii :=
  match s with
  | EmptyString => Raise IndexError
  | String c EmptyString => Ok c
  | String _ s' => last_char s'
  end.

(** [s[:-1]]. *)
Fixpoint drop_last_char (s : string) : string :=
  match s with
  | EmptyString => EmptyString
  | String _ EmptyString => EmptyString
  | String c s' => String c (drop_last_char s')
  end.

(** [l[-1]] on a list. *)
Definition last_item {A : Type} (l : list A) : result A :=
  match rev l with
  | [] => Raise IndexError
  | x :: _ => Ok x
  end.

(** ** float(str)

    The builtin [float] of CPython 3 on a string: underscores are allowed
    between digits, surrounding white space is stripped, and the rest is an
    optionally signed decimal number with an optional exponent, or [inf],
    [infinity] or [nan] in any letter case.  The value is the correctly
    rounded (to nearest, ties to even) binary64 number; a number too large
    is an infinity.  [None] stands for [ValueError]. *)
Definition is_digit (c : ascii) : bool :=
  ((48 <=? code c) && (code c <=? 57))%N.

Definition digit_value (c : ascii) : Z := (Z.of_N (code c) - 48)%Z.

Definition lower (c : ascii) : ascii :=
  if ((65 <=? code c) && (code c <=? 90))%N then ascii_of_N (code c + 32) else c.

Definition is_char (n : N) (c : ascii) : bool := (code c =? n)%N.

(** A string with a character outside ASCII has its white space turned into
    blanks and is cut at the first other character from 127 on, which is
    replaced by a question mark (Latin-1 has no digits of its own). *)
Fixpoint to_ascii_digits (s : list ascii) : list ascii :=
  match s with
  | [] => []
  | c :: s' =>
      if (code c <? 127)%N then c :: to_ascii_digits s'
      else if isspace c then ascii_of_N 32 :: to_ascii_digits s'
      else [ascii_of_N 63]
  end.

Definition transform_decimal_and_space (s : list ascii) : list ascii :=
  if forallb (fun c => (code c <? 128)%N) s then s else to_ascii_digits s.

(** An underscore needs a digit on each side; [prev] is the previous
    character. *)
Fixpoint remove_underscores (prev : option ascii) (s : list ascii)
    : option (list ascii) :=
  let prev_is f := match prev with Some p => f p | None => false end in
  match s with
  | [] => if prev_is (is_char 95) then None else Some []
  | c :: s' =>
      if is_char 95 c
      then (if prev_is is_digit then remove_underscores (Some c) s' else None)
      else if prev_is (is_char 95) && negb (is_digit c) then None
      else option_map (cons c) (remove_underscores (Some c) s')
  end.

(** The white space of the C locale. *)
Definition c_isspace (c : ascii) : bool :=
  ((9 <=? code c) && (code c <=? 13) || (code c =? 32))%N.

Fixpoint lstrip (s : list ascii) : list ascii :=
  match s with
  | c :: s' => if c_isspace c then lstrip s' else s
  | [] => []
  end.

Definition strip (s : list ascii) : list ascii := rev (lstrip (rev (lstrip s))).

Definition parse_sign (s : list ascii) : bool * list ascii :=
  match s with
  | c :: s' => if is_char 45 c then (true, s')
               else if is_char 43 c then (false, s')
               else (false, s)
  | [] => (false, [])
  end.

(** The digits at the head of [s]: their value on top of [acc], how many
    there are on top of [count], and what follows them. *)
Fixpoint digits (s : list ascii) (acc count : Z) : Z * Z * list ascii :=
  match s with
  | c :: s' =>
      if is_digit c then digits s' (10 * acc + digit_value c)%Z (count + 1)%Z
      else (acc, count, s)
  | [] => (acc, count, [])
  end.

(** What follows the mantissa: nothing, or a complete exponent. *)
Definition parse_exponent (s : list ascii) : option Z :=
  match s with
  | [] => Some 0%Z
  | c :: s' =>
      if is_char 101 (lower c) then
        let '(neg, s'') := parse_sign s' in
        let '(v, n, rest) := digits s'' 0%Z 0%Z in
        match rest with
        | [] => if (0 <? n)%Z then Some (if neg then (- v)%Z else v) else None
        | _ :: _ => None
        end
      else None
  end.

(** An unsigned decimal number as [(m, e)], standing for [m * 10 ^ e]. *)
Definition parse_decimal (s : list ascii) : option (Z * Z) :=
  let '(int, ni, s1) := digits s 0%Z 0%Z in
  let '(m, nf, s2) :=
    match s1 with
    | c :: s1' => if is_char 46 c then digits s1' int 0%Z else (int, 0%Z, s1)
    | [] => (int, 0%Z, s1)
    end in
  if (0 <? ni + nf)%Z
  then option_map (fun e => (m, e - nf)%Z) (parse_exponent s2)
  else None.

(** The binary64 number nearest to [m * 10 ^ e], for [0 <= m]. *)
Definition SF_of_decimal (neg : bool) (m e : Z) : spec_float :=
  match m with
  | Zpos _ =>
      if (0 <=? e)%Z
      then binary_normalize prec emax (cond_Zopp neg (m * 10 ^ e)%Z) 0%Z false
      else
        let '(q, e', l) :=
          SFdiv_core_binary prec emax m 0%Z (10 ^ (- e))%Z 0%Z in
        binary_round_aux prec emax neg q e' l
  | _ => S754_zero neg
  end.

Definition inf_or_nan (s : list ascii) : option spec_float :=
  let '(neg, s') := parse_sign s in
  let word := string_of_list_ascii (map lower s') in
  if String.eqb word "inf" || String.eqb word "infinity"
  then Some (S754_infinity neg)
  else if String.eqb word "nan" then Some S754_nan
  else None.

Definition float_of_string (val : string) : option float :=
  match remove_underscores None
          (transform_decimal_and_space (list_ascii_of_string val)) with
  | None => None
  | Some s =>
      let s := strip s in
      let '(neg, digits_etc) := parse_sign s in
      match parse_decimal digits_etc with
      | Some (m, e) => Some (SF2Prim (SF_of_decimal neg m e))
      | None => option_map SF2Prim (inf_or_nan s)
      end
  end.

(** [try_floatify(val)]: the float if [float(val)] succeeds, [val] itself on
    [ValueError]. *)
Definition try_floatify (val : string) : value :=
  match float_of_string val with
  | Some x => Num x
  | None => Str val
  end.

(** ** extract_tagged_data *)

(** The loop over [words[1:]] (lines 54-59): the words before the first
    number form the key; [val] is what [try_floatify] returned last, and is
    unbound while no word has been read. *)
Fixpoint read_key (words : list string) (key : list string) (val : option value)
    : list string * option value :=
  match words with
  | [] => (key, val)
  | word :: words' =>
      let val := try_floatify word in
      if py_ne val (Str word) then (key, Some val)
      else read_key words' (key ++ [word]) (Some val)
  end.

(** [x in ("=", ':')]. *)
Definition is_separator (x : string) : bool :=
  String.eqb x "=" || String.eqb x ":".

(** [data[key].append(val)] if the key is there, [data[key] = [val]] if
    not. *)
Definition append_value (data : DataSet) (key : string) (val : value)
    : DataSet :=
  match dict_get data key with
  | Some vals => setitem data key (vals ++ [val])
  | None => setitem data key [val]
  end.

(** A line matched by the tag (lines 49-70). *)
Definition tagged_line (data : DataSet) (line : string) : result DataSet :=
  let words := split line in
  let '(key, val) := read_key (tl words) [] None in
  last_word <- last_item key ;;
  let key := if is_separator last_word then removelast key else key in
  let key := String.concat "_" key in
  last <- last_char key ;;
  let key := if is_separator (String last EmptyString)
             then drop_last_char key else key in
  let key := if nonempty key then key else "data" in
  val <- match val with Some v => Ok v | None => Raise NameError end ;;
  Ok (append_value data key val).

(** [extract_tagged_data(data_tag, filename)]; [fs] gives the content of the
    files that exist. *)
Definition extract_tagged_data (fs : string -> option string)
    (data_tag filename : string) : result DataSet :=
  match fs filename with
  | None =>
      Raise (RunError ("Cannot extract data: file " ++ filename
                       ++ " does not exist."))
  | Some content =>
      for_each
        (fun data line =>
           if data_tag_regex_match data_tag line then tagged_line data line
           else Ok data)
        (readlines content) []
  end.

(** ** dict_table_string *)

(** [type(val) is not float]. *)
Definition is_not_float (val : value) : bool :=
  match val with
  | Num _ => false
  | Str _ => true
  end.

(** The keys a header row stands for; every item of a header is a string. *)
Definition header_names (dline : list value) : list string :=
  flat_map (fun val => match val with Str s => [s] | Num _ => [] end) dline.

(** [for val in head: if val not in data_dict: data_dict[val] = []]. *)
Definition register (data_dict : DataSet) (head : list string) : DataSet :=
  fold_left
    (fun d val => if contains d val then d else setitem d val [])
    head data_dict.

(** [enumerate(l)]. *)
Definition enumerate {A : Type} (l : list A) : list (nat * A) :=
  combine (seq 0 (List.length l)) l.

(** [data_dict[head[ind]].append(val)]; [head] is unbound until the first
    header row. *)
Definition append_column (head : option (list string)) (data_dict : DataSet)
    (iv : nat * value) : result DataSet :=
  h <- match head with Some h => Ok h | None => Raise NameError end ;;
  name <- index h (fst iv) ;;
  vals <- getitem data_dict name ;;
  Ok (setitem data_dict name (vals ++ [snd iv])).

(** One turn of the loop over the rows (lines 98-117), on the pair
    [(data_dict, head)]. *)
Definition table_row (st : DataSet * option (list string)) (dline : list value)
    : result (DataSet * option (list string)) :=
  if compat_all (map is_not_float dline)
  then
    let head := header_names dline in
    Ok (register (fst st) head, Some head)
  else
    d <- for_each (append_column (snd st)) (enumerate dline) (fst st) ;;
    Ok (d, snd st).

(** [dict_table_string(table_string)]. *)
Definition dict_table_string (table_string : string) : result DataSet :=
  let data := map split (splitlines table_string) in
  let data := map (map try_floatify) data in
  st <- for_each table_row data ([], None) ;;
  Ok (fst st).

(** ** Vocabulary of the statements *)

(** A status that is not a partial pass. *)
Definition pass_or_fail (s : Status) : Prop := s = Pass \/ s = Fail.

(** The absolute check, when it is made. *)
Definition absolute_ok (a : option float) (diff : float) : bool :=
  match threshold_set a with
  | Some a' => (abs diff <? a')%float
  | None => true
  end.

Definition zero_or_unset (t : option float) : bool :=
  match t with
  | Some x => (x =? 0)%float
  | None => true
  end.

Definition nonnegative_or_unset (t : option float) : bool :=
  match t with
  | Some x => (0 <=? x)%float
  | None => true
  end.

(** A stand-in for ['%.2e' % x] where a concrete formatter is needed. *)
Definition some_format : float -> string := fun _ => "?.??e+??".

(** The status of a result, if there is one. *)
Definition status_of {A : Type} (r : result (Status * A)) : option Status :=
  match r with
  | Ok (st, _) => Some st
  | Raise _ => None
  end.

(** The two DataSets have the same field names. *)
Definition same_fields (benchmark test : DataSet) : Prop :=
  forall k, In k (keys benchmark) <-> In k (keys test).

(** Every field the two DataSets share has as many values in both. *)
Definition same_lengths (benchmark test : DataSet) : Prop :=
  forall k vb vt,
    dict_get benchmark k = Some vb -> dict_get test k = Some vt ->
    List.length vb = List.length vt.

(** What the shape check looks at: the field names and the number of values
    of each field. *)
Definition shape (d : DataSet) : list (string * nat) :=
  map (fun kv => (fst kv, List.length (snd kv))) d.

(** A file system with the one file "out". *)
Definition one_file (content : string) (filename : string) : option string :=
  if String.eqb filename "out" then Some content else None.

Definition table_text : string :=
  "a  b  c" ++ newline ++
  "1  2  3" ++ newline ++
  "4  5  6" ++ newline ++
  "a  b  d  e" ++ newline ++
  "7  8  9  6".

(** The field name the code forms from the words between the tag and the
    number (lines 60-66). *)
Definition field_name (key_words : list string) : string :=
  let key := if is_separator (last key_words EmptyString)
             then removelast key_words else key_words in
  let name := String.concat "_" key in
  let name := match last_char name with
              | Ok c => if is_separator (String c EmptyString)
                        then drop_last_char name else name
              | Raise _ => name
              end in
  if nonempty name then name else "data".

(** ** Status.print_status and print_success

    What is written to standard output, as one string. *)

(** [print(x)]: the text and a line feed. *)
Definition print (x : string) : string := (x ++ newline)%string.

(** [if msg: print(msg)], for a message that is [None] or a string. *)
Definition print_msg (msg : option string) : string :=
  match msg with
  | Some m => if nonempty m then print m else EmptyString
  | None => EmptyString
  end.

(** [Status.print_status(self, msg=None, verbose=True, vspace=True)]. *)
Definition print_status (self : Status) (msg : option string)
    (verbose vspace : bool) : string :=
  if verbose then
    ((if (status self =? _pass)%Z then print "Passed."
      else if (status self =? _partial)%Z then print "WARNING."
      else print "**FAILED**.")
     ++ print_msg msg
     ++ (if vspace then print EmptyString else EmptyString))%string
  else
    if (status self =? _pass)%Z then "."
    else if (status self =? _partial)%Z then "W"
    else "F".

(** [print_success(passed, msg, verbose)] of util.py. *)
Definition print_success (passed : bool) (msg : option string) (verbose : bool)
    : string :=
  if verbose then
    ((if passed then print "Passed." else print "**FAILED**.")
     ++ print_msg msg)%string
  else
    if passed then "." else "F".

(** ** testcode_filename and testcode_file_id *)

(** [s.replace(old, new)]: the occurrences of [old] are replaced from left
    to right, without overlap; [skip] counts the characters of an occurrence
    that are still to be passed over. *)
Fixpoint replace_from (old new s : string) (skip : nat) : string :=
  match s with
  | EmptyString => EmptyString
  | String c s' =>
      match skip with
      | S n => replace_from old new s' n
      | O =>
          if String.prefix old s
          then (new ++ replace_from old new s' (String.length old - 1))%string
          else String c (replace_from old new s' 0)
      end
  end.

(** With an empty [old], [new] goes before every character and at the
    end. *)
Fixpoint intersperse (new s : string) : string :=
  match s with
  | EmptyString => new
  | String c s' => (new ++ String c (intersperse new s'))%string
  end.

Definition replace (old new s : string) : string :=
  match old with
  | EmptyString => intersperse new s
  | String _ _ => replace_from old new s 0
  end.

(** [re.sub(pat + '.*', '', s)] for a literal [pat] that is not empty and has
    no line feed: every occurrence of [pat] is removed together with the rest
    of its line; [skipping] tells that the characters read belong to such a
    rest. *)
Fixpoint sub_to_eol_from (pat s : string) (skipping : bool) : string :=
  match s with
  | EmptyString => EmptyString
  | String c s' =>
      if skipping && negb (is_lf c) then sub_to_eol_from pat s' true
      else if String.prefix pat s then sub_to_eol_from pat s' true
      else String c (sub_to_eol_from pat s' false)
  end.

Definition sub_to_eol (pat s : string) : string := sub_to_eol_from pat s false.

(** The truth value of an optional string: [None] and [''] are false. *)
Definition given (s : option string) : option string :=
  match s with
  | Some x => if nonempty x then Some x else None
  | None => None
  end.

(** [testcode_filename(stem, file_id, inp, args)]. *)
Definition testcode_filename (stem file_id : string) (inp args : option string)
    : string :=
  let filename := (stem ++ "." ++ file_id)%string in
  let filename :=
    match given inp with
    | Some i => (filename ++ ".inp=" ++ i)%string
    | None => filename
    end in
  match given args with
  | Some a =>
      let args_string := replace " " "_" a in
      (filename ++ ".args=" ++ args_string)%string
  | None => filename
  end.

(** [testcode_file_id(filename, stem)]. *)
Definition testcode_file_id (filename stem : string) : string :=
  let filename := replace (stem ++ ".") EmptyString filename in
  let filename := sub_to_eol ".inp=" filename in
  sub_to_eol ".args=" filename.

(** ** Vocabulary of the further properties *)

(** The relative error of two numbers, as [validate] computes it. *)
Definition relative_error (diff y : float) : float :=
  if (y =? 0)%float then (if (diff =? 0)%float then zero else infinity)
  else abs (diff / y).

(** The relative check, when it is made. *)
Definition relative_ok (r : option float) (diff y : float) : bool :=
  match threshold_set r with
  | Some r' => (relative_error diff y <? r')%float
  | None => true
  end.

(** The second threshold asks for no more than the first: it makes no check,
    or both make one and the second bound is at least the first. *)
Definition looser (t t' : option float) : bool :=
  match threshold_set t' with
  | None => true
  | Some a' =>
      match threshold_set t with
      | Some a => (a <=? a')%float
      | None => false
      end
  end.

(** A value that equals itself under every check: a finite number or a
    string. *)
Definition plain_value (v : value) : bool :=
  match v with
  | Num x => is_finite x
  | Str _ => true
  end.

(** Both thresholds of a tolerance are unset, zero or positive. *)
Definition sound_tolerance (tol : Tolerance) : bool :=
  nonnegative_or_unset (absolute tol) && nonnegative_or_unset (relative tol).

(** The tolerance [compare_data] uses for a field. *)
Definition tolerance_of (default_tolerance : Tolerance)
    (tolerances : dict Tolerance) (key : string) : Tolerance :=
  match dict_get tolerances key with
  | Some t => t
  | None => default_tolerance
  end.

(** Every pair of values that [compare_data] compares passes [validate]
    under the tolerance of its field. *)
Definition pairs_pass (format_2e : float -> string)
    (default_tolerance : Tolerance) (tolerances : dict Tolerance)
    (benchmark test : DataSet) : Prop :=
  forall key bvals tvals ind bv tv,
    dict_get benchmark key = Some bvals -> dict_get test key = Some tvals ->
    nth_error bvals ind = Some bv -> nth_error tvals ind = Some tv ->
    status_of (validate format_2e (tolerance_of default_tolerance tolerances key)
                 tv bv key) = Some Pass.

(** The values a field has at one place pass under a tolerance. *)
Definition place_passes (format_2e : float -> string) (tol : Tolerance)
    (benchmark test : DataSet) (key : string) (ind : nat) : Prop :=
  forall bvals tvals bv tv,
    dict_get benchmark key = Some bvals -> dict_get test key = Some tvals ->
    nth_error bvals ind = Some bv -> nth_error tvals ind = Some tv ->
    status_of (validate format_2e tol tv bv key) = Some Pass.

(** What the comparison loops keep: the status is Pass or Fail, it is Pass
    iff no message has been collected, and no collected message is empty. *)
Definition tidy (acc : Status * list string) : Prop :=
  pass_or_fail (fst acc) /\ (fst acc = Pass <-> snd acc = []) /\
  Forall (fun w => nonempty w = true) (snd acc).

(** The values that the rows of a table have at place [j]. *)
Definition column (j : nat) (rows : list (list value)) : list value :=
  flat_map (fun row => match nth_error row j with
                       | Some v => [v]
                       | None => []
                       end) rows.

(** A row with a number in it. *)
Definition is_data_row (row : list value) : bool :=
  negb (compat_all (map is_not_float row)).

(** The columns after one more row: the value at each place of the row goes
    to the end of the column at that place. *)
Fixpoint extend (cols : list (list value)) (row : list value)
    : list (list value) :=
  match cols, row with
  | c :: cols', v :: row' => (c ++ [v]) :: extend cols' row'
  | _, _ => cols
  end.

(** The rows of tokens that [dict_table_string] reads from a text. *)
Definition table_data (table_string : string) : list (list value) :=
  map (map try_floatify) (map split (splitlines table_string)).

(** The key words and the value that [extract_tagged_data] reads from a
    line. *)
Definition line_key (line : string) : list string :=
  fst (read_key (tl (split line)) [] None).

Definition line_val (line : string) : option value :=
  snd (read_key (tl (split line)) [] None).

(** The key words without a last word that is "=" or ":" . *)
Definition kept_key (key : list string) : list string :=
  if is_separator (last key EmptyString) then removelast key else key.

(** A line that leaves no key word. *)
Definition keyless (line : string) : bool :=
  match kept_key (line_key line) with
  | [] => true
  | _ :: _ => false
  end.

(** The number of values in a DataSet. *)
Definition total_values (data : DataSet) : nat :=
  list_sum (map (fun kv => List.length (snd kv)) data).

(** [old] occurs somewhere in [s]. *)
Fixpoint occurs (old s : string) : bool :=
  String.prefix old s
  || match s with
     | String _ s' => occurs old s'
     | EmptyString => false
     end.

(** An occurrence of [pat] in [u ++ t] starts inside [u]. *)
Fixpoint starts_within (pat u t : string) : bool :=
  match u with
  | EmptyString => false
  | String _ u' => String.prefix pat (u ++ t) || starts_within pat u' t
  end.

(** A string without line feed. *)
Fixpoint one_line (s : string) : bool :=
  match s with
  | EmptyString => true
  | String c s' => negb (is_lf c) && one_line s'
  end.

(** A string without full stop. *)
Fixpoint no_dot (s : string) : bool :=
  match s with
  | EmptyString => true
  | String c s' => negb (code c =? 46)%N && no_dot s'
  end.

(** What [testcode_filename] puts after the stem and its full stop. *)
Definition name_tail (file_id : string) (inp args : option string) : string :=
  ((file_id
    ++ match given inp with
       | Some i => ".inp=" ++ i
       | None => EmptyString
       end)
   ++ match given args with
      | Some a => ".args=" ++ replace " " "_" a
      | None => EmptyString
      end)%string.

Definition one_line_option (s : option string) : bool :=
  match s with
  | Some x => one_line x
  | None => true
  end.

(** The full stop. *)
Definition dot : ascii := ascii_of_N 46.


(** ** pretty_print_table *)

(** What a dictionary given to [pretty_print_table] holds for a key: a tuple
    (or list) of scalars, or one scalar. *)
Inductive cell : Type :=
| Tuple (items : list value)
| Scalar (v : value).

Fixpoint spaces (n : nat) : string :=
  match n with
  | O => EmptyString
  | S n' => String (ascii_of_N 32) (spaces n')
  end.

(** ['%-<width>s' % s] for a string [s]: [s] with blanks after it up to
    [width] characters. *)
Definition ljust (width : nat) (s : string) : string :=
  (s ++ spaces (width - String.length s))%string.

(** [max] of a sequence, [ValueError] when it is empty. *)
Definition max_of (l : list nat) : result nat :=
  match l with
  | [] => Raise ValueError
  | x :: l' => Ok (fold_left Nat.max l' x)
  end.

(** A list comprehension or generator whose element may raise. *)
Fixpoint map_result {A B : Type} (f : A -> result B) (l : list A)
    : result (list B) :=
  match l with
  | [] => Ok []
  | x :: l' => y <- f x ;; ys <- map_result f l' ;; Ok (y :: ys)
  end.

(** [for item in c]: the items of a tuple, the characters of a string; a
    float cannot be iterated over. *)
Definition iterate (c : cell) : result (list value) :=
  match c with
  | Tuple items => Ok items
  | Scalar (Str s) =>
      Ok (map (fun ch => Str (String ch EmptyString)) (list_ascii_of_string s))
  | Scalar (Num _) => Raise TypeError
  end.

Section PrettyPrint.

(** Python's [str] on the objects a dictionary holds, taken as a
    parameter. *)
Variable str : cell -> string.

(** [for item in dval[key]: field_width[key] =
     max(field_width[key], len(str(item)))] (lines 136-137). *)
Definition widen (key : string) (width : nat) (dval : dict cell) : result nat :=
  c <- getitem dval key ;;
  items <- iterate c ;;
  Ok (fold_left (fun w item => Nat.max w (String.length (str (Scalar item))))
                items width).

(** One turn of the loop over the keys of [dicts[0]] (lines 130-143), on the
    pair [(fmt, header)]; [fmt] is kept as the widths of its formats. *)
Definition header_key (dicts : list (dict cell))
    (st : dict nat * list string) (key : string)
    : result (dict nat * list string) :=
  d0 <- index dicts 0 ;;
  c0 <- getitem d0 key ;;
  wn <- match c0 with
        | Tuple items0 =>
            w <- for_each (widen key) dicts (String.length key) ;;
            Ok (w, List.length items0)
        | Scalar _ =>
            ws <- map_result (fun dval => c <- getitem dval key ;;
                                          Ok (String.length (str c))) dicts ;;
            w <- max_of ws ;;
            Ok (Nat.max w (String.length key), 1)
        end ;;
  Ok (setitem (fst st) key (fst wn),
      snd st ++ repeat (ljust (fst wn) key) (snd wn)).

(** The cells of a line for one key (lines 150-155). *)
Definition line_cells (fmt : dict nat) (dval : dict cell) (line : list string)
    (key : string) : result (list string) :=
  c <- getitem dval key ;;
  match c with
  | Tuple items =>
      for_each (fun line item =>
                  w <- getitem fmt key ;;
                  Ok (line ++ [ljust w (str (Scalar item))]))
               items line
  | Scalar _ =>
      w <- getitem fmt key ;;
      Ok (line ++ [ljust w (str c)])
  end.

(** One turn of the loop over the labels (lines 147-156). *)
Definition label_line (fmt : dict nat) (dicts : list (dict cell))
    (lines : list (list string)) (il : nat * string)
    : result (list (list string)) :=
  wl <- getitem fmt "label" ;;
  dval <- index dicts (fst il) ;;
  line <- for_each (line_cells fmt dval) (sorted (keys dval))
                   [ljust wl (snd il)] ;;
  Ok (lines ++ [line]).

(** The lines of the table, before they are joined by line feeds. *)
Definition table_lines (labels : list string) (dicts : list (dict cell))
    : result (list string) :=
  label_width <- max_of (map String.length labels) ;;
  let fmt := [("label", label_width)] in
  let header := [ljust label_width EmptyString] in
  d0 <- index dicts 0 ;;
  st <- for_each (header_key dicts) (sorted (keys d0)) (fmt, header) ;;
  lines <- for_each (label_line (fst st) dicts) (enumerate labels) [snd st] ;;
  Ok (map (String.concat "  ") lines).

(** [pretty_print_table(labels, dicts)], for labels that are strings. *)
Definition pretty_print_table (labels : list string) (dicts : list (dict cell))
    : result string :=
  lines <- table_lines labels dicts ;;
  Ok (String.concat newline lines).

End PrettyPrint.

(** A DataSet as the dictionary of tuples [pretty_print_table] is given. *)
Definition tuples (d : DataSet) : dict cell :=
  map (fun kv => (fst kv, Tuple (snd kv))) d.

(** A stand-in for [str] in closed statements. *)
Definition some_str (c : cell) : string :=
  match c with
  | Scalar (Str s) => s
  | Scalar (Num x) => if (x =? 1)%float then "1.0" else "22.5"
  | Tuple _ => "(...)"
  end.

(** The width the header loop gives to the column of a key that holds
    tuples. *)
Definition width_of (str : cell -> string) (dicts : list (dict cell))
    (key : string) : nat :=
  match for_each (widen str key) dicts (String.length key) with
  | Ok w => w
  | Raise _ => 0
  end.

(** The number of values a DataSet has for a key. *)
Definition count_of (d : DataSet) (key : string) : nat :=
  match dict_get d key with
  | Some items => List.length items
  | None => 0
  end.

(** The widths of the cells after the label: [n k] cells of width [w k] for
    each of the names. *)
Definition cell_widths (w n : string -> nat) (names : list string) : list nat :=
  flat_map (fun k => repeat (w k) (n k)) names.


(** The first error in the rows of a table, if there is one, with [head]
    the header in force: a row with a number raises [NameError] when no
    header row came before it, and [IndexError] when it has more items than
    the last header row before it; a row without a number is the header
    from there on. *)
Fixpoint table_error (head : option (list string)) (rows : list (list value))
    : option exception :=
  match rows with
  | [] => None
  | row :: rows' =>
      if is_data_row row then
        match head with
        | None => Some NameError
        | Some h =>
            if (List.length h <? List.length row)%nat then Some IndexError
            else table_error head rows'
        end
      else table_error (Some (header_names row)) rows'
  end.

(** * Properties *)

(** ** Status *)

Lemma Status_add_max (a b : Status) : Status_add a b = Status_max a b.
Proof. destruct a, b; reflexivity. Qed.

Lemma Status_leb_status (a b : Status) :
  Status_leb a b = true <-> (status a <= status b)%Z.
Proof.
  destruct a, b; cbn; unfold _pass, _partial, _fail;
    split; intros H; try reflexivity; try discriminate; lia.
Qed.

(** C8: the combination of two statuses is commutative, associative and
    idempotent, has identity Pass and absorbing element Fail, and is the
    maximum of the two under the order Pass < Warning < Fail. *)
Theorem Status_add_algebra :
  (forall a b, Status_add a b = Status_add b a) /\
  (forall a b c, Status_add (Status_add a b) c = Status_add a (Status_add b c)) /\
  (forall a, Status_add a a = a) /\
  (forall a, Status_add Pass a = a /\ Status_add a Pass = a) /\
  (forall a, Status_add Fail a = Fail /\ Status_add a Fail = Fail) /\
  (forall a b, Status_add a b = Status_max a b) /\
  (forall a b,
      Status_leb a (Status_add a b) = true /\
      Status_leb b (Status_add a b) = true /\
      (Status_add a b = a \/ Status_add a b = b)) /\
  (forall a b, Status_leb a b = true <-> (status a <= status b)%Z) /\
  (Status_leb Pass Warning = true /\ Status_leb Warning Fail = true /\
   Status_leb Warning Pass = false /\ Status_leb Fail Warning = false).
Proof.
  split; [intros [] []; reflexivity|].
  split; [intros [] [] []; reflexivity|].
  split; [intros []; reflexivity|].
  split; [intros []; split; reflexivity|].
  split; [intros []; split; reflexivity|].
  split; [exact Status_add_max|].
  split; [intros [] []; cbv; auto|].
  split; [exact Status_leb_status|].
  repeat split.
Qed.

(** ** Floats *)

Lemma Prim2SF_zero : Prim2SF zero = S754_zero false.
Proof. reflexivity. Qed.

Lemma Prim2SF_infinity : Prim2SF infinity = S754_infinity false.
Proof. reflexivity. Qed.

Lemma SFcompare_refl (x : spec_float) :
  x <> S754_nan -> SFcompare x x = Some Eq.
Proof.
  destruct x as [s|s|  |s m e]; cbn; intros H; try congruence.
  - destruct s; reflexivity.
  - rewrite Z.compare_refl.
    destruct s; rewrite ?Pos.compare_cont_refl; reflexivity.
Qed.

Lemma is_nan_Prim2SF (x : float) :
  is_nan x = match Prim2SF x with S754_nan => true | _ => false end.
Proof.
  unfold is_nan. rewrite eqb_spec. unfold SFeqb.
  destruct (Prim2SF x) eqn:E; try reflexivity.
  all: rewrite SFcompare_refl by discriminate; reflexivity.
Qed.

Ltac float_spec :=
  rewrite ?eqb_spec, ?ltb_spec, ?leb_spec, ?abs_spec, ?sub_spec, ?div_spec;
  change (Prim2SF 0) with (S754_zero false);
  change (Prim2SF infinity) with (S754_infinity false).

Lemma eqb_zero_Prim2SF (x : float) :
  (x =? 0)%float = match Prim2SF x with S754_zero _ => true | _ => false end.
Proof.
  float_spec. destruct (Prim2SF x) as [[]|[]| |[] m e]; reflexivity.
Qed.

Lemma is_finite_Prim2SF (x : float) :
  is_finite x = match Prim2SF x with
                | S754_zero _ | S754_finite _ _ _ => true
                | _ => false
                end.
Proof.
  unfold is_finite, is_infinity. rewrite is_nan_Prim2SF. float_spec.
  destruct (Prim2SF x) as [[]|[]| |[] m e]; reflexivity.
Qed.

Lemma zero_ltb_of_leb (a : float) :
  (0 <=? a)%float = true -> (a =? 0)%float = false -> (0 <? a)%float = true.
Proof.
  float_spec. destruct (Prim2SF a) as [[]|[]| |[] m e]; cbn; congruence.
Qed.

Lemma infinity_ltb (r : float) : (infinity <? r)%float = false.
Proof.
  float_spec. destruct (Prim2SF r) as [[]|[]| |[] m e]; reflexivity.
Qed.

Lemma sub_diag_finite (x : float) : is_finite x = true -> (x - x)%float = zero.
Proof.
  rewrite is_finite_Prim2SF. intros H. apply Prim2SF_inj. rewrite sub_spec.
  change (Prim2SF zero) with (S754_zero false).
  destruct (Prim2SF x) as [[]|[]| |s m e]; try discriminate; try reflexivity.
  unfold SF64sub, SFsub. rewrite Z.sub_diag. reflexivity.
Qed.

Lemma abs_zero_div (x : float) :
  is_finite x = true -> (x =? 0)%float = false -> abs (zero / x) = zero.
Proof.
  rewrite is_finite_Prim2SF, eqb_zero_Prim2SF. intros H H0.
  apply Prim2SF_inj. rewrite abs_spec, div_spec.
  change (Prim2SF zero) with (S754_zero false).
  destruct (Prim2SF x) as [[]|[]| |s m e]; try discriminate; reflexivity.
Qed.

Lemma sub_zero_eqb (x y : float) :
  (y =? 0)%float = true -> ((x - y) =? 0)%float = (x =? 0)%float.
Proof.
  rewrite !eqb_zero_Prim2SF, sub_spec.
  destruct (Prim2SF y) as [sy|sy| |sy my ey]; try discriminate. intros _.
  destruct (Prim2SF x) as [[]|[]| |[] m e], sy; reflexivity.
Qed.

Lemma nan_sub (x y : float) :
  is_nan x || is_nan y = true -> is_nan (x - y) = true.
Proof.
  rewrite !is_nan_Prim2SF, sub_spec.
  destruct (Prim2SF x) as [[]|[]| |[] m e], (Prim2SF y) as [[]|[]| |[] m' e'];
    try discriminate; reflexivity.
Qed.

Lemma nan_div (x y : float) :
  is_nan x || is_nan y = true -> is_nan (x / y) = true.
Proof.
  rewrite !is_nan_Prim2SF, div_spec.
  destruct (Prim2SF x) as [[]|[]| |[] m e], (Prim2SF y) as [[]|[]| |[] m' e'];
    try discriminate; reflexivity.
Qed.

Lemma nan_abs (x : float) : is_nan x = true -> is_nan (abs x) = true.
Proof.
  rewrite !is_nan_Prim2SF, abs_spec.
  destruct (Prim2SF x) as [[]|[]| |[] m e]; try discriminate; reflexivity.
Qed.

Lemma nan_ltb (x r : float) : is_nan x = true -> (x <? r)%float = false.
Proof.
  rewrite is_nan_Prim2SF, ltb_spec.
  destruct (Prim2SF x) as [[]|[]| |[] m e]; try discriminate; reflexivity.
Qed.

Lemma nan_eqb_zero (x : float) : is_nan x = true -> (x =? 0)%float = false.
Proof.
  rewrite is_nan_Prim2SF, eqb_zero_Prim2SF.
  destruct (Prim2SF x); try discriminate; reflexivity.
Qed.

(** ** Tolerance.validate *)

Lemma Status_of_bool (b : bool) :
  Status_init [b] None = if b then Pass else Fail.
Proof. destruct b; reflexivity. Qed.

Lemma pass_or_fail_init (b : bool) : pass_or_fail (Status_init [b] None).
Proof. rewrite Status_of_bool. destruct b; [left|right]; reflexivity. Qed.

Lemma pass_or_fail_add (a b : Status) :
  pass_or_fail a -> pass_or_fail b -> pass_or_fail (Status_add a b).
Proof. intros [-> | ->] [-> | ->]; cbv; auto. Qed.

Lemma either_isnan_Num (x y : float) :
  either_isnan (Num x) (Num y) = Ok (is_nan x || is_nan y).
Proof. unfold either_isnan; cbn. destruct (is_nan x); reflexivity. Qed.

Lemma threshold_set_zero (t : option float) :
  zero_or_unset t = true -> threshold_set t = None.
Proof. destruct t as [x|]; cbn; [intros ->|]; reflexivity. Qed.

Lemma threshold_set_Some (t : option float) (a : float) :
  threshold_set t = Some a -> t = Some a /\ (a =? 0)%float = false.
Proof.
  destruct t as [x|]; cbn; [|discriminate].
  destruct (x =? 0)%float eqn:E; [discriminate|].
  intros [= <-]. auto.
Qed.

Lemma threshold_set_positive (t : option float) (a : float) :
  nonnegative_or_unset t = true -> threshold_set t = Some a ->
  (0 <? a)%float = true.
Proof.
  intros Hn Hs. apply threshold_set_Some in Hs as [-> Hz].
  apply zero_ltb_of_leb; assumption.
Qed.

Lemma relative_err_Num (diff y : float) :
  relative_err diff (Num y) =
  Ok (if (y =? 0)%float then (if (diff =? 0)%float then zero else infinity)
      else abs (diff / y)).
Proof.
  unfold relative_err, py_eq_zero, py_div.
  destruct (y =? 0)%float, (diff =? 0)%float; reflexivity.
Qed.

Section ValidateFacts.

Variable format_2e : float -> string.

(** [validate] on two floats, one case after the other. *)
Lemma validate_Num (tol : Tolerance) (x y : float) (key : string) :
  validate format_2e tol (Num x) (Num y) key =
  if is_nan x || is_nan y
  then Ok (Fail, with_key key "cannot compare NaNs.")
  else
    let diff := (x - y)%float in
    let st1 :=
      match threshold_set (absolute tol) with
      | Some a =>
          (Status_init [(abs diff <? a)%float] None,
           if (abs diff <? a)%float then "values are within tolerance."
           else absolute_msg format_2e (abs diff) a)
      | None => (Pass, "values are within tolerance.")
      end in
    match threshold_set (relative tol) with
    | Some r =>
        let err := if (y =? 0)%float
                   then (if (diff =? 0)%float then zero else infinity)
                   else abs (diff / y) in
        Ok (Status_add (fst st1) (Status_init [(err <? r)%float] None),
            with_key key (if (err <? r)%float then snd st1
                          else relative_msg format_2e err r))
    | None => Ok (fst st1, with_key key (snd st1))
    end.
Proof.
  unfold validate, validate_try. rewrite either_isnan_Num.
  destruct (is_nan x || is_nan y); [reflexivity|].
  cbn [py_sub]. rewrite relative_err_Num.
  destruct (threshold_set (absolute tol)) as [a|],
           (threshold_set (relative tol)) as [r|]; cbn -[Status_add Status_init].
  all: rewrite ?Status_of_bool.
  all: repeat match goal with |- context [(?u <? ?v)%float] =>
         destruct (u <? v)%float end; reflexivity.
Qed.

(** [validate] when one of the values is a string. *)
Lemma validate_Str_l (tol : Tolerance) (s : string) (b : value) (key : string) :
  validate format_2e tol (Str s) b key =
  if py_ne (Str s) b then Ok (Fail, with_key key "values are different.")
  else Ok (Pass, with_key key "values are within tolerance.").
Proof.
  unfold validate, validate_try; cbn.
  destruct b as [y|t]; cbn; [reflexivity|].
  destruct (String.eqb s t); reflexivity.
Qed.

Lemma validate_Str_r (tol : Tolerance) (x : float) (s : string) (key : string) :
  validate format_2e tol (Num x) (Str s) key =
  if is_nan x then Ok (Fail, with_key key "cannot compare NaNs.")
  else Ok (Fail, with_key key "values are different.").
Proof.
  unfold validate, validate_try, either_isnan; cbn.
  destruct (is_nan x); reflexivity.
Qed.

(** [validate] returns, with a status that is Pass or Fail. *)
Lemma validate_returns (tol : Tolerance) (t b : value) (key : string) :
  exists st msg,
    validate format_2e tol t b key = Ok (st, msg) /\ pass_or_fail st.
Proof.
  destruct t as [x|s].
  - destruct b as [y|s].
    + rewrite validate_Num.
      destruct (is_nan x || is_nan y);
        [do 2 eexists; split; [reflexivity|right; reflexivity]|].
      cbv zeta.
      assert (H1 : pass_or_fail
                (fst match threshold_set (absolute tol) with
                     | Some a =>
                         (Status_init [(abs (x - y) <? a)%float] None,
                          if (abs (x - y) <? a)%float
                          then "values are within tolerance."
                          else absolute_msg format_2e (abs (x - y)) a)
                     | None => (Pass, "values are within tolerance.")
                     end)).
      { destruct (threshold_set (absolute tol)); cbn [fst];
          [apply pass_or_fail_init | left; reflexivity]. }
      destruct (threshold_set (relative tol)) as [r|];
        do 2 eexists; (split; [reflexivity|]); [|exact H1].
      apply pass_or_fail_add; [exact H1 | apply pass_or_fail_init].
    + rewrite validate_Str_r.
      destruct (is_nan x); do 2 eexists; (split; [reflexivity|right; reflexivity]).
  - rewrite validate_Str_l.
    destruct (py_ne (Str s) b); do 2 eexists;
      (split; [reflexivity|]); [right|left]; reflexivity.
Qed.

End ValidateFacts.

(** C5: if either of two numeric values is NaN, [validate] returns (it does
    not raise) the status Fail with the message "cannot compare NaNs.", with
    the field name in front when there is one, whatever the thresholds. *)
Theorem validate_nan :
  forall (format_2e : float -> string) (tol : Tolerance) (x y : float)
         (key : string),
    is_nan x = true \/ is_nan y = true ->
    validate format_2e tol (Num x) (Num y) key =
      Ok (Fail, match key with
                | EmptyString => "cannot compare NaNs."
                | _ => (key ++ ": cannot compare NaNs.")%string
                end).
Proof.
  intros fmt tol x y key H. rewrite validate_Num.
  replace (is_nan x || is_nan y) with true
    by (destruct H as [-> | ->]; [|rewrite orb_true_r]; reflexivity).
  destruct key; reflexivity.
Qed.

Lemma validate_nan_witness :
  validate (fun _ => "?") (mkTolerance (Some 0.5%float) None)
           (Num nan) (Num 1%float) "Energy"
  = Ok (Fail, "Energy: cannot compare NaNs.").
Proof.
  apply (validate_nan (fun _ => "?") (mkTolerance (Some 0.5%float) None)
                      nan 1%float "Energy").
  left. reflexivity.
Defined.

(** C10: a threshold equal to zero is treated as an unset one, and with both
    thresholds zero or unset two numbers that are not NaN pass, whatever
    their difference. *)
Theorem validate_zero_threshold :
  forall (format_2e : float -> string),
    (forall a r t b key,
        zero_or_unset a = true ->
        validate format_2e (mkTolerance a r) t b key
        = validate format_2e (mkTolerance None r) t b key) /\
    (forall a r t b key,
        zero_or_unset r = true ->
        validate format_2e (mkTolerance a r) t b key
        = validate format_2e (mkTolerance a None) t b key) /\
    (forall tol x y key,
        zero_or_unset (absolute tol) = true ->
        zero_or_unset (relative tol) = true ->
        is_nan x = false -> is_nan y = false ->
        validate format_2e tol (Num x) (Num y) key
        = Ok (Pass, with_key key "values are within tolerance.")).
Proof.
  intros fmt. split; [|split].
  - intros a r t b key Ha. unfold validate, validate_try. cbn [absolute relative].
    rewrite (threshold_set_zero a Ha). reflexivity.
  - intros a r t b key Hr. unfold validate, validate_try. cbn [absolute relative].
    rewrite (threshold_set_zero r Hr). reflexivity.
  - intros tol x y key Ha Hr Hx Hy. rewrite validate_Num, Hx, Hy.
    rewrite (threshold_set_zero _ Ha), (threshold_set_zero _ Hr). reflexivity.
Qed.

Lemma validate_zero_threshold_witness :
  validate some_format (mkTolerance (Some 0%float) (Some 0.5%float))
           (Num 1%float) (Str "a") "E"
  = validate some_format (mkTolerance None (Some 0.5%float))
             (Num 1%float) (Str "a") "E" /\
  validate some_format (mkTolerance (Some 0.5%float) (Some (-0)%float))
           (Num 1%float) (Num 3%float) "E"
  = validate some_format (mkTolerance (Some 0.5%float) None)
             (Num 1%float) (Num 3%float) "E" /\
  validate some_format (mkTolerance (Some 0%float) (Some (-0)%float))
           (Num 1%float) (Num 3%float) "E"
  = Ok (Pass, "E: values are within tolerance.").
Proof.
  destruct (validate_zero_threshold some_format) as (Ha & Hr & Hp).
  split; [|split].
  - apply (Ha (Some 0%float) (Some 0.5%float) (Num 1%float) (Str "a") "E").
    reflexivity.
  - apply (Hr (Some 0.5%float) (Some (-0)%float) (Num 1%float) (Num 3%float) "E").
    reflexivity.
  - apply (Hp (mkTolerance (Some 0%float) (Some (-0)%float)) 1%float 3%float "E");
      reflexivity.
Defined.

(** C4, as the code has it: a finite number compared with itself passes
    under every Tolerance whose thresholds are unset, zero or positive. *)
Theorem validate_same_value :
  forall (format_2e : float -> string) (tol : Tolerance) (x : float)
         (key : string),
    is_finite x = true ->
    nonnegative_or_unset (absolute tol) = true ->
    nonnegative_or_unset (relative tol) = true ->
    validate format_2e tol (Num x) (Num x) key
    = Ok (Pass, with_key key "values are within tolerance.").
Proof.
  intros fmt tol x key Hx Ha Hr. rewrite validate_Num.
  assert (Hn : is_nan x = false).
  { unfold is_finite in Hx. destruct (is_nan x); [discriminate|reflexivity]. }
  rewrite Hn, (sub_diag_finite x Hx). cbn [orb]. cbv zeta.
  change (abs zero) with zero. change (zero =? 0)%float with true.
  assert (Hst : match threshold_set (absolute tol) with
                | Some a =>
                    (Status_init [(zero <? a)%float] None,
                     if (zero <? a)%float then "values are within tolerance."
                     else absolute_msg fmt zero a)
                | None => (Pass, "values are within tolerance.")
                end = (Pass, "values are within tolerance.")).
  { destruct (threshold_set (absolute tol)) as [a|] eqn:E; [|reflexivity].
    change (zero <? a)%float with (0 <? a)%float.
    rewrite (threshold_set_positive _ _ Ha E). reflexivity. }
  rewrite Hst. cbn [fst snd].
  destruct (threshold_set (relative tol)) as [r|] eqn:E; [|reflexivity].
  assert (He : (if (x =? 0)%float then zero else abs (zero / x)) = zero).
  { destruct (x =? 0)%float eqn:E0; [reflexivity|]. apply abs_zero_div; assumption. }
  rewrite He. change (zero <? r)%float with (0 <? r)%float.
  rewrite (threshold_set_positive _ _ Hr E). reflexivity.
Qed.

Lemma validate_same_value_witness :
  validate some_format (mkTolerance (Some 0.5%float) (Some 0.25%float))
           (Num 1.5%float) (Num 1.5%float) "Energy"
  = Ok (Pass, "Energy: values are within tolerance.").
Proof.
  apply (validate_same_value some_format
           (mkTolerance (Some 0.5%float) (Some 0.25%float)) 1.5%float "Energy");
    reflexivity.
Defined.

(** C4 fails as stated: an infinite value compared with itself fails an
    ordinary absolute check (the difference is NaN), NaN compared with itself
    fails, and a negative threshold fails every comparison. *)
Lemma validate_same_value_counterexample :
  status_of (validate some_format (mkTolerance (Some 0.5%float) None)
                      (Num infinity) (Num infinity) "Energy") = Some Fail /\
  status_of (validate some_format (mkTolerance None None)
                      (Num nan) (Num nan) "Energy") = Some Fail /\
  status_of (validate some_format (mkTolerance (Some (-1)%float) None)
                      (Num 1%float) (Num 1%float) "Energy") = Some Fail.
Proof. repeat split. Qed.

(** C7, as the code has it: with a relative threshold [r] that is not zero,
    the relative error is 0 when the benchmark and the difference are zero,
    infinite when the benchmark is zero and the difference is not, and
    |diff / benchmark| otherwise; the values pass iff the absolute check (if
    any) passes and the relative error is strictly below [r].  A zero
    benchmark with a non-zero test value fails; with a zero test value the
    relative check passes iff [0 < r]. *)
Theorem validate_relative :
  forall (format_2e : float -> string) (a : option float) (r x y : float)
         (key : string),
    (r =? 0)%float = false ->
    exists err st msg,
      relative_err (x - y) (Num y) = Ok err /\
      ((y =? 0)%float = true -> ((x - y) =? 0)%float = true -> err = zero) /\
      ((y =? 0)%float = true -> ((x - y) =? 0)%float = false -> err = infinity) /\
      ((y =? 0)%float = false -> err = abs ((x - y) / y)) /\
      validate format_2e (mkTolerance a (Some r)) (Num x) (Num y) key
      = Ok (st, msg) /\
      (st = Pass <-> absolute_ok a (x - y) = true /\ (err <? r)%float = true) /\
      (st = Pass \/ st = Fail) /\
      ((y =? 0)%float = true -> (x =? 0)%float = true ->
       err = zero /\ (err <? r)%float = (0 <? r)%float) /\
      ((y =? 0)%float = true -> (x =? 0)%float = false ->
       err = infinity /\ st = Fail).
Proof.
  intros fmt a r x y key Hr.
  rewrite relative_err_Num, validate_Num. cbn [absolute relative].
  replace (threshold_set (Some r)) with (Some r)
    by (unfold threshold_set; rewrite Hr; reflexivity).
  cbv zeta.
  set (err := if (y =? 0)%float
              then (if ((x - y) =? 0)%float then zero else infinity)
              else abs ((x - y) / y)).
  assert (Hnan : is_nan x || is_nan y = true -> (err <? r)%float = false).
  { intros Hn. subst err. destruct (y =? 0)%float eqn:Ey.
    - assert (Hx : is_nan x = true).
      { destruct (is_nan y) eqn:Ny; [|rewrite orb_false_r in Hn; exact Hn].
        rewrite (nan_eqb_zero y Ny) in Ey. discriminate. }
      rewrite sub_zero_eqb, (nan_eqb_zero x Hx) by exact Ey.
      apply infinity_ltb.
    - apply nan_ltb, nan_abs, nan_div. rewrite (nan_sub x y Hn). reflexivity. }
  assert (Hzero : (y =? 0)%float = true -> (x =? 0)%float = true -> err = zero).
  { intros Ey Ex. subst err. rewrite Ey, sub_zero_eqb, Ex by exact Ey. reflexivity. }
  assert (Hinf : (y =? 0)%float = true -> (x =? 0)%float = false -> err = infinity).
  { intros Ey Ex. subst err. rewrite Ey, sub_zero_eqb, Ex by exact Ey. reflexivity. }
  destruct (is_nan x || is_nan y) eqn:En.
  - exists err, Fail. eexists. split; [reflexivity|].
    split; [intros Ey Ed; subst err; rewrite Ey, Ed; reflexivity|].
    split; [intros Ey Ed; subst err; rewrite Ey, Ed; reflexivity|].
    split; [intros Ey; subst err; rewrite Ey; reflexivity|].
    split; [reflexivity|].
    split; [|split; [right; reflexivity|split]].
    + rewrite (Hnan eq_refl). split; [discriminate|intros [_ H]; discriminate].
    + intros Ey Ex. split; [auto|]. rewrite (Hzero Ey Ex). reflexivity.
    + intros Ey Ex. split; [auto|reflexivity].
  - exists err. do 2 eexists. split; [reflexivity|].
    split; [intros Ey Ed; subst err; rewrite Ey, Ed; reflexivity|].
    split; [intros Ey Ed; subst err; rewrite Ey, Ed; reflexivity|].
    split; [intros Ey; subst err; rewrite Ey; reflexivity|].
    split; [reflexivity|].
    assert (Hiff : forall b1 b2 : bool,
               Status_add (Status_init [b1] None) (Status_init [b2] None) = Pass
               <-> b1 = true /\ b2 = true).
    { intros [] []; cbv; intuition discriminate. }
    assert (Hpf : forall s b, pass_or_fail s ->
               pass_or_fail (Status_add s (Status_init [b] None))).
    { intros s b Hs. apply pass_or_fail_add; [exact Hs|apply pass_or_fail_init]. }
    unfold absolute_ok.
    destruct (threshold_set a) as [a'|]; cbn [fst snd].
    + split; [apply Hiff|]. split; [apply Hpf, pass_or_fail_init|]. split.
      * intros Ey Ex. split; [auto|]. rewrite (Hzero Ey Ex). reflexivity.
      * intros Ey Ex. split; [auto|]. rewrite (Hinf Ey Ex), infinity_ltb.
        destruct (abs (x - y) <? a')%float; reflexivity.
    + split; [|split; [apply (Hpf Pass); left; reflexivity|split]].
      * change Pass with (Status_init [true] None) at 1. rewrite Hiff. tauto.
      * intros Ey Ex. split; [auto|]. rewrite (Hzero Ey Ex). reflexivity.
      * intros Ey Ex. split; [auto|]. rewrite (Hinf Ey Ex), infinity_ltb.
        reflexivity.
Qed.

Lemma validate_relative_witness :
  status_of (validate some_format (mkTolerance None (Some 0.5%float))
                      (Num 1%float) (Num 0%float) "Energy") = Some Fail.
Proof.
  destruct (validate_relative some_format None 0.5%float 1%float 0%float
              "Energy" eq_refl)
    as (err & st & msg & _ & _ & _ & _ & Hv & _ & _ & _ & Hf).
  rewrite Hv. cbn. f_equal. apply Hf; reflexivity.
Defined.

(** C7 fails as stated: a relative threshold set to zero makes no check, so a
    zero benchmark with a non-zero test value passes; and with a negative
    threshold a zero benchmark with a zero test value fails the relative
    check. *)
Lemma validate_relative_counterexample :
  status_of (validate some_format (mkTolerance None (Some 0%float))
                      (Num 1%float) (Num 0%float) "Energy") = Some Pass /\
  status_of (validate some_format (mkTolerance None (Some (-1)%float))
                      (Num 0%float) (Num 0%float) "Energy") = Some Fail.
Proof. split; reflexivity. Qed.

(** ** Sorting *)

Lemma string_compare_OT (s1 s2 : string) :
  String.compare s1 s2 = OrdersEx.String_as_OT.compare s1 s2.
Proof.
  revert s2. induction s1 as [|c1 s1 IH]; intros [|c2 s2]; cbn; reflexivity.
Qed.

Lemma leb_lt_or_eq (s1 s2 : string) :
  (s1 <=? s2)%string = true <-> s1 = s2 \/ OrdersEx.String_as_OT.lt s1 s2.
Proof.
  pose proof OrdersEx.String_as_OT.lt_strorder as SO.
  unfold String.leb. rewrite string_compare_OT.
  destruct (OrdersEx.String_as_OT.compare_spec s1 s2) as [H|H|H];
    split; auto; try discriminate.
  intros [->|H'].
  - exfalso. exact (StrictOrder_Irreflexive _ H).
  - exfalso. exact (StrictOrder_Irreflexive _ (StrictOrder_Transitive _ _ _ H H')).
Qed.

Lemma leb_trans (s1 s2 s3 : string) :
  (s1 <=? s2)%string = true -> (s2 <=? s3)%string = true ->
  (s1 <=? s3)%string = true.
Proof.
  pose proof OrdersEx.String_as_OT.lt_strorder as SO.
  rewrite !leb_lt_or_eq. intros [->|H12] [->|H23]; auto.
  right. exact (StrictOrder_Transitive _ _ _ H12 H23).
Qed.

Lemma leb_false_leb (s1 s2 : string) :
  (s1 <=? s2)%string = false -> (s2 <=? s1)%string = true.
Proof.
  intros H. destruct (String.leb_total s1 s2) as [H'|H']; congruence.
Qed.

Lemma insert_insert (x y : string) (l : list string) :
  insert x (insert y l) = insert y (insert x l).
Proof.
  induction l as [|z l IH]; cbn.
  - destruct (x <=? y)%string eqn:Exy, (y <=? x)%string eqn:Eyx; try reflexivity.
    + rewrite (String.leb_antisym _ _ Exy Eyx). reflexivity.
    + apply leb_false_leb in Exy. congruence.
  - destruct (y <=? z)%string eqn:Eyz, (x <=? z)%string eqn:Exz; cbn.
    + destruct (x <=? y)%string eqn:Exy, (y <=? x)%string eqn:Eyx;
        rewrite ?Exz, ?Eyz; try reflexivity.
      * rewrite (String.leb_antisym _ _ Exy Eyx). reflexivity.
      * apply leb_false_leb in Exy. congruence.
    + rewrite Eyz.
      destruct (x <=? y)%string eqn:Exy; [|rewrite Exz; reflexivity].
      rewrite (leb_trans _ _ _ Exy Eyz) in Exz. discriminate.
    + rewrite Exz.
      destruct (y <=? x)%string eqn:Eyx; [|rewrite Eyz; reflexivity].
      rewrite (leb_trans _ _ _ Eyx Exz) in Eyz. discriminate.
    + rewrite Exz, Eyz, IH. reflexivity.
Qed.

Lemma insert_perm (x : string) (l : list string) :
  Permutation (insert x l) (x :: l).
Proof.
  induction l as [|y l IH]; cbn; [reflexivity|].
  destruct (x <=? y)%string; [reflexivity|].
  rewrite IH. apply perm_swap.
Qed.

Lemma sorted_perm (l : list string) : Permutation (sorted l) l.
Proof.
  induction l as [|x l IH]; cbn; [reflexivity|].
  rewrite insert_perm, IH. reflexivity.
Qed.

Lemma sorted_of_perm (l l' : list string) :
  Permutation l l' -> sorted l = sorted l'.
Proof.
  induction 1 as [|x l l' _ IH|x y l|l l' l'' _ IH1 _ IH2]; cbn.
  - reflexivity.
  - rewrite IH. reflexivity.
  - apply insert_insert.
  - congruence.
Qed.

(** Two sorted lists of keys are equal iff the keys are the same up to
    their order. *)
Lemma sorted_eq_iff (l l' : list string) :
  sorted l = sorted l' <-> Permutation l l'.
Proof.
  split; [|apply sorted_of_perm].
  intros H. rewrite <- (sorted_perm l), <- (sorted_perm l'), H. reflexivity.
Qed.

Lemma insert_key_fst {V : Type} (kv : string * V) (l : list (string * V)) :
  map fst (insert_key kv l) = insert (fst kv) (map fst l).
Proof.
  induction l as [|kv' l IH]; cbn; [reflexivity|].
  destruct (fst kv <=? fst kv')%string; cbn; [reflexivity|].
  rewrite IH. reflexivity.
Qed.

Lemma sorted_items_keys {V : Type} (d : dict V) :
  keys (sorted_items d) = sorted (keys d).
Proof.
  unfold keys. induction d as [|kv d IH]; cbn; [reflexivity|].
  rewrite insert_key_fst, IH. reflexivity.
Qed.

Lemma insert_key_perm {V : Type} (kv : string * V) (l : list (string * V)) :
  Permutation (insert_key kv l) (kv :: l).
Proof.
  induction l as [|kv' l IH]; cbn; [reflexivity|].
  destruct (fst kv <=? fst kv')%string; [reflexivity|].
  rewrite IH. apply perm_swap.
Qed.

Lemma sorted_items_perm {V : Type} (d : dict V) : Permutation (sorted_items d) d.
Proof.
  induction d as [|kv d IH]; cbn; [reflexivity|].
  rewrite insert_key_perm, IH. reflexivity.
Qed.

Lemma insert_key_map {V W : Type} (f : V -> W) (kv : string * V)
    (l : list (string * V)) :
  map (fun p => (fst p, f (snd p))) (insert_key kv l)
  = insert_key (fst kv, f (snd kv)) (map (fun p => (fst p, f (snd p))) l).
Proof.
  induction l as [|kv' l IH]; cbn; [reflexivity|].
  destruct (fst kv <=? fst kv')%string; cbn; [reflexivity|].
  rewrite IH. reflexivity.
Qed.

Lemma sorted_items_map {V W : Type} (f : V -> W) (d : dict V) :
  map (fun p => (fst p, f (snd p))) (sorted_items d)
  = sorted_items (map (fun p => (fst p, f (snd p))) d).
Proof.
  induction d as [|kv d IH]; cbn; [reflexivity|].
  rewrite insert_key_map, IH. reflexivity.
Qed.

Lemma list_eqb_eq {A : Type} (eqb : A -> A -> bool) :
  (forall x y, eqb x y = true <-> x = y) ->
  forall l1 l2, list_eqb eqb l1 l2 = true <-> l1 = l2.
Proof.
  intros Heq. induction l1 as [|x l1 IH]; intros [|y l2]; cbn;
    try (split; [discriminate|congruence]); [tauto|].
  rewrite andb_true_iff, Heq, IH. split; [intros [-> ->]; reflexivity|].
  intros [= -> ->]. auto.
Qed.

(** ** Dictionaries *)

Lemma dict_get_keys {V : Type} (d : dict V) (k : string) :
  In k (keys d) <-> exists v, dict_get d k = Some v.
Proof.
  unfold keys. induction d as [|[k' v'] d IH]; cbn.
  - split; [tauto|]. intros [v H]. discriminate.
  - destruct (String.eqb_spec k k') as [->|Hne].
    + split; [eauto|auto].
    + rewrite <- IH. split; [intros [H|H]; [congruence|exact H]|auto].
Qed.

Lemma dict_get_In {V : Type} (d : dict V) (k : string) (v : V) :
  dict_wf d -> (dict_get d k = Some v <-> In (k, v) d).
Proof.
  unfold dict_wf, keys. induction d as [|[k' v'] d IH]; cbn; intros Hwf.
  - split; [discriminate|tauto].
  - inversion Hwf as [|? ? Hnotin Hwf']; subst.
    destruct (String.eqb_spec k k') as [->|Hne].
    + split; [intros [= ->]; auto|].
      intros [[= ->]|Hin]; [reflexivity|].
      exfalso. apply Hnotin. apply (in_map fst) in Hin. exact Hin.
    + rewrite (IH Hwf'). split; [auto|].
      intros [[= -> ->]|Hin]; [congruence|exact Hin].
Qed.

Lemma aligned_values {V : Type} (f : V -> nat) (l1 l2 : list (string * V)) :
  map fst l1 = map fst l2 -> NoDup (map fst l1) ->
  (map (fun kv => f (snd kv)) l1 = map (fun kv => f (snd kv)) l2 <->
   forall k v1 v2, In (k, v1) l1 -> In (k, v2) l2 -> f v1 = f v2).
Proof.
  revert l2. induction l1 as [|[k1 v1] l1 IH]; intros [|[k2 v2] l2]; cbn;
    try discriminate.
  - intros _ _. split; [tauto|reflexivity].
  - intros [= <- Hk] Hnd. inversion Hnd as [|? ? Hnotin Hnd']; subst.
    specialize (IH l2 Hk Hnd'). split.
    + intros [= Hf Hrest] k w1 w2 [E1|H1] [E2|H2].
      * congruence.
      * exfalso. apply Hnotin. rewrite Hk. apply (in_map fst) in H2.
        injection E1 as -> _. exact H2.
      * exfalso. apply Hnotin. apply (in_map fst) in H1.
        injection E2 as -> _. exact H1.
      * apply (proj1 IH Hrest k); assumption.
    + intros H. f_equal.
      * apply (H k1); left; reflexivity.
      * apply IH. intros k w1 w2 H1 H2. apply (H k); right; assumption.
Qed.

(** ** The shape check of compare_data *)

Lemma different_shapes_shape (b t b' t' : DataSet) :
  shape b' = shape b -> shape t' = shape t ->
  different_shapes b' t' = different_shapes b t.
Proof.
  assert (Hk : forall d : DataSet, keys d = map fst (shape d)).
  { intros d. unfold keys, shape. rewrite map_map. reflexivity. }
  assert (Hn : forall d : DataSet, nitems d = map snd (sorted_items (shape d))).
  { intros d. unfold nitems, shape.
    rewrite <- (sorted_items_map (@List.length value)), map_map. reflexivity. }
  intros Hb Ht. unfold different_shapes. rewrite !Hk, !Hn, Hb, Ht. reflexivity.
Qed.

Lemma different_shapes_false (b t : DataSet) :
  dict_wf b -> dict_wf t ->
  (different_shapes b t = false <-> same_fields b t /\ same_lengths b t).
Proof.
  intros Hb Ht. unfold different_shapes.
  rewrite orb_false_iff, !negb_false_iff.
  rewrite (list_eqb_eq String.eqb String.eqb_eq), (list_eqb_eq Nat.eqb Nat.eqb_eq).
  rewrite sorted_eq_iff.
  assert (Hal : Permutation (keys b) (keys t) ->
                (nitems b = nitems t <-> same_lengths b t)).
  { intros Hp. unfold nitems.
    rewrite (aligned_values (@List.length value)).
    - unfold same_lengths. split; intros H k vb vt H1 H2.
      + apply (H k).
        * rewrite (sorted_items_perm b). apply dict_get_In; assumption.
        * rewrite (sorted_items_perm t). apply dict_get_In; assumption.
      + apply (H k).
        * apply dict_get_In; [assumption|]. rewrite <- (sorted_items_perm b). exact H1.
        * apply dict_get_In; [assumption|]. rewrite <- (sorted_items_perm t). exact H2.
    - change (keys (sorted_items b) = keys (sorted_items t)).
      rewrite !sorted_items_keys. apply sorted_of_perm, Hp.
    - change (NoDup (keys (sorted_items b))). rewrite sorted_items_keys.
      apply (Permutation_NoDup (l := keys b)); [|exact Hb].
      symmetry. apply sorted_perm. }
  split.
  - intros [Hp Hn]. split; [|apply Hal; assumption].
    intros k. split; apply Permutation_in; [exact Hp|symmetry; exact Hp].
  - intros [Hf Hl].
    assert (Hp : Permutation (keys b) (keys t))
      by (apply NoDup_Permutation; assumption).
    split; [exact Hp|apply Hal; assumption].
Qed.

(** ** Loops *)

Lemma for_each_returns {A B : Type} (P : A -> Prop)
    (body : A -> B -> result A) (l : list B) :
  (forall a x, In x l -> P a -> exists a', body a x = Ok a' /\ P a') ->
  forall a, P a -> exists a', for_each body l a = Ok a' /\ P a'.
Proof.
  induction l as [|x l IH]; cbn; intros Hbody a Ha; [eauto|].
  destruct (Hbody a x (or_introl eq_refl) Ha) as (a1 & -> & Ha1). cbn.
  apply IH; [|exact Ha1]. intros a2 y Hy. apply Hbody. right. exact Hy.
Qed.

Lemma for_each_invariant {A B : Type} (P : A -> Prop)
    (body : A -> B -> result A) (l : list B) :
  (forall a x a', body a x = Ok a' -> P a -> P a') ->
  forall a a', for_each body l a = Ok a' -> P a -> P a'.
Proof.
  intros Hbody. induction l as [|x l IH]; cbn; intros a a' H Ha.
  - injection H as <-. exact Ha.
  - destruct (body a x) as [a1|e] eqn:E; cbn in H; [|discriminate].
    apply (IH a1 a' H). apply (Hbody a x a1 E Ha).
Qed.

(** ** compare_data *)

Section CompareFacts.

Variable format_2e : float -> string.

Lemma compare_index_status (tol : Tolerance) (benchmark test : DataSet)
    (key : string) (acc acc' : Status * list string) (ind : nat) :
  compare_index format_2e tol benchmark test key acc ind = Ok acc' ->
  pass_or_fail (fst acc) -> pass_or_fail (fst acc').
Proof.
  unfold compare_index. intros H Hacc.
  destruct (getitem test key) as [tvals|]; cbn in H; [|discriminate].
  destruct (index tvals ind) as [tv|]; cbn in H; [|discriminate].
  destruct (getitem benchmark key) as [bvals|]; cbn in H; [|discriminate].
  destruct (index bvals ind) as [bv|]; cbn in H; [|discriminate].
  destruct (validate_returns format_2e tol tv bv key) as (st & msg & Hv & Hst).
  rewrite Hv in H. cbn in H. injection H as <-. cbn [fst].
  apply pass_or_fail_add; assumption.
Qed.

Lemma compare_key_status (default_tolerance : Tolerance)
    (tolerances : dict Tolerance) (benchmark test : DataSet)
    (acc acc' : Status * list string) (key : string) :
  compare_key format_2e default_tolerance tolerances benchmark test acc key
    = Ok acc' ->
  pass_or_fail (fst acc) -> pass_or_fail (fst acc').
Proof.
  unfold compare_key. intros H.
  destruct (getitem benchmark key) as [bvals|]; cbn in H; [|discriminate].
  revert H.
  apply (for_each_invariant (fun a => pass_or_fail (fst a))).
  intros a x a'. apply compare_index_status.
Qed.

Lemma compare_shapes_and_values_status (benchmark test : DataSet)
    (default_tolerance : Tolerance) (tolerances : dict Tolerance)
    (comparable : bool) (st : Status) (msg : string) :
  compare_shapes_and_values format_2e benchmark test default_tolerance
    tolerances = Ok (comparable, st, msg) ->
  pass_or_fail st.
Proof.
  unfold compare_shapes_and_values.
  destruct (different_shapes benchmark test).
  - intros [= _ <- _]. right. reflexivity.
  - destruct (for_each _ _ _) as [r|] eqn:E; cbn; [|discriminate].
    intros [= _ <- _].
    apply (for_each_invariant (fun a => pass_or_fail (fst a)) _ _
             (fun a x a' =>
                compare_key_status default_tolerance tolerances benchmark
                  test a a' x)
             _ _ E).
    left. reflexivity.
Qed.

(** Once the shapes agree, the comparison loop returns. *)
Lemma compare_loop_returns (default_tolerance : Tolerance)
    (tolerances : dict Tolerance) (benchmark test : DataSet) :
  same_fields benchmark test -> same_lengths benchmark test ->
  exists r,
    for_each (compare_key format_2e default_tolerance tolerances
                benchmark test)
             (keys benchmark) (Status_init [true] None, []) = Ok r.
Proof.
  intros Hf Hl.
  destruct (for_each_returns (fun _ => True)
              (compare_key format_2e default_tolerance tolerances
                 benchmark test)
              (keys benchmark)) with (a := (Status_init [true] None, @nil string))
    as (r & Hr & _); [|exact I|eauto].
  intros acc key Hkey _. unfold compare_key.
  destruct (proj1 (dict_get_keys benchmark key) Hkey) as [bvals Hb].
  destruct (proj1 (dict_get_keys test key) (proj1 (Hf key) Hkey)) as [tvals Ht].
  unfold getitem at 1. rewrite Hb. cbn [bind].
  apply (for_each_returns (fun _ => True)); [|exact I].
  intros acc' ind Hind _. apply in_seq in Hind.
  unfold compare_index, getitem, index. rewrite Ht, Hb. cbn [bind].
  destruct (nth_error tvals ind) as [tv|] eqn:Et;
    [|apply nth_error_None in Et; rewrite <- (Hl key bvals tvals Hb Ht) in Et; lia].
  destruct (nth_error bvals ind) as [bv|] eqn:Eb;
    [|apply nth_error_None in Eb; lia].
  cbn [bind].
  destruct (validate_returns format_2e (if contains tolerances key
             then match dict_get tolerances key with
                  | Some t => t
                  | None => default_tolerance
                  end
             else default_tolerance) tv bv key) as (st & msg & -> & _).
  cbn. eauto.
Qed.

End CompareFacts.

(** C1: [compare_data] (no field being ignored) returns, and its first
    component is true iff the two DataSets have the same field names and
    every field has values of the same number in both; if not, the result is
    [(False, Fail, "Different sets of data ...")], the same for all DataSets
    with these field names and these numbers of values. *)
Theorem compare_data_comparable :
  forall (format_2e : float -> string) (benchmark test : DataSet)
         (default_tolerance : Tolerance) (tolerances : dict Tolerance)
         (ignore_fields : option (list string)),
    dict_wf benchmark -> dict_wf test ->
    ignore_fields = None \/ ignore_fields = Some [] ->
    exists comparable st msg,
      compare_data format_2e benchmark test default_tolerance tolerances
        ignore_fields = Ok (comparable, st, msg) /\
      (comparable = true <->
       same_fields benchmark test /\ same_lengths benchmark test) /\
      (comparable = false ->
       st = Fail /\ msg = different_sets /\
       forall benchmark' test' default_tolerance' tolerances',
         shape benchmark' = shape benchmark -> shape test' = shape test ->
         compare_data format_2e benchmark' test' default_tolerance'
           tolerances' ignore_fields = Ok (false, Fail, different_sets)).
Proof.
  intros fmt b t dt tols ign Hb Ht Hign.
  assert (Hc : forall b' t' dt' tols',
             compare_data fmt b' t' dt' tols' ign
             = compare_shapes_and_values fmt b' t' dt' tols')
    by (intros; destruct Hign as [-> | ->]; reflexivity).
  rewrite Hc. unfold compare_shapes_and_values.
  pose proof (different_shapes_false b t Hb Ht) as Hshape.
  destruct (different_shapes b t) eqn:E.
  - exists false, Fail, different_sets. split; [reflexivity|]. split.
    + split; [discriminate|]. intros H. apply Hshape in H. discriminate.
    + intros _. split; [reflexivity|]. split; [reflexivity|].
      intros b' t' dt' tols' Hb' Ht'. rewrite Hc.
      unfold compare_shapes_and_values.
      rewrite (different_shapes_shape b t b' t' Hb' Ht'), E. reflexivity.
  - destruct (proj1 Hshape eq_refl) as [Hf Hl].
    destruct (compare_loop_returns fmt dt tols b t Hf Hl) as [r ->]. cbn.
    do 3 eexists. split; [reflexivity|]. split; [|discriminate].
    split; [auto|reflexivity].
Qed.

(** C9: a status returned by [validate] or by [compare_data] is Pass or
    Fail, never Warning. *)
Theorem status_never_warning :
  forall (format_2e : float -> string),
    (forall tol test_val benchmark_val key st msg,
        validate format_2e tol test_val benchmark_val key = Ok (st, msg) ->
        st <> Warning /\ (st = Pass \/ st = Fail)) /\
    (forall benchmark test default_tolerance tolerances ignore_fields
            comparable st msg,
        compare_data format_2e benchmark test default_tolerance tolerances
          ignore_fields = Ok (comparable, st, msg) ->
        st <> Warning /\ (st = Pass \/ st = Fail)).
Proof.
  assert (Hw : forall st, pass_or_fail st -> st <> Warning /\ (st = Pass \/ st = Fail)).
  { intros st H. split; [|exact H]. destruct H as [-> | ->]; discriminate. }
  intros fmt. split.
  - intros tol t b key st msg H. apply Hw.
    destruct (validate_returns fmt tol t b key) as (st' & msg' & Hv & Hpf).
    rewrite Hv in H. injection H as <- _. exact Hpf.
  - intros b t dt tols ign c st msg H. apply Hw. unfold compare_data in H.
    destruct (match ign with
              | Some (field :: rest) => pop_ignored (field :: rest) (b, t)
              | _ => Ok (b, t)
              end) as [bt|]; cbn in H; [|discriminate].
    apply (compare_shapes_and_values_status fmt _ _ _ _ _ _ _ H).
Qed.

Lemma compare_data_comparable_witness :
  let benchmark : DataSet :=
    [("a", [Num 1%float; Num 2%float]); ("b", [Num 3%float])] in
  let test : DataSet :=
    [("b", [Num 3%float]); ("a", [Num 1%float; Num 2.5%float])] in
  dict_wf benchmark /\ dict_wf test /\
  exists comparable st msg,
    compare_data some_format benchmark test
      (mkTolerance (Some 0.25%float) None) [] None = Ok (comparable, st, msg) /\
    (comparable = true <->
     same_fields benchmark test /\ same_lengths benchmark test).
Proof.
  intros benchmark test.
  assert (Hb : dict_wf benchmark)
    by (repeat constructor; cbn; intuition discriminate).
  assert (Ht : dict_wf test)
    by (repeat constructor; cbn; intuition discriminate).
  split; [exact Hb|]. split; [exact Ht|].
  destruct (compare_data_comparable some_format benchmark test
              (mkTolerance (Some 0.25%float) None) [] None Hb Ht
              (or_introl eq_refl))
    as (comparable & st & msg & H & Hiff & _).
  exists comparable, st, msg. split; assumption.
Defined.

Lemma status_never_warning_witness :
  (validate some_format (mkTolerance (Some 0.5%float) None)
            (Num 1.25%float) (Num 1%float) "a"
   = Ok (Pass, "a: values are within tolerance.") /\
   Pass <> Warning /\ (Pass = Pass \/ Pass = Fail)) /\
  (compare_data some_format
     [("a", [Num 1%float; Num 2%float])] [("a", [Num 1%float; Num 2.5%float])]
     (mkTolerance (Some 0.25%float) None) [] None
   = Ok (true, Fail, "a: absolute error ?.??e+?? greater than ?.??e+??.") /\
   Fail <> Warning /\ (Fail = Pass \/ Fail = Fail)).
Proof.
  destruct (status_never_warning some_format) as [Hv Hc].
  split; (split; [reflexivity|]).
  - apply (Hv (mkTolerance (Some 0.5%float) None) (Num 1.25%float) (Num 1%float)
              "a" Pass "a: values are within tolerance.").
    reflexivity.
  - apply (Hc [("a", [Num 1%float; Num 2%float])]
              [("a", [Num 1%float; Num 2.5%float])]
              (mkTolerance (Some 0.25%float) None) [] None true Fail
              "a: absolute error ?.??e+?? greater than ?.??e+??.").
    reflexivity.
Defined.

(** Whatever the DataSets, a non-empty [ignore_fields] makes [compare_data]
    raise at the first [pop]. *)
Lemma compare_data_ignore_raises (format_2e : float -> string)
    (benchmark test : DataSet) (default_tolerance : Tolerance)
    (tolerances : dict Tolerance) (field : string) (rest : list string) :
  compare_data format_2e benchmark test default_tolerance tolerances
    (Some (field :: rest))
  = Raise (match benchmark with [] => KeyError | _ :: _ => TypeError end).
Proof. destruct benchmark; reflexivity. Qed.

(** C3: the code does not do what the specification says: with "b" to be
    ignored, [compare_data] raises [TypeError] (the key it pops is the list
    [["b"]]) instead of removing the field and comparing the rest. *)
Theorem compare_data_ignore_fields_raises :
  compare_data some_format
    [("a", [Num 1%float]); ("b", [Num 2%float])]
    [("a", [Num 1%float]); ("b", [Num 2.5%float])]
    (mkTolerance (Some 0.25%float) None) [] (Some ["b"])
  = Raise TypeError.
Proof. reflexivity. Qed.

(** ** Extraction *)

(** C6: the five-row table of the docstring gives a = (1, 4, 7),
    b = (2, 5, 8), c = (3, 6), d = (9,), e = (6,).  The row "a b d e", which
    has no number, starts a new header: after it d and e are registered with
    no value yet, and the values of the last row go onto the sequences that
    a and b already have. *)
Theorem dict_table_string_example :
  map split (splitlines table_text)
  = [["a"; "b"; "c"]; ["1"; "2"; "3"]; ["4"; "5"; "6"];
     ["a"; "b"; "d"; "e"]; ["7"; "8"; "9"; "6"]] /\
  dict_table_string table_text
  = Ok [("a", [Num 1%float; Num 4%float; Num 7%float]);
        ("b", [Num 2%float; Num 5%float; Num 8%float]);
        ("c", [Num 3%float; Num 6%float]);
        ("d", [Num 9%float]);
        ("e", [Num 6%float])] /\
  dict_table_string
    ("a  b  c" ++ newline ++ "1  2  3" ++ newline ++ "4  5  6" ++ newline
     ++ "a  b  d  e")
  = Ok [("a", [Num 1%float; Num 4%float]);
        ("b", [Num 2%float; Num 5%float]);
        ("c", [Num 3%float; Num 6%float]);
        ("d", []);
        ("e", [])] /\
  dict_table_string "a  b  c" = Ok [("a", []); ("b", []); ("c", [])].
Proof. repeat split; vm_compute; reflexivity. Qed.


Lemma last_item_last {A : Type} (l : list A) (d : A) :
  l <> [] -> last_item l = Ok (last l d).
Proof.
  intros Hl. destruct (exists_last Hl) as (l' & x & ->).
  unfold last_item. rewrite rev_app_distr, last_last. reflexivity.
Qed.

Lemma last_char_nonempty (s : string) :
  nonempty s = true -> exists c, last_char s = Ok c.
Proof.
  induction s as [|c s IH]; cbn; [discriminate|]. intros _.
  destruct s as [|c' s]; [eauto|]. apply IH. reflexivity.
Qed.

Lemma append_nonempty (s t : string) :
  nonempty s = true -> nonempty (s ++ t) = true.
Proof. destruct s; [discriminate|reflexivity]. Qed.

Lemma concat_nonempty (sep : string) (l : list string) :
  l <> [] -> Forall (fun w => nonempty w = true) l ->
  nonempty (String.concat sep l) = true.
Proof.
  intros Hl Hall. destruct Hall as [|w [|w' ws] Hw Hws]; [congruence|exact Hw|].
  cbn [String.concat]. apply append_nonempty, Hw.
Qed.

Lemma split_from_nonempty (s word : string) :
  Forall (fun w => nonempty w = true) (split_from s word).
Proof.
  revert word. induction s as [|c s IH]; intros word; cbn.
  - destruct (nonempty word) eqn:E; repeat constructor. exact E.
  - destruct (isspace c); [|apply IH].
    destruct (nonempty word) eqn:E; [constructor; [exact E|]|]; apply IH.
Qed.

Lemma split_nonempty (s : string) :
  Forall (fun w => nonempty w = true) (split s).
Proof. apply split_from_nonempty. Qed.

Lemma Forall_tl {A : Type} (P : A -> Prop) (l : list A) :
  Forall P l -> Forall P (tl l).
Proof. intros [|x l' _ H]; [constructor|exact H]. Qed.

Lemma removelast_incl {A : Type} (l : list A) : incl (removelast l) l.
Proof.
  induction l as [|x l IH]; [intros y []|].
  cbn [removelast]. destruct l as [|x' l']; [intros y []|].
  intros y [<-|Hy]; [left; reflexivity|right; apply IH, Hy].
Qed.

Local Set Warnings "-inexact-float".




(** ** The extractors build dictionaries with distinct keys *)

Lemma keys_setitem {V : Type} (d : dict V) (k : string) (v : V) :
  keys (setitem d k v) = if contains d k then keys d else keys d ++ [k].
Proof.
  unfold keys, contains. induction d as [|[k' v'] d IH]; cbn; [reflexivity|].
  destruct (String.eqb k k'); cbn; [reflexivity|].
  rewrite IH. destruct (dict_get d k); reflexivity.
Qed.

Lemma setitem_wf {V : Type} (d : dict V) (k : string) (v : V) :
  dict_wf d -> dict_wf (setitem d k v).
Proof.
  unfold dict_wf. intros Hd. rewrite keys_setitem.
  destruct (contains d k) eqn:E; [exact Hd|].
  apply NoDup_app; [exact Hd|repeat constructor; cbn; tauto|].
  intros x Hx [<-|[]]. apply dict_get_keys in Hx as [w Hw].
  unfold contains in E. rewrite Hw in E. discriminate.
Qed.

Lemma append_value_wf (data : DataSet) (key : string) (val : value) :
  dict_wf data -> dict_wf (append_value data key val).
Proof.
  intros Hd. unfold append_value.
  destruct (dict_get data key); apply setitem_wf, Hd.
Qed.

Lemma register_wf (head : list string) (data_dict : DataSet) :
  dict_wf data_dict -> dict_wf (register data_dict head).
Proof.
  unfold register. revert data_dict.
  induction head as [|val head IH]; cbn; intros d Hd; [exact Hd|].
  apply IH. destruct (contains d val); [exact Hd|apply setitem_wf, Hd].
Qed.

Lemma table_row_wf (st st' : DataSet * option (list string))
    (dline : list value) :
  table_row st dline = Ok st' -> dict_wf (fst st) -> dict_wf (fst st').
Proof.
  unfold table_row. destruct (compat_all (map is_not_float dline)).
  - intros [= <-] Hd. apply register_wf, Hd.
  - destruct (for_each _ _ _) as [d|] eqn:E; cbn; [|discriminate].
    intros [= <-] Hd. cbn [fst]. revert E Hd.
    apply (for_each_invariant (fun d : DataSet => dict_wf d)).
    intros d0 iv d1. unfold append_column.
    destruct (snd st) as [h|]; cbn; [|discriminate].
    destruct (index h (fst iv)) as [name|]; cbn; [|discriminate].
    destruct (getitem d0 name) as [vals|]; cbn; [|discriminate].
    intros [= <-] Hd0. apply setitem_wf, Hd0.
Qed.

Lemma dict_table_string_wf (table_string : string) (data_dict : DataSet) :
  dict_table_string table_string = Ok data_dict -> dict_wf data_dict.
Proof.
  unfold dict_table_string.
  destruct (for_each _ _ _) as [st|] eqn:E; cbn; [|discriminate].
  intros [= <-].
  apply (for_each_invariant
           (fun st : DataSet * option (list string) => dict_wf (fst st))
           table_row _ (fun a x a' => table_row_wf a a' x) _ _ E).
  constructor.
Qed.

Lemma tagged_line_wf (data data' : DataSet) (line : string) :
  tagged_line data line = Ok data' -> dict_wf data -> dict_wf data'.
Proof.
  unfold tagged_line.
  destruct (read_key (tl (split line)) [] None) as [key val].
  destruct (last_item key) as [w|]; cbn; [|discriminate].
  destruct (last_char _) as [c|]; cbn; [|discriminate].
  destruct val as [v|]; cbn; [|discriminate].
  intros [= <-] Hd. apply append_value_wf, Hd.
Qed.

Lemma extract_tagged_data_wf (fs : string -> option string)
    (data_tag filename : string) (data : DataSet) :
  extract_tagged_data fs data_tag filename = Ok data -> dict_wf data.
Proof.
  unfold extract_tagged_data. destruct (fs filename) as [content|]; [|discriminate].
  intros E.
  apply (for_each_invariant (fun d : DataSet => dict_wf d) _ _) with (2 := E);
    [|constructor].
  intros d line d'.
  destruct (data_tag_regex_match data_tag line); [apply tagged_line_wf|].
  intros [= <-] Hd. exact Hd.
Qed.

(** ** The model on small inputs *)

Example float_of_string_examples :
  map float_of_string
      ["1"; "-0"; ".5"; "5."; "2.5e3"; "+1.5E+2"; "1_000"; "inf"; "-Infinity";
       "1e400"; "1e-400"]
  = [Some 1%float; Some (-0)%float; Some 0.5%float; Some 5%float;
     Some 2500%float; Some 150%float; Some 1000%float; Some infinity;
     Some neg_infinity; Some infinity; Some 0%float] /\
  map float_of_string
      [""; "a"; "e"; "d"; "a.u."; "Energy:"; "="; "."; "1e"; "e5"; "1__0";
       "_1"; "0x10"; "--1"; "1,5"]
  = repeat None 15 /\
  option_map is_nan (float_of_string "NaN") = Some true.
Proof. repeat split; vm_compute; reflexivity. Qed.

Example split_examples :
  split "  Energy:      1.256743 a.u.  " = ["Energy:"; "1.256743"; "a.u."] /\
  split "" = [] /\
  splitlines ("a b" ++ newline ++ newline ++ "c" ++ newline)
  = ["a b"; ""; "c"] /\
  readlines ("a b" ++ newline ++ "c") = [("a b" ++ newline)%string; "c"] /\
  data_tag_regex_match "Energy:" "   Energy: 1" = true /\
  data_tag_regex_match "Energy:" "Total Energy: 1" = false.
Proof. repeat split; vm_compute; reflexivity. Qed.

Example extract_tagged_data_examples :
  extract_tagged_data (one_file "tag x = 1.5") "tag" "out"
  = Ok [("x", [Num 1.5%float])] /\
  extract_tagged_data
    (one_file ("tag x: 1" ++ newline ++ "other" ++ newline ++ " tag x: 2"))
    "tag" "out"
  = Ok [("x", [Num 1%float; Num 2%float])] /\
  extract_tagged_data (one_file "tag = = 1.5") "tag" "out"
  = Ok [("data", [Num 1.5%float])] /\
  extract_tagged_data (one_file "tag 1.5") "tag" "out" = Raise IndexError /\
  extract_tagged_data (one_file "tag x 1.5") "tag" "missing"
  = Raise (RunError "Cannot extract data: file missing does not exist.").
Proof. repeat split; vm_compute; reflexivity. Qed.

Example dict_table_string_examples :
  dict_table_string "1 2" = Raise NameError /\
  dict_table_string ("a" ++ newline ++ "1 2") = Raise IndexError /\
  dict_table_string ("a b" ++ newline ++ "1 x")
  = Ok [("a", [Num 1%float]); ("b", [Str "x"])].
Proof. repeat split; vm_compute; reflexivity. Qed.

(** * Further properties *)

(** ** Status *)

Lemma forallb_id_In (bools : list bool) :
  forallb (fun b => b) bools = true <-> (forall b, In b bools -> b = true).
Proof. rewrite forallb_forall. tauto. Qed.

Lemma forallb_id_false (bools : list bool) :
  forallb (fun b => b) bools = false <-> In false bools.
Proof.
  induction bools as [|[] l IH]; cbn.
  - split; [discriminate|tauto].
  - rewrite IH. intuition discriminate.
  - intuition.
Qed.

Lemma existsb_id_In (bools : list bool) :
  existsb (fun b => b) bools = true <-> In true bools.
Proof.
  rewrite existsb_exists. split; [intros (b & H & ->); exact H|eauto].
Qed.

(** X1: a status built from booleans is Pass iff all of them are true (so
    also for none at all), Warning iff some are true and some false, and Fail
    iff there is a false one and no true one. *)
Theorem Status_init_bools (bools : list bool) :
  (Status_init bools None = Pass <-> forall b, In b bools -> b = true) /\
  (Status_init bools None = Warning <-> In true bools /\ In false bools) /\
  (Status_init bools None = Fail <-> In false bools /\ ~ In true bools).
Proof.
  unfold Status_init, compat_all, compat_any.
  rewrite <- forallb_id_In, <- forallb_id_false, <- existsb_id_In.
  destruct (forallb (fun b => b) bools), (existsb (fun b => b) bools);
    repeat split; try discriminate; try tauto; try congruence;
    intros []; try discriminate; congruence.
Qed.

(** X2: adding up statuses gives Pass iff every one of them is Pass, and
    Fail iff one of them is Fail. *)
Theorem Status_add_fold (l : list Status) (s0 : Status) :
  (fold_left Status_add l s0 = Pass <->
   s0 = Pass /\ forall s, In s l -> s = Pass) /\
  (fold_left Status_add l s0 = Fail <-> s0 = Fail \/ In Fail l).
Proof.
  revert s0. induction l as [|s l IH]; intros s0; cbn.
  - intuition.
  - destruct (IH (Status_add s0 s)) as [IHp IHf]. rewrite IHp, IHf.
    clear IH IHp IHf. split; split.
    + intros [H0 Hl]. destruct s0, s; try discriminate.
      split; [reflexivity|]. intros s' [<-|H]; auto.
    + intros [-> Hl]. rewrite (Hl s (or_introl eq_refl)).
      split; [reflexivity|]. auto.
    + intros [H|H]; [|auto]. destruct s0, s; try discriminate; auto.
    + intros [->|[->|H]]; auto; left; [destruct s|destruct s0]; reflexivity.
Qed.

(** ** Floats: symmetry of the distance, transitivity of the order *)





Lemma SFltb_SFleb_trans (x y z : spec_float) :
  SFltb x y = true -> SFleb y z = true -> SFltb x z = true.
Proof.
  unfold SFltb, SFleb, SFcompare.
  destruct x as [[]|[]| |[] mx ex], y as [[]|[]| |[] my ey],
           z as [[]|[]| |[] mz ez];
    try discriminate; try reflexivity.
  all: change (Pos.compare_cont Eq) with Pos.compare.
  all: destruct (Z.compare_spec ex ey), (Z.compare_spec ey ez),
         (Z.compare_spec ex ez);
    try discriminate; try reflexivity; try lia; subst.
  all: destruct (Pos.compare_spec mx my), (Pos.compare_spec my mz),
         (Pos.compare_spec mx mz);
    cbn; try discriminate; try reflexivity; try lia.
Qed.

Lemma ltb_leb_trans (x y z : float) :
  (x <? y)%float = true -> (y <=? z)%float = true -> (x <? z)%float = true.
Proof. rewrite !ltb_spec, leb_spec. apply SFltb_SFleb_trans. Qed.

(** ** Tolerance.validate, further *)

Lemma validate_Num_pass (format_2e : float -> string) (tol : Tolerance)
    (x y : float) (key : string) :
  status_of (validate format_2e tol (Num x) (Num y) key) = Some Pass <->
  is_nan x || is_nan y = false /\
  absolute_ok (absolute tol) (x - y) = true /\
  relative_ok (relative tol) (x - y) y = true.
Proof.
  rewrite validate_Num. unfold absolute_ok, relative_ok, relative_error.
  destruct (is_nan x || is_nan y); cbn; [intuition discriminate|].
  destruct (threshold_set (absolute tol)) as [a|],
           (threshold_set (relative tol)) as [r|]; cbn -[Status_add Status_init];
    rewrite ?Status_of_bool;
    repeat match goal with |- context [(?u <? ?v)%float] =>
             destruct (u <? v)%float end;
    cbn; intuition discriminate.
Qed.

Lemma status_of_validate_Str (format_2e : float -> string) (tol : Tolerance)
    (s : string) (b : value) (key : string) :
  status_of (validate format_2e tol (Str s) b key)
  = Some (if py_ne (Str s) b then Fail else Pass).
Proof. rewrite validate_Str_l. destruct (py_ne (Str s) b); reflexivity. Qed.

(** X3: values that are not both numbers are compared for equality and the
    tolerance plays no part: two strings pass iff they are the same string,
    a number and a string never pass. *)
Theorem validate_strings :
  forall (format_2e : float -> string) (tol tol' : Tolerance) (s t : string)
         (x : float) (key : string),
    (status_of (validate format_2e tol (Str s) (Str t) key) = Some Pass <->
     s = t) /\
    (status_of (validate format_2e tol (Str s) (Str t) key) = Some Fail <->
     s <> t) /\
    status_of (validate format_2e tol (Str s) (Num x) key) = Some Fail /\
    status_of (validate format_2e tol (Num x) (Str s) key) = Some Fail /\
    validate format_2e tol (Str s) (Str t) key
    = validate format_2e tol' (Str s) (Str t) key /\
    validate format_2e tol (Str s) (Num x) key
    = validate format_2e tol' (Str s) (Num x) key /\
    validate format_2e tol (Num x) (Str s) key
    = validate format_2e tol' (Num x) (Str s) key.
Proof.
  intros fmt tol tol' s t x key.
  rewrite !status_of_validate_Str, !validate_Str_l, !validate_Str_r. cbn.
  destruct (String.eqb_spec s t) as [E|E]; cbn;
    destruct (is_nan x); repeat split; try reflexivity; try discriminate;
    try congruence; intros H; exfalso; apply H; assumption.
Qed.




Lemma looser_ok (t t' : option float) (err : float) :
  looser t t' = true ->
  match threshold_set t with Some a => (err <? a)%float | None => true end
  = true ->
  match threshold_set t' with Some a => (err <? a)%float | None => true end
  = true.
Proof.
  unfold looser. destruct (threshold_set t') as [a'|]; [|reflexivity].
  destruct (threshold_set t) as [a|]; [|discriminate].
  intros Hle Hlt. exact (ltb_leb_trans _ _ _ Hlt Hle).
Qed.

(** X5: values that pass under a tolerance pass under every looser one (each
    threshold dropped, or raised while it stays in force). *)
Theorem validate_looser :
  forall (format_2e : float -> string) (tol tol' : Tolerance)
         (test_val benchmark_val : value) (key : string),
    looser (absolute tol) (absolute tol') = true ->
    looser (relative tol) (relative tol') = true ->
    status_of (validate format_2e tol test_val benchmark_val key) = Some Pass ->
    status_of (validate format_2e tol' test_val benchmark_val key) = Some Pass.
Proof.
  intros fmt tol tol' tv bv key Ha Hr.
  destruct tv as [x|s].
  - destruct bv as [y|s].
    + rewrite !validate_Num_pass. intros (Hn & Habs & Hrel).
      split; [exact Hn|]. split.
      * exact (looser_ok _ _ _ Ha Habs).
      * exact (looser_ok _ _ _ Hr Hrel).
    + rewrite !validate_Str_r. destruct (is_nan x); discriminate.
  - rewrite !status_of_validate_Str. auto.
Qed.

Lemma validate_looser_witness :
  status_of (validate some_format (mkTolerance (Some 1%float) (Some 0.5%float))
                      (Num 10.5%float) (Num 10%float) "E") = Some Pass.
Proof.
  apply (validate_looser some_format
           (mkTolerance (Some 0.75%float) (Some 0.25%float))
           (mkTolerance (Some 1%float) (Some 0.5%float))
           (Num 10.5%float) (Num 10%float) "E"); reflexivity.
Defined.

(** A plain value passes against itself under a sound tolerance. *)
Lemma validate_self (format_2e : float -> string) (tol : Tolerance)
    (v : value) (key : string) :
  plain_value v = true -> sound_tolerance tol = true ->
  validate format_2e tol v v key
  = Ok (Pass, with_key key "values are within tolerance.").
Proof.
  unfold sound_tolerance. rewrite andb_true_iff. intros Hv [Ha Hr].
  destruct v as [x|s].
  - cbn in Hv. rewrite validate_Num.
    assert (Hn : is_nan x = false).
    { unfold is_finite in Hv. destruct (is_nan x); [discriminate|reflexivity]. }
    rewrite Hn, (sub_diag_finite x Hv). cbn [orb]. cbv zeta.
    change (abs zero) with zero. change (zero =? 0)%float with true.
    destruct (threshold_set (absolute tol)) as [a|] eqn:Ea;
      [change (zero <? a)%float with (0 <? a)%float;
       rewrite (threshold_set_positive _ _ Ha Ea)|];
      (destruct (threshold_set (relative tol)) as [r|] eqn:Er; [|reflexivity]);
      (replace (if (x =? 0)%float then zero else abs (zero / x)) with zero
        by (destruct (x =? 0)%float eqn:E0;
            [reflexivity|symmetry; apply abs_zero_div; assumption]));
      change (zero <? r)%float with (0 <? r)%float;
      rewrite (threshold_set_positive _ _ Hr Er); reflexivity.
  - rewrite validate_Str_l. cbn. rewrite String.eqb_refl. reflexivity.
Qed.

(** ** Loops, further *)

Lemma for_each_ext {A B : Type} (body body' : A -> B -> result A) (l : list B) :
  (forall a x, In x l -> body a x = body' a x) ->
  forall a, for_each body l a = for_each body' l a.
Proof.
  induction l as [|x l IH]; cbn; intros H a; [reflexivity|].
  rewrite (H a x (or_introl eq_refl)).
  destruct (body' a x) as [a'|e]; cbn; [|reflexivity].
  apply IH. intros a0 y Hy. apply H. right. exact Hy.
Qed.

Lemma for_each_fixed {A B : Type} (body : A -> B -> result A) (l : list B)
    (a : A) :
  (forall x, In x l -> body a x = Ok a) -> for_each body l a = Ok a.
Proof.
  induction l as [|x l IH]; cbn; intros H; [reflexivity|].
  rewrite (H x (or_introl eq_refl)). cbn. apply IH. intros y Hy. apply H.
  right. exact Hy.
Qed.

Lemma for_each_all {A B : Type} (ok : A -> Prop) (good : B -> Prop)
    (body : A -> B -> result A) (l : list B) :
  (forall a x a', In x l -> body a x = Ok a' -> (ok a' <-> ok a /\ good x)) ->
  forall a a', for_each body l a = Ok a' ->
               (ok a' <-> ok a /\ forall x, In x l -> good x).
Proof.
  induction l as [|x l IH]; cbn; intros H a a' E.
  - injection E as <-. intuition.
  - destruct (body a x) as [a1|e] eqn:E1; cbn in E; [|discriminate].
    rewrite (IH (fun a0 y a0' Hy => H a0 y a0' (or_intror Hy)) a1 a' E).
    rewrite (H a x a1 (or_introl eq_refl) E1).
    split.
    + intros [[Ha Hx] Hl]. split; [exact Ha|]. intros y [<-|Hy]; auto.
    + intros [Ha Hl]. split; [split; [exact Ha|]|]; auto.
Qed.

(** ** compare_data, further *)

Lemma compare_key_tolerance_of (format_2e : float -> string)
    (default_tolerance : Tolerance) (tolerances : dict Tolerance)
    (benchmark test : DataSet) (acc : Status * list string) (key : string) :
  compare_key format_2e default_tolerance tolerances benchmark test acc key
  = (bvals <- getitem benchmark key ;;
     for_each (compare_index format_2e
                 (tolerance_of default_tolerance tolerances key)
                 benchmark test key)
              (seq 0 (List.length bvals)) acc).
Proof.
  unfold compare_key, tolerance_of, contains.
  destruct (dict_get tolerances key); reflexivity.
Qed.

(** What a turn of the inner loop does, once it returns. *)
Lemma compare_index_Ok (format_2e : float -> string) (tol : Tolerance)
    (benchmark test : DataSet) (key : string) (acc acc' : Status * list string)
    (ind : nat) :
  compare_index format_2e tol benchmark test key acc ind = Ok acc' ->
  exists tvals bvals tv bv st err,
    dict_get test key = Some tvals /\ dict_get benchmark key = Some bvals /\
    nth_error tvals ind = Some tv /\ nth_error bvals ind = Some bv /\
    validate format_2e tol tv bv key = Ok (st, err) /\
    acc' = (Status_add (fst acc) st,
            if negb (passed st) && nonempty err
            then snd acc ++ [err] else snd acc).
Proof.
  unfold compare_index, getitem, index. intros H.
  destruct (dict_get test key) as [tvals|] eqn:E1; cbn in H; [|discriminate].
  destruct (nth_error tvals ind) as [tv|] eqn:E2; cbn in H; [|discriminate].
  destruct (dict_get benchmark key) as [bvals|] eqn:E3; cbn in H;
    [|discriminate].
  destruct (nth_error bvals ind) as [bv|] eqn:E4; cbn in H; [|discriminate].
  destruct (validate format_2e tol tv bv key) as [[st err]|] eqn:E5; cbn in H;
    [|discriminate].
  injection H as <-. exists tvals, bvals, tv, bv, st, err.
  repeat split; assumption.
Qed.

Lemma different_shapes_refl (d : DataSet) : different_shapes d d = false.
Proof.
  unfold different_shapes.
  rewrite (proj2 (list_eqb_eq String.eqb String.eqb_eq _ _) eq_refl).
  rewrite (proj2 (list_eqb_eq Nat.eqb Nat.eqb_eq _ _) eq_refl). reflexivity.
Qed.

Lemma list_eqb_sym {A : Type} (eqb : A -> A -> bool) :
  (forall x y, eqb x y = eqb y x) ->
  forall l1 l2, list_eqb eqb l1 l2 = list_eqb eqb l2 l1.
Proof.
  intros H. induction l1 as [|x l1 IH]; intros [|y l2]; cbn; try reflexivity.
  rewrite H, IH. reflexivity.
Qed.

Lemma different_shapes_sym (b t : DataSet) :
  different_shapes b t = different_shapes t b.
Proof.
  unfold different_shapes.
  rewrite (list_eqb_sym String.eqb String.eqb_sym).
  rewrite (list_eqb_sym Nat.eqb Nat.eqb_sym (nitems b)). reflexivity.
Qed.

Lemma compare_data_no_ignore (format_2e : float -> string)
    (benchmark test : DataSet) (default_tolerance : Tolerance)
    (tolerances : dict Tolerance) (ignore_fields : option (list string))
    (r : bool * Status * string) :
  compare_data format_2e benchmark test default_tolerance tolerances
    ignore_fields = Ok r ->
  compare_shapes_and_values format_2e benchmark test default_tolerance
    tolerances = Ok r.
Proof.
  unfold compare_data. destruct ignore_fields as [[|field rest]|]; cbn;
    try (intros H; exact H).
  destruct benchmark; cbn; discriminate.
Qed.

(** X6: a DataSet compared with itself is comparable and passes with an
    empty message, when its values are finite numbers or strings and the
    thresholds are unset, zero or positive. *)
Theorem compare_data_same :
  forall (format_2e : float -> string) (data : DataSet)
         (default_tolerance : Tolerance) (tolerances : dict Tolerance),
    (forall key vals, dict_get data key = Some vals ->
                      forallb plain_value vals = true) ->
    sound_tolerance default_tolerance = true ->
    (forall key tol, dict_get tolerances key = Some tol ->
                     sound_tolerance tol = true) ->
    compare_data format_2e data data default_tolerance tolerances None
    = Ok (true, Pass, EmptyString).
Proof.
  intros fmt d dt tols Hvals Hdt Htols.
  unfold compare_data. cbn [bind fst snd]. unfold compare_shapes_and_values.
  rewrite different_shapes_refl.
  rewrite (for_each_fixed _ (keys d) (Status_init [true] None, [])); [reflexivity|].
  intros key Hkey. rewrite compare_key_tolerance_of.
  destruct (proj1 (dict_get_keys d key) Hkey) as [vals Hd].
  unfold getitem at 1. rewrite Hd. cbn [bind].
  apply for_each_fixed. intros ind Hind. apply in_seq in Hind.
  unfold compare_index, getitem, index. rewrite Hd. cbn [bind].
  destruct (nth_error vals ind) as [v|] eqn:Ev;
    [|apply nth_error_None in Ev; lia].
  cbn [bind]. rewrite validate_self; [reflexivity| |].
  - apply nth_error_In in Ev.
    exact (proj1 (forallb_forall _ _) (Hvals key vals Hd) v Ev).
  - unfold tolerance_of. destruct (dict_get tols key) as [tol|] eqn:Et;
      [exact (Htols key tol Et)|exact Hdt].
Qed.

Lemma compare_data_same_witness :
  compare_data some_format
    [("E", [Num 1.5%float; Num (-2)%float]); ("unit", [Str "Ha"])]
    [("E", [Num 1.5%float; Num (-2)%float]); ("unit", [Str "Ha"])]
    (mkTolerance (Some 0.5%float) None)
    [("E", mkTolerance None (Some 0.25%float))] None
  = Ok (true, Pass, EmptyString).
Proof.
  apply (compare_data_same some_format
           [("E", [Num 1.5%float; Num (-2)%float]); ("unit", [Str "Ha"])]
           (mkTolerance (Some 0.5%float) None)
           [("E", mkTolerance None (Some 0.25%float))]).
  - intros key vals. cbn.
    destruct (String.eqb key "E"); [intros [= <-]; reflexivity|].
    destruct (String.eqb key "unit"); [intros [= <-]; reflexivity|discriminate].
  - reflexivity.
  - intros key tol. cbn.
    destruct (String.eqb key "E"); [intros [= <-]; reflexivity|discriminate].
Defined.

(** X7: whether two DataSets are comparable does not depend on which one is
    the benchmark: [compare_data] answers "Different sets of data ..." for
    (benchmark, test) iff it does for (test, benchmark). *)
Theorem compare_data_comparable_symmetric :
  forall (format_2e : float -> string) (benchmark test : DataSet)
         (default_tolerance : Tolerance) (tolerances : dict Tolerance),
    compare_data format_2e benchmark test default_tolerance tolerances None
    = Ok (false, Fail, different_sets) <->
    compare_data format_2e test benchmark default_tolerance tolerances None
    = Ok (false, Fail, different_sets).
Proof.
  intros fmt b t dt tols. unfold compare_data. cbn [bind fst snd].
  unfold compare_shapes_and_values. rewrite (different_shapes_sym t b).
  destruct (different_shapes b t); [tauto|].
  split; intros H;
    match type of H with
    | bind ?r _ = _ => destruct r; cbn in H; discriminate
    end.
Qed.

Lemma Status_add_Pass (a b : Status) :
  Status_add a b = Pass <-> a = Pass /\ b = Pass.
Proof. destruct a, b; cbv; intuition discriminate. Qed.

Lemma compare_index_pass (format_2e : float -> string) (tol : Tolerance)
    (benchmark test : DataSet) (key : string) (acc acc' : Status * list string)
    (ind : nat) :
  compare_index format_2e tol benchmark test key acc ind = Ok acc' ->
  (fst acc' = Pass <->
   fst acc = Pass /\ place_passes format_2e tol benchmark test key ind).
Proof.
  intros Hi.
  destruct (compare_index_Ok _ _ _ _ _ _ _ _ Hi)
    as (tvals & bvals & tv & bv & s & err & Ht & Hb & Htv & Hbv & Hv & ->).
  cbn [fst]. rewrite Status_add_Pass. unfold place_passes.
  split; intros [Ha Hs]; (split; [exact Ha|]).
  - intros bvals' tvals' bv' tv' Hb' Ht' Hbv' Htv'.
    rewrite Hb in Hb'. injection Hb' as <-.
    rewrite Ht in Ht'. injection Ht' as <-.
    rewrite Hbv in Hbv'. injection Hbv' as <-.
    rewrite Htv in Htv'. injection Htv' as <-.
    rewrite Hv. cbn. congruence.
  - specialize (Hs bvals tvals bv tv Hb Ht Hbv Htv). rewrite Hv in Hs.
    cbn in Hs. congruence.
Qed.

Lemma compare_key_pass (format_2e : float -> string)
    (default_tolerance : Tolerance) (tolerances : dict Tolerance)
    (benchmark test : DataSet) (acc acc' : Status * list string)
    (key : string) :
  compare_key format_2e default_tolerance tolerances benchmark test acc key
    = Ok acc' ->
  (fst acc' = Pass <->
   fst acc = Pass /\
   forall ind,
     place_passes format_2e (tolerance_of default_tolerance tolerances key)
       benchmark test key ind).
Proof.
  rewrite compare_key_tolerance_of. unfold getitem.
  destruct (dict_get benchmark key) as [bvals0|] eqn:Eb; cbn [bind];
    [|discriminate].
  intros Hloop.
  rewrite (for_each_all
    (fun a : Status * list string => fst a = Pass)
    (place_passes format_2e (tolerance_of default_tolerance tolerances key)
       benchmark test key)
    _ _ (fun a x a' _ => compare_index_pass _ _ _ _ _ a a' x) _ _ Hloop).
  split; intros [Ha Hi]; (split; [exact Ha|]); [|auto].
  intros ind bvals tvals bv tv Hb Ht Hbv Htv.
  apply (Hi ind) with (bvals := bvals) (tvals := tvals); try assumption.
  rewrite Eb in Hb. injection Hb as <-.
  apply in_seq. split; [lia|]. cbn. apply nth_error_Some. congruence.
Qed.

(** X8: when the DataSets are comparable, the overall status is Pass iff
    every value of the test passes [validate] against the benchmark value at
    the same place, under the tolerance of its field (the override if there
    is one, the default if not). *)
Theorem compare_data_pass :
  forall (format_2e : float -> string) (benchmark test : DataSet)
         (default_tolerance : Tolerance) (tolerances : dict Tolerance)
         (ignore_fields : option (list string)) (st : Status) (msg : string),
    compare_data format_2e benchmark test default_tolerance tolerances
      ignore_fields = Ok (true, st, msg) ->
    (st = Pass <->
     pairs_pass format_2e default_tolerance tolerances benchmark test).
Proof.
  intros fmt b t dt tols ign st msg H.
  apply compare_data_no_ignore in H. unfold compare_shapes_and_values in H.
  destruct (different_shapes b t); [discriminate|].
  destruct (for_each _ _ _) as [r|] eqn:E; cbn in H; [|discriminate].
  injection H as <- _.
  rewrite (for_each_all
    (fun a : Status * list string => fst a = Pass)
    (fun key => forall ind,
       place_passes fmt (tolerance_of dt tols key) b t key ind)
    _ _ (fun a x a' _ => compare_key_pass _ _ _ _ _ a a' x) _ _ E).
  cbn [fst]. unfold pairs_pass, place_passes. split.
  - intros [_ Hk] key bvals tvals ind bv tv Hb Ht Hbv Htv.
    assert (Hkey : In key (keys b)) by (apply dict_get_keys; eauto).
    exact (Hk key Hkey ind bvals tvals bv tv Hb Ht Hbv Htv).
  - intros Hp. split; [reflexivity|]. intros key _ ind bvals tvals bv tv.
    apply Hp.
Qed.

Lemma compare_data_pass_witness :
  Pass = Pass <->
  pairs_pass some_format (mkTolerance (Some 0.5%float) None) []
    [("a", [Num 1%float; Num 2%float])] [("a", [Num 1%float; Num 2.25%float])].
Proof.
  apply (compare_data_pass some_format
           [("a", [Num 1%float; Num 2%float])]
           [("a", [Num 1%float; Num 2.25%float])]
           (mkTolerance (Some 0.5%float) None) [] None Pass EmptyString).
  reflexivity.
Defined.

Lemma nonempty_with_key (key msg : string) :
  nonempty msg = true -> nonempty (with_key key msg) = true.
Proof. destruct key; cbn; auto. Qed.

(** The message of [validate] is never empty. *)
Lemma validate_msg (format_2e : float -> string) (tol : Tolerance)
    (t b : value) (key : string) (st : Status) (msg : string) :
  validate format_2e tol t b key = Ok (st, msg) -> nonempty msg = true.
Proof.
  destruct t as [x|s].
  - destruct b as [y|s].
    + rewrite validate_Num.
      destruct (is_nan x || is_nan y);
        [intros [= _ <-]; apply nonempty_with_key; reflexivity|].
      cbv zeta.
      destruct (threshold_set (absolute tol)) as [a|],
               (threshold_set (relative tol)) as [r|];
        intros [= _ <-]; apply nonempty_with_key; cbn [fst snd];
        repeat match goal with |- context [(?u <? ?v)%float] =>
                 destruct (u <? v)%float end; reflexivity.
    + rewrite validate_Str_r.
      destruct (is_nan x); intros [= _ <-]; apply nonempty_with_key; reflexivity.
  - rewrite validate_Str_l.
    destruct (py_ne (Str s) b); intros [= _ <-]; apply nonempty_with_key;
      reflexivity.
Qed.

Lemma concat_empty (sep : string) (l : list string) :
  Forall (fun w => nonempty w = true) l ->
  (String.concat sep l = EmptyString <-> l = []).
Proof.
  intros Hl. split; [|intros ->; reflexivity].
  destruct l as [|w l]; [reflexivity|]. intros H. exfalso.
  assert (Hn : nonempty (String.concat sep (w :: l)) = true)
    by (apply concat_nonempty; [discriminate|exact Hl]).
  rewrite H in Hn. discriminate.
Qed.


Lemma compare_index_tidy (format_2e : float -> string) (tol : Tolerance)
    (benchmark test : DataSet) (key : string) (acc acc' : Status * list string)
    (ind : nat) :
  compare_index format_2e tol benchmark test key acc ind = Ok acc' ->
  tidy acc -> tidy acc'.
Proof.
  intros Hi (Hpf & Hiff & Hne).
  destruct (compare_index_Ok _ _ _ _ _ _ _ _ Hi)
    as (tvals & bvals & tv & bv & s & err & _ & _ & _ & _ & Hv & ->).
  pose proof (validate_msg _ _ _ _ _ _ _ Hv) as Herr.
  destruct (validate_returns format_2e tol tv bv key) as (s' & m' & Hv' & Hs).
  rewrite Hv in Hv'. injection Hv' as <- <-.
  unfold tidy. cbn [fst snd]. rewrite Herr, andb_true_r.
  destruct Hs as [-> | ->]; cbn [passed status negb Z.eqb _pass _fail].
  - replace (Status_add (fst acc) Pass) with (fst acc)
      by (destruct (fst acc); reflexivity).
    auto.
  - replace (Status_add (fst acc) Fail) with Fail
      by (destruct (fst acc); reflexivity).
    split; [right; reflexivity|]. split.
    + split; [discriminate|]. intros H. destruct (snd acc); discriminate.
    + apply Forall_app. split; [exact Hne|]. repeat constructor. exact Herr.
Qed.

Lemma compare_key_tidy (format_2e : float -> string)
    (default_tolerance : Tolerance) (tolerances : dict Tolerance)
    (benchmark test : DataSet) (acc acc' : Status * list string)
    (key : string) :
  compare_key format_2e default_tolerance tolerances benchmark test acc key
    = Ok acc' ->
  tidy acc -> tidy acc'.
Proof.
  rewrite compare_key_tolerance_of.
  destruct (getitem benchmark key) as [bvals|]; cbn [bind]; [|discriminate].
  apply (for_each_invariant tidy).
  intros a x a'. apply compare_index_tidy.
Qed.

(** X9: in every result of [compare_data] the status is Pass iff the
    message is empty. *)
Theorem compare_data_message :
  forall (format_2e : float -> string) (benchmark test : DataSet)
         (default_tolerance : Tolerance) (tolerances : dict Tolerance)
         (ignore_fields : option (list string)) (comparable : bool)
         (st : Status) (msg : string),
    compare_data format_2e benchmark test default_tolerance tolerances
      ignore_fields = Ok (comparable, st, msg) ->
    (st = Pass <-> msg = EmptyString).
Proof.
  intros fmt b t dt tols ign c st msg H.
  apply compare_data_no_ignore in H. unfold compare_shapes_and_values in H.
  destruct (different_shapes b t).
  - injection H as _ <- <-. split; discriminate.
  - destruct (for_each _ _ _) as [r|] eqn:E; cbn in H; [|discriminate].
    injection H as _ <- <-.
    assert (Ht : tidy r).
    { apply (for_each_invariant tidy _ _
               (fun a x a' => compare_key_tidy fmt dt tols b t a a' x) _ _ E).
      split; [left; reflexivity|]. split; [tauto|constructor]. }
    destruct Ht as (_ & Hiff & Hne). rewrite Hiff. symmetry.
    apply concat_empty, Hne.
Qed.

Lemma compare_data_message_witness :
  Fail = Pass <->
  "a: absolute error ?.??e+?? greater than ?.??e+??." = EmptyString.
Proof.
  apply (compare_data_message some_format
           [("a", [Num 1%float; Num 2%float])]
           [("a", [Num 1%float; Num 2.5%float])]
           (mkTolerance (Some 0.25%float) None) [] None true Fail
           "a: absolute error ?.??e+?? greater than ?.??e+??.").
  reflexivity.
Defined.

(** X10: [compare_data] looks up a tolerance only for the fields of the
    benchmark: overrides that agree on these fields give the same result,
    and the default tolerance plays no part when every field has an
    override. *)
Theorem compare_data_tolerances :
  forall (format_2e : float -> string) (benchmark test : DataSet)
         (default_tolerance default_tolerance' : Tolerance)
         (tolerances tolerances' : dict Tolerance)
         (ignore_fields : option (list string)),
    (forall key, In key (keys benchmark) ->
                 tolerance_of default_tolerance tolerances key
                 = tolerance_of default_tolerance' tolerances' key) ->
    compare_data format_2e benchmark test default_tolerance tolerances
      ignore_fields
    = compare_data format_2e benchmark test default_tolerance' tolerances'
        ignore_fields.
Proof.
  intros fmt b t dt dt' tols tols' ign H.
  unfold compare_data.
  destruct ign as [[|field rest]|]; cbn [bind fst snd];
    [|destruct b; reflexivity|];
    unfold compare_shapes_and_values;
    (destruct (different_shapes b t); [reflexivity|]);
    rewrite (for_each_ext (compare_key fmt dt tols b t)
               (compare_key fmt dt' tols' b t)); try reflexivity;
    intros a key Hkey; rewrite !compare_key_tolerance_of, (H key Hkey);
    reflexivity.
Qed.

Lemma compare_data_tolerances_witness :
  compare_data some_format
    [("a", [Num 1%float])] [("a", [Num 1.5%float])]
    (mkTolerance (Some 0.25%float) None)
    [("a", mkTolerance (Some 1%float) None)] None
  = compare_data some_format
      [("a", [Num 1%float])] [("a", [Num 1.5%float])]
      (mkTolerance None None)
      [("a", mkTolerance (Some 1%float) None);
       ("b", mkTolerance (Some 0.125%float) None)] None.
Proof.
  apply (compare_data_tolerances some_format
           [("a", [Num 1%float])] [("a", [Num 1.5%float])]).
  intros key [<-|[]]. reflexivity.
Defined.

(** ** The order of the fields *)

Lemma dict_get_perm {V : Type} (d d' : dict V) (k : string) :
  Permutation d d' -> dict_wf d -> dict_get d k = dict_get d' k.
Proof.
  intros Hp Hwf.
  assert (Hwf' : dict_wf d').
  { unfold dict_wf, keys in *.
    apply (Permutation_NoDup (l := map fst d)); [|exact Hwf].
    apply Permutation_map, Hp. }
  destruct (dict_get d k) as [v|] eqn:E.
  - symmetry. apply dict_get_In; [exact Hwf'|].
    apply (Permutation_in _ Hp). apply dict_get_In; assumption.
  - destruct (dict_get d' k) as [v'|] eqn:E'; [|reflexivity].
    apply dict_get_In in E'; [|exact Hwf'].
    apply (Permutation_in _ (Permutation_sym Hp)) in E'.
    apply dict_get_In in E'; [congruence|exact Hwf].
Qed.

Lemma aligned_eq {V : Type} (l1 l2 : list (string * V)) :
  map fst l1 = map fst l2 -> NoDup (map fst l1) ->
  (forall k v1 v2, In (k, v1) l1 -> In (k, v2) l2 -> v1 = v2) ->
  l1 = l2.
Proof.
  revert l2. induction l1 as [|[k1 v1] l1 IH]; intros [|[k2 v2] l2]; cbn;
    try discriminate; [reflexivity|].
  intros [= <- Hk] Hnd H. inversion Hnd as [|? ? Hnotin Hnd']; subst.
  f_equal.
  - f_equal. apply (H k1); left; reflexivity.
  - apply IH; [exact Hk|exact Hnd'|].
    intros k w1 w2 H1 H2. apply (H k); right; assumption.
Qed.

Lemma sorted_items_of_perm {V : Type} (d d' : dict V) :
  Permutation d d' -> dict_wf d -> sorted_items d = sorted_items d'.
Proof.
  intros Hp Hwf.
  assert (Hk : Permutation (keys d) (keys d'))
    by (apply Permutation_map, Hp).
  assert (Hwf' : dict_wf d')
    by (apply (Permutation_NoDup Hk), Hwf).
  apply aligned_eq.
  - change (keys (sorted_items d) = keys (sorted_items d')).
    rewrite !sorted_items_keys. apply sorted_of_perm, Hk.
  - change (NoDup (keys (sorted_items d))). rewrite sorted_items_keys.
    apply (Permutation_NoDup (l := keys d)); [|exact Hwf].
    symmetry. apply sorted_perm.
  - intros k v1 v2 H1 H2.
    rewrite (sorted_items_perm d) in H1. rewrite (sorted_items_perm d') in H2.
    apply (Permutation_in _ Hp) in H1.
    apply dict_get_In in H1, H2; try assumption. congruence.
Qed.

Lemma different_shapes_perm_r (b t t' : DataSet) :
  Permutation t t' -> dict_wf t ->
  different_shapes b t = different_shapes b t'.
Proof.
  intros Hp Hwf. unfold different_shapes, nitems.
  rewrite (sorted_items_of_perm t t' Hp Hwf).
  rewrite (sorted_of_perm (keys t) (keys t')); [reflexivity|].
  apply Permutation_map, Hp.
Qed.

Lemma compare_index_test (format_2e : float -> string) (tol : Tolerance)
    (benchmark test test' : DataSet) (key : string)
    (acc : Status * list string) (ind : nat) :
  dict_get test key = dict_get test' key ->
  compare_index format_2e tol benchmark test key acc ind
  = compare_index format_2e tol benchmark test' key acc ind.
Proof. intros H. unfold compare_index, getitem. rewrite H. reflexivity. Qed.

(** X11: the order of the fields in the test DataSet is of no account:
    [compare_data] gives the same result for every arrangement of them. *)
Theorem compare_data_test_order :
  forall (format_2e : float -> string) (benchmark test test' : DataSet)
         (default_tolerance : Tolerance) (tolerances : dict Tolerance)
         (ignore_fields : option (list string)),
    Permutation test test' -> dict_wf test ->
    compare_data format_2e benchmark test default_tolerance tolerances
      ignore_fields
    = compare_data format_2e benchmark test' default_tolerance tolerances
        ignore_fields.
Proof.
  intros fmt b t t' dt tols ign Hp Hwf.
  unfold compare_data.
  destruct ign as [[|field rest]|]; cbn [bind fst snd];
    [|destruct b; reflexivity|];
    unfold compare_shapes_and_values;
    rewrite (different_shapes_perm_r b t t' Hp Hwf);
    (destruct (different_shapes b t'); [reflexivity|]);
    rewrite (for_each_ext (compare_key fmt dt tols b t)
               (compare_key fmt dt tols b t')); try reflexivity;
    intros a key _; rewrite !compare_key_tolerance_of;
    (destruct (getitem b key) as [bvals|]; cbn [bind]; [|reflexivity]);
    apply for_each_ext; intros a' ind _;
    apply compare_index_test, dict_get_perm; assumption.
Qed.

Lemma compare_data_test_order_witness :
  compare_data some_format
    [("a", [Num 1%float]); ("b", [Num 2%float])]
    [("a", [Num 1.5%float]); ("b", [Num 2%float])]
    (mkTolerance (Some 0.25%float) None) [] None
  = compare_data some_format
      [("a", [Num 1%float]); ("b", [Num 2%float])]
      [("b", [Num 2%float]); ("a", [Num 1.5%float])]
      (mkTolerance (Some 0.25%float) None) [] None.
Proof.
  apply compare_data_test_order.
  - apply perm_swap.
  - repeat constructor; cbn; intuition discriminate.
Defined.

Lemma Status_add_assoc (a b c : Status) :
  Status_add (Status_add a b) c = Status_add a (Status_add b c).
Proof. destruct a, b, c; reflexivity. Qed.

Lemma Status_add_comm (a b : Status) : Status_add a b = Status_add b a.
Proof. destruct a, b; reflexivity. Qed.

(** A loop whose turns each add a status and append messages, whatever the
    accumulator, does so as a whole. *)
Lemma for_each_accumulating {B : Type}
    (body : Status * list string -> B -> result (Status * list string)) :
  (forall acc x acc', body acc x = Ok acc' ->
     exists s m, forall acc0,
       body acc0 x = Ok (Status_add (fst acc0) s, snd acc0 ++ m)) ->
  forall l acc acc', for_each body l acc = Ok acc' ->
    exists s m, forall acc0,
      for_each body l acc0 = Ok (Status_add (fst acc0) s, snd acc0 ++ m).
Proof.
  intros Hbody. induction l as [|x l IH]; intros acc acc' H.
  - exists Pass, []. intros [s0 m0]. cbn. rewrite app_nil_r.
    destruct s0; reflexivity.
  - cbn [for_each] in H. destruct (body acc x) as [a1|] eqn:E1;
      cbn [bind] in H; [|discriminate].
    destruct (Hbody acc x a1 E1) as (s1 & m1 & H1).
    destruct (IH a1 acc' H) as (s2 & m2 & H2).
    exists (Status_add s1 s2), (m1 ++ m2). intros acc0.
    cbn [for_each]. rewrite H1. cbn [bind]. rewrite H2. cbn [fst snd].
    rewrite Status_add_assoc, <- app_assoc. reflexivity.
Qed.

(** Such a loop over a rearranged list gives the same status and the same
    messages, rearranged. *)
Lemma for_each_permuted {B : Type}
    (body : Status * list string -> B -> result (Status * list string)) :
  (forall acc x acc', body acc x = Ok acc' ->
     exists s m, forall acc0,
       body acc0 x = Ok (Status_add (fst acc0) s, snd acc0 ++ m)) ->
  forall l l', Permutation l l' ->
  forall acc acc', for_each body l acc = Ok acc' ->
    exists acc'' m m',
      for_each body l' acc = Ok acc'' /\ fst acc'' = fst acc' /\
      snd acc' = snd acc ++ m /\ snd acc'' = snd acc ++ m' /\
      Permutation m m'.
Proof.
  intros Hbody l l' Hp.
  induction Hp as [|x l l' Hp IH|x y l|l l' l'' Hp1 IH1 Hp2 IH2];
    intros acc acc' H.
  - cbn in H. injection H as <-. exists acc, [], [].
    rewrite app_nil_r. repeat split. constructor.
  - cbn [for_each] in H |- *. destruct (body acc x) as [a1|] eqn:E1;
      cbn [bind] in H |- *; [|discriminate].
    destruct (Hbody acc x a1 E1) as (s1 & m1 & H1).
    rewrite H1 in E1. injection E1 as <-.
    destruct (IH _ acc' H) as (acc'' & m & m' & Hl' & Hfst & Hm & Hm' & Hperm).
    cbn [snd] in Hm, Hm'.
    exists acc'', (m1 ++ m), (m1 ++ m'). rewrite !app_assoc.
    repeat split; try assumption. apply Permutation_app_head, Hperm.
  - cbn [for_each] in H. destruct (body acc y) as [a1|] eqn:E1;
      cbn [bind] in H; [|discriminate].
    destruct (body a1 x) as [a2|] eqn:E2; cbn [bind] in H; [|discriminate].
    destruct (Hbody acc y a1 E1) as (sy & my & Hy).
    destruct (Hbody a1 x a2 E2) as (sx & mx & Hx).
    destruct (for_each_accumulating body Hbody l a2 acc' H) as (s & m & Hl).
    rewrite Hy in E1. injection E1 as <-.
    rewrite Hx in E2. injection E2 as <-.
    rewrite Hl in H. injection H as <-. cbn [fst snd].
    eexists. exists (my ++ mx ++ m), (mx ++ my ++ m).
    cbn [for_each]. rewrite Hx. cbn [bind]. rewrite Hy. cbn [bind].
    rewrite Hl. cbn [fst snd]. split; [reflexivity|].
    split; [|split; [|split]].
    + rewrite (Status_add_assoc (fst acc) sx sy), (Status_add_comm sx sy),
        <- (Status_add_assoc (fst acc) sy sx).
      reflexivity.
    + rewrite <- !app_assoc. reflexivity.
    + rewrite <- !app_assoc. reflexivity.
    + apply Permutation_app_swap_app.
  - destruct (IH1 acc acc' H) as (a1 & m & m1 & H1 & Hf1 & Hm & Hm1 & Hp).
    destruct (IH2 acc a1 H1) as (a2 & m1' & m2 & H2 & Hf2 & Hm1' & Hm2 & Hp').
    rewrite Hm1 in Hm1'. apply app_inv_head in Hm1'. subst m1'.
    exists a2, m, m2. repeat split; try assumption; [congruence|].
    apply (perm_trans Hp Hp').
Qed.

Lemma compare_index_accumulating (format_2e : float -> string)
    (tol : Tolerance) (benchmark test : DataSet) (key : string)
    (acc acc' : Status * list string) (ind : nat) :
  compare_index format_2e tol benchmark test key acc ind = Ok acc' ->
  exists s m, forall acc0,
    compare_index format_2e tol benchmark test key acc0 ind
    = Ok (Status_add (fst acc0) s, snd acc0 ++ m).
Proof.
  intros H.
  destruct (compare_index_Ok _ _ _ _ _ _ _ _ H)
    as (tvals & bvals & tv & bv & st & err & Ht & Hb & Htv & Hbv & Hv & _).
  exists st, (if negb (passed st) && nonempty err then [err] else []).
  intros acc0. unfold compare_index, getitem, index.
  rewrite Ht. cbn [bind]. rewrite Htv. cbn [bind]. rewrite Hb. cbn [bind].
  rewrite Hbv. cbn [bind]. rewrite Hv. cbn [bind fst snd].
  destruct (negb (passed st) && nonempty err); [reflexivity|].
  rewrite app_nil_r. reflexivity.
Qed.

Lemma compare_key_accumulating (format_2e : float -> string)
    (default_tolerance : Tolerance) (tolerances : dict Tolerance)
    (benchmark test : DataSet) (acc acc' : Status * list string)
    (key : string) :
  compare_key format_2e default_tolerance tolerances benchmark test acc key
  = Ok acc' ->
  exists s m, forall acc0,
    compare_key format_2e default_tolerance tolerances benchmark test acc0 key
    = Ok (Status_add (fst acc0) s, snd acc0 ++ m).
Proof.
  rewrite compare_key_tolerance_of. intros H.
  destruct (getitem benchmark key) as [bvals|] eqn:Eb; cbn [bind] in H;
    [|discriminate].
  destruct (for_each_accumulating _
              (fun a x a' => compare_index_accumulating format_2e
                 (tolerance_of default_tolerance tolerances key)
                 benchmark test key a a' x) _ _ _ H) as (s & m & Hl).
  exists s, m. intros acc0. rewrite compare_key_tolerance_of, Eb. cbn [bind].
  apply Hl.
Qed.

Lemma compare_key_benchmark (format_2e : float -> string)
    (default_tolerance : Tolerance) (tolerances : dict Tolerance)
    (benchmark benchmark' test : DataSet) (acc : Status * list string)
    (key : string) :
  (forall k, dict_get benchmark k = dict_get benchmark' k) ->
  compare_key format_2e default_tolerance tolerances benchmark test acc key
  = compare_key format_2e default_tolerance tolerances benchmark' test acc key.
Proof.
  intros Hg. rewrite !compare_key_tolerance_of. unfold getitem.
  rewrite <- Hg. destruct (dict_get benchmark key) as [bvals|]; cbn [bind];
    [|reflexivity].
  apply for_each_ext. intros a ind _. unfold compare_index, getitem.
  rewrite <- Hg. reflexivity.
Qed.

(** X12: the order of the fields in the benchmark changes at most the order
    of the lines of the message: for every arrangement the comparable flag
    and the status are the same, and the message is made of the same error
    messages joined by line feeds, in an order that may differ. *)
Theorem compare_data_benchmark_order :
  forall (format_2e : float -> string) (benchmark benchmark' test : DataSet)
         (default_tolerance : Tolerance) (tolerances : dict Tolerance)
         (ignore_fields : option (list string)) (comparable : bool)
         (st : Status) (msg : string),
    Permutation benchmark benchmark' -> dict_wf benchmark ->
    compare_data format_2e benchmark test default_tolerance tolerances
      ignore_fields = Ok (comparable, st, msg) ->
    exists lines lines',
      msg = String.concat newline lines /\
      compare_data format_2e benchmark' test default_tolerance tolerances
        ignore_fields = Ok (comparable, st, String.concat newline lines') /\
      Permutation lines lines'.
Proof.
  intros fmt b b' t dt tols ign c st msg Hp Hwf H.
  assert (Hign : compare_data fmt b' t dt tols ign
                 = compare_shapes_and_values fmt b' t dt tols).
  { destruct ign as [[|field rest]|]; try reflexivity.
    unfold compare_data in H. destruct b; cbn in H; discriminate. }
  rewrite Hign. clear Hign.
  apply compare_data_no_ignore in H.
  unfold compare_shapes_and_values in *.
  assert (Hd : different_shapes b' t = different_shapes b t).
  { rewrite (different_shapes_sym b' t), (different_shapes_sym b t).
    symmetry. apply different_shapes_perm_r; assumption. }
  rewrite Hd. destruct (different_shapes b t).
  { injection H as <- <- <-. exists [different_sets], [different_sets].
    repeat split. apply Permutation_refl. }
  destruct (for_each (compare_key fmt dt tols b t) (keys b) _) as [r|] eqn:E;
    cbn [bind] in H; [|discriminate].
  injection H as <- <- <-.
  assert (Hg : forall k, dict_get b k = dict_get b' k)
    by (intros k; apply dict_get_perm; assumption).
  assert (Hk : Permutation (keys b) (keys b'))
    by (apply Permutation_map, Hp).
  destruct (for_each_permuted _
              (fun a x a' => compare_key_accumulating fmt dt tols b t a a' x)
              _ _ Hk _ _ E)
    as (r' & m & m' & E' & Hfst & Hm & Hm' & Hperm).
  cbn [snd app] in Hm, Hm'.
  rewrite (for_each_ext (compare_key fmt dt tols b' t)
             (compare_key fmt dt tols b t))
    by (intros a key _; symmetry; apply compare_key_benchmark, Hg).
  rewrite E'. cbn [bind]. exists m, m'. rewrite Hfst, Hm, Hm'.
  repeat split. exact Hperm.
Qed.

Lemma compare_data_benchmark_order_witness :
  exists lines lines',
    ("a: absolute error ?.??e+?? greater than ?.??e+??."
     ++ newline ++ "b: absolute error ?.??e+?? greater than ?.??e+??.")%string
    = String.concat newline lines /\
    compare_data some_format
      [("b", [Num 2%float]); ("a", [Num 1%float])]
      [("a", [Num 1.5%float]); ("b", [Num 3%float])]
      (mkTolerance (Some 0.25%float) None) [] None
    = Ok (true, Fail, String.concat newline lines') /\
    Permutation lines lines'.
Proof.
  apply (compare_data_benchmark_order some_format
           [("a", [Num 1%float]); ("b", [Num 2%float])]
           [("b", [Num 2%float]); ("a", [Num 1%float])]
           [("a", [Num 1.5%float]); ("b", [Num 3%float])]
           (mkTolerance (Some 0.25%float) None) [] None true Fail
           ("a: absolute error ?.??e+?? greater than ?.??e+??."
            ++ newline
            ++ "b: absolute error ?.??e+?? greater than ?.??e+??.")%string).
  - apply perm_swap.
  - repeat constructor; cbn; intuition discriminate.
  - reflexivity.
Defined.

(** ** dict_table_string, further *)

Lemma for_each_app {A B : Type} (body : A -> B -> result A) (l1 l2 : list B)
    (a : A) :
  for_each body (l1 ++ l2) a = (a' <- for_each body l1 a ;; for_each body l2 a').
Proof.
  revert a. induction l1 as [|x l1 IH]; intros a; cbn; [reflexivity|].
  destruct (body a x) as [a'|e]; cbn; [apply IH|reflexivity].
Qed.

Lemma dict_get_app_notin {V : Type} (d1 d2 : dict V) (k : string) :
  ~ In k (keys d1) -> dict_get (d1 ++ d2) k = dict_get d2 k.
Proof.
  unfold keys. induction d1 as [|[k' v'] d1 IH]; cbn; intros H; [reflexivity|].
  destruct (String.eqb_spec k k') as [->|Hne]; [tauto|]. apply IH. tauto.
Qed.

Lemma setitem_app_notin {V : Type} (d1 d2 : dict V) (k : string) (v w : V) :
  ~ In k (keys d1) ->
  setitem (d1 ++ (k, v) :: d2) k w = d1 ++ (k, w) :: d2.
Proof.
  unfold keys. induction d1 as [|[k' v'] d1 IH]; cbn; intros H.
  - rewrite String.eqb_refl. reflexivity.
  - destruct (String.eqb_spec k k') as [->|Hne]; [tauto|].
    rewrite IH by tauto. reflexivity.
Qed.

Lemma setitem_fresh {V : Type} (d : dict V) (k : string) (v : V) :
  contains d k = false -> setitem d k v = d ++ [(k, v)].
Proof.
  unfold contains. induction d as [|[k' v'] d IH]; cbn; [reflexivity|].
  destruct (String.eqb k k'); [discriminate|]. intros H. rewrite IH by exact H.
  reflexivity.
Qed.

Lemma keys_combine {V : Type} (names : list string) (vals : list V) :
  List.length names = List.length vals -> keys (combine names vals) = names.
Proof.
  unfold keys. revert vals.
  induction names as [|n names IH]; intros [|v vals]; cbn; try discriminate;
    [reflexivity|].
  intros [= H]. rewrite IH by exact H. reflexivity.
Qed.

Lemma keys_combine_incl {V : Type} (names : list string) (vals : list V)
    (k : string) :
  In k (keys (combine names vals)) -> In k names.
Proof.
  unfold keys. intros H. apply in_map_iff in H as ([k' v] & <- & H).
  apply in_combine_l in H. exact H.
Qed.

Lemma dict_get_combine {V : Type} (names : list string) (vals : list V)
    (j : nat) (name : string) :
  NoDup names -> List.length names = List.length vals ->
  nth_error names j = Some name ->
  dict_get (combine names vals) name = nth_error vals j.
Proof.
  revert vals j.
  induction names as [|n names IH]; intros [|v vals] j Hnd Hlen Hj;
    try discriminate; [destruct j; discriminate|].
  inversion Hnd as [|? ? Hnotin Hnd']; subst. cbn.
  destruct j as [|j]; cbn in Hj.
  - injection Hj as ->. rewrite String.eqb_refl. reflexivity.
  - destruct (String.eqb_spec name n) as [->|Hne].
    + exfalso. apply Hnotin. apply nth_error_In in Hj. exact Hj.
    + cbn. apply IH; [exact Hnd'|cbn in Hlen; lia|exact Hj].
Qed.

Lemma extend_length (cols : list (list value)) (row : list value) :
  List.length (extend cols row) = List.length cols.
Proof.
  revert row. induction cols as [|c cols IH]; intros [|v row]; cbn;
    try reflexivity.
  rewrite IH. reflexivity.
Qed.

Lemma nth_error_extend (cols : list (list value)) (row : list value) (j : nat) :
  nth_error (extend cols row) j
  = option_map (fun c => c ++ column j [row]) (nth_error cols j).
Proof.
  unfold column. cbn [flat_map]. revert row j.
  induction cols as [|c cols IH]; intros row j.
  - destruct row, j; reflexivity.
  - destruct row as [|v row].
    + cbn [extend]. destruct (nth_error (c :: cols) j) as [c'|];
        destruct j; cbn; rewrite ?app_nil_r; reflexivity.
    + destruct j as [|j]; cbn; [reflexivity|]. apply IH.
Qed.

Lemma nth_error_fold_extend (rows : list (list value))
    (cols : list (list value)) (j : nat) :
  nth_error (fold_left extend rows cols) j
  = option_map (fun c => c ++ column j rows) (nth_error cols j).
Proof.
  revert cols. induction rows as [|row rows IH]; intros cols; cbn.
  - destruct (nth_error cols j); cbn; rewrite ?app_nil_r; reflexivity.
  - rewrite IH, nth_error_extend. unfold column. cbn [flat_map].
    destruct (nth_error cols j); cbn; [|reflexivity].
    rewrite app_nil_r, <- app_assoc. reflexivity.
Qed.

Lemma fold_extend_length (rows : list (list value)) (cols : list (list value)) :
  List.length (fold_left extend rows cols) = List.length cols.
Proof.
  revert cols. induction rows as [|row rows IH]; intros cols; cbn;
    [reflexivity|]. rewrite IH. apply extend_length.
Qed.

Lemma combine_app_eq {A B : Type} (l1 l2 : list A) (m1 m2 : list B) :
  List.length l1 = List.length m1 ->
  combine (l1 ++ l2) (m1 ++ m2) = combine l1 m1 ++ combine l2 m2.
Proof.
  revert m1. induction l1 as [|x l1 IH]; intros [|y m1]; cbn; try discriminate;
    [reflexivity|].
  intros [= H]. rewrite IH by exact H. reflexivity.
Qed.

(** The loop over a data row, from place [length h1] on. *)
Lemma append_columns (row : list value) :
  forall (h1 h2 : list string) (c1 c2 : list (list value)),
    List.length h1 = List.length c1 -> List.length h2 = List.length c2 ->
    NoDup (h1 ++ h2) ->
    for_each (append_column (Some (h1 ++ h2)))
             (combine (seq (List.length h1) (List.length row)) row)
             (combine h1 c1 ++ combine h2 c2)
    = if (List.length row <=? List.length h2)%nat
      then Ok (combine h1 c1 ++ combine h2 (extend c2 row))
      else Raise IndexError.
Proof.
  induction row as [|v row IH]; intros h1 h2 c1 c2 Hl1 Hl2 Hnd.
  - cbn. destruct c2; reflexivity.
  - cbn [List.length seq combine for_each].
    unfold append_column at 1. cbn [bind fst snd]. unfold index.
    destruct h2 as [|n h2]; destruct c2 as [|c c2]; try discriminate.
    + rewrite (proj2 (nth_error_None (h1 ++ []) (List.length h1)))
        by (rewrite app_nil_r; lia).
      reflexivity.
    + rewrite nth_error_app2 by lia. rewrite Nat.sub_diag. cbn [nth_error bind].
      assert (Hn : ~ In n (keys (combine h1 c1))).
      { intros H. apply keys_combine_incl in H.
        apply NoDup_remove_2 in Hnd. apply Hnd. apply in_or_app. auto. }
      unfold getitem. cbn [combine].
      rewrite (dict_get_app_notin _ _ _ Hn). cbn [dict_get].
      rewrite String.eqb_refl. cbn [bind].
      rewrite (setitem_app_notin _ _ _ _ _ Hn).
      specialize (IH (h1 ++ [n]) h2 (c1 ++ [c ++ [v]]) c2).
      rewrite !length_app in IH. cbn [List.length] in IH.
      rewrite Nat.add_1_r in IH.
      rewrite combine_app_eq, <- !app_assoc in IH by exact Hl1.
      cbn [combine app] in IH.
      rewrite IH; [cbn; reflexivity|lia|cbn in Hl2; lia|exact Hnd].
Qed.

Lemma header_row (head : list string) :
  compat_all (map is_not_float (map Str head)) = true /\
  header_names (map Str head) = head.
Proof.
  unfold compat_all, header_names.
  induction head as [|n head [IH1 IH2]]; cbn; [auto|].
  rewrite IH1. cbn in IH2. rewrite IH2. auto.
Qed.

Lemma register_fresh (head : list string) (d : DataSet) :
  NoDup head -> (forall n, In n head -> ~ In n (keys d)) ->
  register d head = d ++ map (fun n => (n, [])) head.
Proof.
  unfold register. revert d.
  induction head as [|n head IH]; intros d Hnd Hd; cbn.
  - rewrite app_nil_r. reflexivity.
  - inversion Hnd as [|? ? Hnotin Hnd']; subst.
    assert (Hc : contains d n = false).
    { unfold contains. destruct (dict_get d n) as [v|] eqn:E; [|reflexivity].
      exfalso. apply (Hd n (or_introl eq_refl)). apply dict_get_keys. eauto. }
    rewrite Hc, (setitem_fresh _ _ _ Hc), IH; [rewrite <- app_assoc; reflexivity
                                               |exact Hnd'|].
    intros m Hm Hin. unfold keys in Hin. rewrite map_app in Hin.
    apply in_app_or in Hin as [Hin|[<-|[]]]; [|exact (Hnotin Hm)].
    apply (Hd m (or_intror Hm)). exact Hin.
Qed.

Lemma combine_repeat (head : list string) :
  map (fun n : string => (n, @nil value)) head
  = combine head (repeat [] (List.length head)).
Proof. induction head as [|n head IH]; cbn; [|rewrite IH]; reflexivity. Qed.

(** A data row under a header of distinct names. *)
Lemma table_row_data (head : list string) (cols : list (list value))
    (row : list value) :
  NoDup head -> List.length head = List.length cols ->
  is_data_row row = true ->
  table_row (combine head cols, Some head) row
  = if (List.length row <=? List.length head)%nat
    then Ok (combine head (extend cols row), Some head)
    else Raise IndexError.
Proof.
  intros Hnd Hlen Hrow. unfold table_row, is_data_row in *.
  destruct (compat_all (map is_not_float row)); [discriminate|].
  cbn [fst snd]. unfold enumerate.
  pose proof (append_columns row [] head [] cols eq_refl Hlen Hnd) as H.
  cbn [app List.length combine] in H. rewrite H.
  destruct (List.length row <=? List.length head)%nat; reflexivity.
Qed.

Lemma table_rows_data (head : list string) (rows : list (list value)) :
  NoDup head ->
  Forall (fun row => is_data_row row = true /\
                     List.length row <= List.length head) rows ->
  forall cols, List.length head = List.length cols ->
    for_each table_row rows (combine head cols, Some head)
    = Ok (combine head (fold_left extend rows cols), Some head).
Proof.
  intros Hnd Hrows. induction Hrows as [|row rows [Hd Hl] _ IH];
    intros cols Hlen; cbn; [reflexivity|].
  rewrite (table_row_data head cols row Hnd Hlen Hd).
  rewrite (proj2 (Nat.leb_le _ _) Hl). cbn [bind].
  apply IH. rewrite extend_length. exact Hlen.
Qed.

Lemma table_header_first (head : list string) :
  NoDup head ->
  table_row ([], None) (map Str head)
  = Ok (combine head (repeat [] (List.length head)), Some head).
Proof.
  intros Hnd. unfold table_row. destruct (header_row head) as [-> ->].
  cbn [fst]. rewrite (register_fresh head [] Hnd) by (intros n _ []).
  cbn [app]. rewrite combine_repeat. reflexivity.
Qed.

(** X13: a table with one header of distinct names, followed by rows that
    each hold a number and are not longer than the header, gives the names
    as the fields, in their order, and the [j]-th column as the values of
    the [j]-th name; a short row gives nothing to the names it does not
    reach. *)
Theorem dict_table_string_columns :
  forall (table_string : string) (head : list string)
         (rows : list (list value)),
    table_data table_string = map Str head :: rows ->
    NoDup head ->
    Forall (fun row => is_data_row row = true /\
                       List.length row <= List.length head) rows ->
    exists data_dict,
      dict_table_string table_string = Ok data_dict /\
      keys data_dict = head /\
      forall j name, nth_error head j = Some name ->
                     dict_get data_dict name = Some (column j rows).
Proof.
  intros s head rows Hs Hnd Hrows.
  unfold dict_table_string. fold (table_data s). rewrite Hs.
  cbn [for_each]. rewrite (table_header_first head Hnd). cbn [bind].
  rewrite (table_rows_data head rows Hnd Hrows) by (rewrite repeat_length; reflexivity).
  cbn [bind fst]. eexists. split; [reflexivity|].
  assert (Hlen : List.length head
                 = List.length (fold_left extend rows
                                  (repeat [] (List.length head))))
    by (rewrite fold_extend_length, repeat_length; reflexivity).
  split; [apply keys_combine, Hlen|].
  intros j name Hj. rewrite (dict_get_combine head _ j name Hnd Hlen Hj).
  rewrite nth_error_fold_extend.
  assert (Hlt : j < List.length head) by (apply nth_error_Some; congruence).
  rewrite (nth_error_repeat _ Hlt). reflexivity.
Qed.

Lemma dict_table_string_columns_witness :
  exists data_dict,
    dict_table_string ("x y" ++ newline ++ "1 2" ++ newline ++ "3")
    = Ok data_dict /\
    keys data_dict = ["x"; "y"] /\
    forall j name,
      nth_error ["x"; "y"] j = Some name ->
      dict_get data_dict name
      = Some (column j [[Num 1%float; Num 2%float]; [Num 3%float]]).
Proof.
  apply (dict_table_string_columns
           ("x y" ++ newline ++ "1 2" ++ newline ++ "3") ["x"; "y"]
           [[Num 1%float; Num 2%float]; [Num 3%float]]).
  - vm_compute. reflexivity.
  - repeat constructor; cbn; intuition discriminate.
  - repeat constructor; cbn; lia.
Defined.

Lemma is_data_row_cons (row : list value) :
  is_data_row row = true -> exists v row', row = v :: row'.
Proof. destruct row as [|v row']; [discriminate|eauto]. Qed.

(** X14: a table whose first row holds a number has no header for it:
    [dict_table_string] raises [NameError] ([head] is not bound yet). *)
Theorem dict_table_string_no_header :
  forall (table_string : string) (row : list value) (rows : list (list value)),
    table_data table_string = row :: rows ->
    is_data_row row = true ->
    dict_table_string table_string = Raise NameError.
Proof.
  intros s row rows Hs Hrow.
  unfold dict_table_string. fold (table_data s). rewrite Hs.
  cbn [for_each]. destruct (is_data_row_cons row Hrow) as (v & row' & ->).
  unfold table_row, is_data_row in *.
  destruct (compat_all (map is_not_float (v :: row'))); [discriminate|].
  reflexivity.
Qed.

Lemma dict_table_string_no_header_witness :
  dict_table_string ("1 2 3" ++ newline ++ "a b c") = Raise NameError.
Proof.
  apply (dict_table_string_no_header ("1 2 3" ++ newline ++ "a b c")
           [Num 1%float; Num 2%float; Num 3%float]
           [[Str "a"; Str "b"; Str "c"]]).
  - vm_compute. reflexivity.
  - reflexivity.
Defined.

Lemma keys_register (head : list string) (d : DataSet) (k : string) :
  In k (keys (register d head)) <-> In k (keys d) \/ In k head.
Proof.
  unfold register. revert d.
  induction head as [|n head IH]; intros d; cbn [fold_left In].
  - tauto.
  - rewrite IH. destruct (contains d n) eqn:E.
    + split; [tauto|]. intros [H|[->|H]]; auto. left.
      unfold contains in E. apply dict_get_keys.
      destruct (dict_get d k); [eauto|discriminate].
    + rewrite keys_setitem, E, in_app_iff. cbn. tauto.
Qed.

Lemma register_empty_values (head : list string) (d : DataSet) :
  Forall (fun kv => snd kv = []) d ->
  Forall (fun kv => snd kv = []) (register d head).
Proof.
  unfold register. revert d.
  induction head as [|n head IH]; intros d Hd; cbn [fold_left]; [exact Hd|].
  apply IH. destruct (contains d n) eqn:E; [exact Hd|].
  rewrite (setitem_fresh _ _ _ E). apply Forall_app. split; [exact Hd|].
  repeat constructor.
Qed.

Lemma header_names_In (row : list value) (k : string) :
  In k (header_names row) <-> In (Str k) row.
Proof.
  unfold header_names. rewrite in_flat_map. split.
  - intros ([x|s] & Hin & Hk); [destruct Hk|]. destruct Hk as [<-|[]]. exact Hin.
  - intros H. exists (Str k). split; [exact H|left; reflexivity].
Qed.

Lemma try_floatify_Str (tok k : string) :
  try_floatify tok = Str k -> tok = k /\ float_of_string k = None.
Proof.
  unfold try_floatify. destruct (float_of_string tok) eqn:E; [discriminate|].
  intros [= <-]. auto.
Qed.

Lemma append_column_keys (head : option (list string)) (d d' : DataSet)
    (iv : nat * value) :
  append_column head d iv = Ok d' -> keys d' = keys d.
Proof.
  unfold append_column. destruct head as [h|]; cbn; [|discriminate].
  destruct (index h (fst iv)) as [name|]; cbn; [|discriminate].
  unfold getitem. destruct (dict_get d name) as [vals|] eqn:E; cbn;
    [|discriminate].
  intros [= <-]. rewrite keys_setitem. unfold contains. rewrite E. reflexivity.
Qed.

Lemma table_row_keys (st st' : DataSet * option (list string))
    (row : list value) (k : string) :
  table_row st row = Ok st' ->
  In k (keys (fst st')) -> In k (keys (fst st)) \/ In (Str k) row.
Proof.
  unfold table_row. destruct (compat_all (map is_not_float row)).
  - intros [= <-]. cbn [fst]. rewrite keys_register, header_names_In. tauto.
  - destruct (for_each _ _ _) as [d|] eqn:E; cbn; [|discriminate].
    intros [= <-]. cbn [fst]. left.
    assert (Hkeys : keys d = keys (fst st)).
    { apply (for_each_invariant (fun d0 : DataSet => keys d0 = keys (fst st))
               (append_column (snd st)) (enumerate row)) with (2 := E);
        [|reflexivity].
      intros d0 iv d1 Hs Hd0. rewrite (append_column_keys _ _ _ _ Hs).
      exact Hd0. }
    rewrite <- Hkeys. assumption.
Qed.

Lemma for_each_invariant_in {A B : Type} (P : A -> Prop)
    (body : A -> B -> result A) (l : list B) :
  (forall a x a', In x l -> body a x = Ok a' -> P a -> P a') ->
  forall a a', for_each body l a = Ok a' -> P a -> P a'.
Proof.
  induction l as [|x l IH]; cbn; intros Hbody a a' H Ha.
  - injection H as <-. exact Ha.
  - destruct (body a x) as [a1|e] eqn:E; cbn in H; [|discriminate].
    apply (IH (fun a0 y a0' Hy => Hbody a0 y a0' (or_intror Hy)) a1 a' H).
    apply (Hbody a x a1 (or_introl eq_refl) E Ha).
Qed.

(** X16: every field name of a table is a word of the text that does not
    read as a number. *)
Theorem dict_table_string_keys :
  forall (table_string : string) (data_dict : DataSet) (key : string),
    dict_table_string table_string = Ok data_dict ->
    In key (keys data_dict) ->
    float_of_string key = None /\
    exists line, In line (splitlines table_string) /\ In key (split line).
Proof.
  intros s d key. unfold dict_table_string. fold (table_data s).
  destruct (for_each table_row (table_data s) ([], None)) as [st|] eqn:E; cbn;
    [|discriminate].
  intros [= <-] Hk.
  assert (Hrow : exists row, In row (table_data s) /\ In (Str key) row).
  { revert Hk.
    apply (for_each_invariant_in
             (fun st0 : DataSet * option (list string) =>
                In key (keys (fst st0)) ->
                exists row, In row (table_data s) /\ In (Str key) row)
             table_row (table_data s)) with (2 := E); [|intros []].
    intros st0 row st1 Hrow Hstep IH Hk.
    destruct (table_row_keys st0 st1 row key Hstep Hk) as [H|H]; eauto. }
  destruct Hrow as (row & Hrow & Hin). unfold table_data in Hrow.
  rewrite map_map in Hrow. apply in_map_iff in Hrow as (line & <- & Hline).
  apply in_map_iff in Hin as (tok & Htok & Hin).
  apply try_floatify_Str in Htok as [-> Hnone]. eauto.
Qed.

Lemma dict_table_string_keys_witness :
  float_of_string "a" = None /\
  exists line,
    In line (splitlines ("a b" ++ newline ++ "1 2")) /\ In "a" (split line).
Proof.
  apply (dict_table_string_keys ("a b" ++ newline ++ "1 2")
           [("a", [Num 1%float]); ("b", [Num 2%float])] "a").
  - vm_compute. reflexivity.
  - left. reflexivity.
Defined.

Lemma header_rows (rows : list (list value)) :
  Forall (fun row => is_data_row row = false) rows ->
  forall (st : DataSet * option (list string)),
    Forall (fun kv => snd kv = []) (fst st) ->
    exists st',
      for_each table_row rows st = Ok st' /\
      (forall k, In k (keys (fst st')) <->
                 In k (keys (fst st)) \/
                 exists row, In row rows /\ In (Str k) row) /\
      Forall (fun kv => snd kv = []) (fst st').
Proof.
  induction 1 as [|row rows Hrow _ IH]; intros st Hst; cbn [for_each].
  - exists st. split; [reflexivity|]. split; [|exact Hst].
    intros k. split; [auto|]. intros [H|(row & [] & _)]. exact H.
  - unfold table_row at 1. unfold is_data_row in Hrow.
    destruct (compat_all (map is_not_float row)); [|discriminate].
    cbn [bind].
    destruct (IH (register (fst st) (header_names row), Some (header_names row)))
      as (st' & Hfor & Hkeys & Hvals).
    { cbn [fst]. apply register_empty_values, Hst. }
    exists st'. split; [exact Hfor|]. split; [|exact Hvals].
    intros k. rewrite Hkeys. cbn [fst]. rewrite keys_register, header_names_In.
    split.
    + intros [[H|H]|(r & Hr & Hk)]; eauto 6 using in_eq, in_cons.
    + intros [H|(r & [<-|Hr] & Hk)]; eauto.
Qed.

(** X17: when no row of the text holds a number, every word of the text
    becomes a field and no field has a value. *)
Theorem dict_table_string_headers :
  forall (table_string : string),
    Forall (fun row => is_data_row row = false) (table_data table_string) ->
    exists data_dict,
      dict_table_string table_string = Ok data_dict /\
      (forall key, In key (keys data_dict) <->
                   exists line, In line (splitlines table_string) /\
                                In key (split line)) /\
      (forall key vals, dict_get data_dict key = Some vals -> vals = []).
Proof.
  intros s Hrows.
  destruct (header_rows (table_data s) Hrows ([], None)) as (st & Hfor & Hkeys & Hvals);
    [constructor|].
  exists (fst st). unfold dict_table_string. fold (table_data s).
  rewrite Hfor. cbn [bind]. split; [reflexivity|]. split.
  - intros key. rewrite Hkeys. cbn [fst keys map In]. split.
    + intros [[]|(row & Hrow & Hin)]. unfold table_data in Hrow.
      rewrite map_map in Hrow. apply in_map_iff in Hrow as (line & <- & Hline).
      apply in_map_iff in Hin as (tok & Htok & Hin).
      apply try_floatify_Str in Htok as [-> _]. eauto.
    + intros (line & Hline & Hin). right.
      exists (map try_floatify (split line)). split.
      * unfold table_data. rewrite map_map.
        apply (in_map (fun l => map try_floatify (split l))), Hline.
      * assert (Hrow : is_data_row (map try_floatify (split line)) = false).
        { rewrite Forall_forall in Hrows. apply Hrows. unfold table_data.
          rewrite map_map.
          apply (in_map (fun l => map try_floatify (split l))), Hline. }
        apply (in_map try_floatify) in Hin.
        destruct (try_floatify key) as [x|k'] eqn:E.
        -- exfalso. unfold is_data_row, compat_all in Hrow.
           apply negb_false_iff in Hrow. rewrite forallb_forall in Hrow.
           specialize (Hrow (is_not_float (Num x))
                         (in_map is_not_float _ _ Hin)).
           discriminate.
        -- apply try_floatify_Str in E as [<- _]. exact Hin.
  - intros key vals Hget. rewrite Forall_forall in Hvals.
    assert (Hin : In (key, vals) (fst st)).
    { clear - Hget. induction (fst st) as [|[k' v'] d IH]; cbn in *;
        [discriminate|].
      destruct (String.eqb_spec key k') as [->|Hne];
        [injection Hget as ->; auto|auto]. }
    exact (Hvals _ Hin).
Qed.

Lemma dict_table_string_headers_witness :
  exists data_dict,
    dict_table_string ("a b" ++ newline ++ "b c") = Ok data_dict /\
    (forall key, In key (keys data_dict) <->
                 exists line, In line (splitlines ("a b" ++ newline ++ "b c")) /\
                              In key (split line)) /\
    (forall key vals, dict_get data_dict key = Some vals -> vals = []).
Proof.
  apply (dict_table_string_headers ("a b" ++ newline ++ "b c")).
  vm_compute. repeat constructor.
Defined.

(** ** extract_tagged_data, further *)

(** The key read from some words is made of these words, and a value is
    read as soon as there is a word. *)
Lemma read_key_spec (words key : list string) (val : option value) :
  exists pre,
    fst (read_key words key val) = key ++ pre /\
    incl pre words /\
    (words <> [] -> snd (read_key words key val) <> None) /\
    (words = [] -> pre = []).
Proof.
  revert key val. induction words as [|word words IH]; intros key val; cbn.
  - exists []. rewrite app_nil_r. repeat split; try tauto. intros x [].
  - destruct (py_ne (try_floatify word) (Str word)).
    + exists []. rewrite app_nil_r. cbn. repeat split; try discriminate.
      intros x [].
    + destruct (IH (key ++ [word]) (Some (try_floatify word)))
        as (pre & Hfst & Hincl & Hsnd & _).
      exists (word :: pre). rewrite Hfst, <- app_assoc. cbn.
      repeat split; try discriminate.
      * intros x [<-|Hx]; [left; reflexivity|right; apply Hincl, Hx].
      * intros _. destruct words as [|w ws]; [cbn; discriminate|].
        apply Hsnd. discriminate.
Qed.

Lemma kept_key_incl (key : list string) : incl (kept_key key) key.
Proof.
  unfold kept_key. destruct (is_separator (last key EmptyString));
    [apply removelast_incl|apply incl_refl].
Qed.

(** No key word is left iff there is none at all, or just the one word "="
    or ":". *)
Lemma kept_key_nil (key : list string) :
  kept_key key = [] <-> key = [] \/ key = ["="] \/ key = [":"].
Proof.
  unfold kept_key, is_separator. destruct key as [|w [|w' ws]].
  - cbn. tauto.
  - cbn [last removelast].
    destruct (String.eqb_spec w "=") as [->|H1]; cbn [orb]; [tauto|].
    destruct (String.eqb_spec w ":") as [->|H2]; [tauto|].
    split; [discriminate|]. intros [H|[H|H]]; congruence.
  - split.
    + destruct (_ || _); [|discriminate]. cbn [removelast]. discriminate.
    + intros [H|[H|H]]; discriminate.
Qed.

(** What a matching line does: it raises [IndexError] when it leaves no key
    word, and adds one value to one field when it leaves one. *)
Lemma tagged_line_spec (data : DataSet) (line : string) :
  if keyless line then tagged_line data line = Raise IndexError
  else exists val,
      line_val line = Some val /\
      tagged_line data line
      = Ok (append_value data (field_name (line_key line)) val).
Proof.
  unfold keyless, kept_key, tagged_line, line_key, line_val, field_name.
  destruct (read_key_spec (tl (split line)) [] None)
    as (pre & Hfst & Hincl & Hsnd & Hnil).
  destruct (read_key (tl (split line)) [] None) as [key val].
  cbn [fst snd app] in *. subst pre.
  assert (Hwords : Forall (fun w => nonempty w = true) key).
  { rewrite Forall_forall. intros w Hw.
    pose proof (Forall_tl _ _ (split_nonempty line)) as Hall.
    rewrite Forall_forall in Hall. apply Hall, Hincl, Hw. }
  destruct key as [|w key].
  - cbn. reflexivity.
  - rewrite (last_item_last (w :: key) EmptyString) by discriminate.
    cbn [bind].
    set (kept := if is_separator (last (w :: key) EmptyString)
                 then removelast (w :: key) else w :: key).
    assert (Hkept : Forall (fun w => nonempty w = true) kept).
    { rewrite Forall_forall in *. intros x Hx. apply Hwords.
      apply (kept_key_incl (w :: key)). exact Hx. }
    destruct kept as [|k kept'] eqn:Ek.
    + cbn. reflexivity.
    + destruct (last_char_nonempty _
                  (concat_nonempty "_" (k :: kept') ltac:(discriminate) Hkept))
        as [c Hc].
      rewrite Hc. cbn [bind].
      destruct val as [v|].
      * exists v. split; reflexivity.
      * exfalso. apply Hsnd; [|reflexivity].
        intros Hempty. apply Hnil in Hempty. discriminate.
Qed.

Lemma total_values_cons (kv : string * list value) (data : DataSet) :
  total_values (kv :: data) = List.length (snd kv) + total_values data.
Proof. reflexivity. Qed.

Lemma total_values_setitem (data : DataSet) (key : string)
    (vals : list value) (val : value) :
  dict_get data key = Some vals ->
  total_values (setitem data key (vals ++ [val])) = S (total_values data).
Proof.
  induction data as [|[k' v'] d IH]; cbn [dict_get setitem]; [discriminate|].
  destruct (String.eqb key k').
  - intros [= ->]. rewrite !total_values_cons. cbn [snd].
    rewrite length_app. cbn. lia.
  - intros H. rewrite !total_values_cons, (IH H). lia.
Qed.

Lemma total_values_append (data : DataSet) (key : string) (val : value) :
  total_values (append_value data key val) = S (total_values data).
Proof.
  unfold append_value. destruct (dict_get data key) as [vals|] eqn:E.
  - apply total_values_setitem, E.
  - rewrite setitem_fresh by (unfold contains; rewrite E; reflexivity).
    unfold total_values. rewrite map_app, list_sum_app. cbn. lia.
Qed.

Lemma append_value_entries (data : DataSet) (key : string) (val : value)
    (P : string * list value -> Prop) :
  (forall vals, P (key, vals ++ [val])) -> P (key, [val]) ->
  Forall P data -> Forall P (append_value data key val).
Proof.
  intros Hold Hnew Hd. unfold append_value.
  destruct (dict_get data key) as [vals|] eqn:E.
  - clear E. induction Hd as [|[k' v'] d Hk Hd IH]; cbn;
      [repeat constructor; exact (Hold vals)|].
    destruct (String.eqb_spec key k') as [<-|Hne].
    + constructor; [apply Hold|exact Hd].
    + constructor; [exact Hk|exact IH].
  - rewrite setitem_fresh by (unfold contains; rewrite E; reflexivity).
    apply Forall_app. split; [exact Hd|repeat constructor; exact Hnew].
Qed.

Lemma field_name_nonempty (key : list string) :
  nonempty (field_name key) = true.
Proof.
  unfold field_name.
  match goal with |- context [if nonempty ?n then _ else _] =>
    destruct (nonempty n) eqn:E end; [exact E|reflexivity].
Qed.

(** The lines of a file that the tag matches. *)
Lemma extract_lines (data_tag : string) (lines : list string) (data : DataSet) :
  for_each (fun d line => if data_tag_regex_match data_tag line
                          then tagged_line d line else Ok d) lines data
  = for_each tagged_line (filter (data_tag_regex_match data_tag) lines) data.
Proof.
  revert data. induction lines as [|line lines IH]; intros data; cbn;
    [reflexivity|].
  destruct (data_tag_regex_match data_tag line); cbn; [|apply IH].
  destruct (tagged_line data line); cbn; [apply IH|reflexivity].
Qed.

Lemma tagged_lines (lines : list string) :
  forall data,
    for_each tagged_line lines data
    = if existsb keyless lines then Raise IndexError
      else for_each tagged_line lines data.
Proof. intros data. destruct (existsb keyless lines) eqn:E; [|reflexivity].
  revert data. induction lines as [|line lines IH]; intros data;
    [discriminate|].
  cbn in E. cbn [for_each]. pose proof (tagged_line_spec data line) as Hl.
  destruct (keyless line); [rewrite Hl; reflexivity|].
  destruct Hl as (val & _ & ->). cbn [bind]. apply IH. exact E.
Qed.

Lemma tagged_lines_Ok (lines : list string) :
  existsb keyless lines = false ->
  forall data, Forall (fun kv => nonempty (fst kv) = true /\ snd kv <> []) data ->
    exists data',
      for_each tagged_line lines data = Ok data' /\
      Forall (fun kv => nonempty (fst kv) = true /\ snd kv <> []) data' /\
      total_values data' = total_values data + List.length lines.
Proof.
  induction lines as [|line lines IH]; intros E data Hd; cbn [for_each].
  - exists data. cbn. repeat split; [exact Hd|lia].
  - cbn in E. apply orb_false_iff in E as [El E].
    pose proof (tagged_line_spec data line) as Hl. rewrite El in Hl.
    destruct Hl as (val & _ & ->). cbn [bind].
    destruct (IH E (append_value data (field_name (line_key line)) val))
      as (data' & Hfor & Hall & Htot).
    + apply append_value_entries; [| |exact Hd]; cbn [fst snd].
      * intros vals. split; [apply field_name_nonempty|].
        destruct vals; discriminate.
      * split; [apply field_name_nonempty|discriminate].
    + exists data'. split; [exact Hfor|]. split; [exact Hall|].
      rewrite Htot, total_values_append. cbn. lia.
Qed.

(** X18: on a file that exists, [extract_tagged_data] fails only with
    [IndexError], and it does so iff some line that the tag matches leaves
    no key word: between its first word and its first number (or its end,
    when it has no number) there is no word at all, or just the one word
    "=" or ":". *)
Theorem extract_tagged_data_errors :
  forall (fs : string -> option string) (data_tag filename content : string),
    fs filename = Some content ->
    let lines := filter (data_tag_regex_match data_tag) (readlines content) in
    (existsb keyless lines = true ->
     extract_tagged_data fs data_tag filename = Raise IndexError) /\
    (existsb keyless lines = false ->
     exists data, extract_tagged_data fs data_tag filename = Ok data) /\
    (forall line,
        keyless line = true <->
        line_key line = [] \/ line_key line = ["="] \/ line_key line = [":"]).
Proof.
  intros fs tag f content Hf lines. unfold extract_tagged_data. rewrite Hf.
  rewrite extract_lines. fold lines. split; [|split].
  - intros E. rewrite tagged_lines, E. reflexivity.
  - intros E.
    destruct (tagged_lines_Ok lines E [] (Forall_nil _)) as (data & -> & _).
    eauto.
  - intros line. rewrite <- kept_key_nil. unfold keyless.
    destruct (kept_key (line_key line)); split; congruence.
Qed.

Lemma extract_tagged_data_errors_witness :
  extract_tagged_data (one_file ("tag x 1" ++ newline ++ "tag : 2"))
    "tag" "out" = Raise IndexError.
Proof.
  apply (extract_tagged_data_errors
           (one_file ("tag x 1" ++ newline ++ "tag : 2")) "tag" "out"
           ("tag x 1" ++ newline ++ "tag : 2") eq_refl).
  vm_compute. reflexivity.
Defined.

(** X19: a DataSet that [extract_tagged_data] returns has no empty field
    name and no field without a value, and holds one value for every line
    of the file that the tag matches. *)
Theorem extract_tagged_data_values :
  forall (fs : string -> option string) (data_tag filename content : string)
         (data : DataSet),
    fs filename = Some content ->
    extract_tagged_data fs data_tag filename = Ok data ->
    (forall key vals, In (key, vals) data -> key <> EmptyString /\ vals <> []) /\
    total_values data
    = List.length (filter (data_tag_regex_match data_tag) (readlines content)).
Proof.
  intros fs tag f content data Hf. unfold extract_tagged_data. rewrite Hf.
  rewrite extract_lines, tagged_lines.
  destruct (existsb keyless _) eqn:E; [discriminate|].
  destruct (tagged_lines_Ok _ E [] (Forall_nil _)) as (data' & -> & Hall & Htot).
  intros [= <-]. split; [|exact Htot].
  intros key vals Hin. rewrite Forall_forall in Hall.
  destruct (Hall _ Hin) as [Hk Hv]. cbn in Hk, Hv. split; [|exact Hv].
  intros ->. discriminate.
Qed.

Lemma extract_tagged_data_values_witness :
  (forall key vals,
      In (key, vals) [("x", [Num 1%float; Num 2%float])] ->
      key <> EmptyString /\ vals <> []) /\
  total_values [("x", [Num 1%float; Num 2%float])]
  = List.length (filter (data_tag_regex_match "tag")
                   (readlines ("tag x 1" ++ newline ++ "no" ++ newline
                               ++ "tag x: 2"))).
Proof.
  apply (extract_tagged_data_values
           (one_file ("tag x 1" ++ newline ++ "no" ++ newline ++ "tag x: 2"))
           "tag" "out"
           ("tag x 1" ++ newline ++ "no" ++ newline ++ "tag x: 2")).
  - reflexivity.
  - vm_compute. reflexivity.
Defined.

Lemma read_key_words (words key : list string) (val : option value) :
  Forall (fun w => float_of_string w = None) words ->
  read_key words key val
  = (key ++ words,
     match words with
     | [] => val
     | _ :: _ => Some (Str (last words EmptyString))
     end).
Proof.
  intros Hw. revert key val.
  induction Hw as [|w ws Hw _ IH]; intros key val.
  - cbn. rewrite app_nil_r. reflexivity.
  - cbn [read_key]. unfold try_floatify at 1. rewrite Hw. cbn [py_ne].
    rewrite String.eqb_refl. cbn [negb].
    rewrite IH, <- app_assoc. cbn [app]. f_equal.
    destruct ws as [|w' ws']; [unfold try_floatify; rewrite Hw|]; reflexivity.
Qed.

(** X20: a matching line without any number is not skipped.  When its
    words after the first are not none at all and not just the one word "="
    or ":", the field name is formed from all of them (as on a line with a
    number, a last word "=" or ":" is left out) and the last of them is
    stored as the value, as a string; otherwise the line raises
    [IndexError]. *)
Theorem tagged_line_without_number :
  forall (data : DataSet) (line tag_word : string) (words : list string),
    split line = tag_word :: words ->
    Forall (fun w => float_of_string w = None) words ->
    (words = [] \/ words = ["="] \/ words = [":"] ->
     tagged_line data line = Raise IndexError) /\
    (words <> [] -> words <> ["="] -> words <> [":"] ->
     tagged_line data line
     = Ok (append_value data (field_name words)
             (Str (last words EmptyString)))).
Proof.
  intros data line tag_word words Hs Hw.
  pose proof (tagged_line_spec data line) as Hl.
  pose proof (kept_key_nil words) as Hnil.
  unfold keyless, line_key, line_val in Hl. rewrite Hs in Hl. cbn [tl] in Hl.
  rewrite (read_key_words words [] None Hw) in Hl. cbn [fst snd app] in Hl.
  destruct (kept_key words) as [|k ks].
  - split; [intros _; exact Hl|]. intros H1 H2 H3.
    destruct (proj1 Hnil eq_refl) as [H|[H|H]]; congruence.
  - split.
    + intros H. apply Hnil in H. discriminate.
    + intros Hne _ _. destruct Hl as (val & Hval & ->).
      destruct words; [congruence|]. injection Hval as <-. reflexivity.
Qed.

Lemma tagged_line_without_number_witness :
  tagged_line [] "tag converged : yes"
  = Ok [("converged_:_yes", [Str "yes"])].
Proof.
  apply (tagged_line_without_number [] "tag converged : yes" "tag"
           ["converged"; ":"; "yes"]).
  - reflexivity.
  - repeat constructor.
  - discriminate.
  - discriminate.
  - discriminate.
Defined.

(** ** print_status and print_success *)

Lemma append_empty (s : string) : (s ++ EmptyString)%string = s.
Proof. induction s as [|c s IH]; cbn; [|rewrite IH]; reflexivity. Qed.

(** X21: [print_success] writes what [print_status] writes for the status
    of the one boolean, without the empty line at the end. *)
Theorem print_success_print_status :
  forall (passed : bool) (msg : option string) (verbose : bool),
    print_success passed msg verbose
    = print_status (Status_init [passed] None) msg verbose false.
Proof.
  intros passed msg verbose. unfold print_success, print_status.
  rewrite Status_of_bool.
  destruct passed, verbose; cbn [status _pass _partial _fail Z.eqb];
    rewrite ?append_empty; reflexivity.
Qed.

(** X22: what is printed tells the status: two statuses that print the same
    are the same, in either mode. *)
Theorem print_status_injective :
  forall (s s' : Status) (msg msg' : option string)
         (verbose vspace vspace' : bool),
    print_status s msg verbose vspace = print_status s' msg' verbose vspace' ->
    s = s'.
Proof.
  intros s s' msg msg' verbose vspace vspace'.
  unfold print_status, print.
  destruct verbose, s, s'; cbn; try reflexivity; discriminate.
Qed.

Lemma print_status_injective_witness : Warning = Warning.
Proof.
  apply (print_status_injective Warning Warning (Some "m") (Some "m")
           false true false).
  reflexivity.
Defined.

(** ** testcode_filename and testcode_file_id *)

Lemma append_assoc (s t u : string) :
  ((s ++ t) ++ u)%string = (s ++ t ++ u)%string.
Proof. induction s as [|c s IH]; cbn; [|rewrite IH]; reflexivity. Qed.

Lemma testcode_filename_tail (stem file_id : string) (inp args : option string) :
  testcode_filename stem file_id inp args
  = (stem ++ "." ++ name_tail file_id inp args)%string.
Proof.
  unfold testcode_filename, name_tail.
  destruct (given inp) as [i|], (given args) as [a|];
    rewrite ?append_assoc; cbn; rewrite ?append_assoc, ?append_empty;
    reflexivity.
Qed.

Lemma prefix_append (s t : string) : String.prefix s (s ++ t) = true.
Proof.
  induction s as [|c s IH]; cbn; [destruct t; reflexivity|].
  destruct (ascii_dec c c); [exact IH|congruence].
Qed.

Lemma replace_from_skip (old new u s : string) :
  replace_from old new (u ++ s) (String.length u) = replace_from old new s 0.
Proof. induction u as [|c u IH]; cbn; [reflexivity|exact IH]. Qed.

Lemma replace_from_absent (old new s : string) :
  occurs old s = false -> replace_from old new s 0 = s.
Proof.
  induction s as [|c s IH]; [reflexivity|].
  cbn [occurs]. intros H. apply orb_false_iff in H as [Hp Ho].
  cbn [replace_from]. rewrite Hp, (IH Ho). reflexivity.
Qed.

Lemma replace_stem (stem rest : string) :
  occurs (stem ++ ".") rest = false ->
  replace (stem ++ ".") EmptyString (stem ++ "." ++ rest) = rest.
Proof.
  intros H. rewrite <- append_assoc.
  remember (stem ++ ".")%string as old eqn:Eold.
  destruct old as [|c old]; [destruct stem; discriminate|].
  unfold replace. cbn [append replace_from].
  change (String c (old ++ rest)) with (String c old ++ rest)%string.
  rewrite prefix_append. cbn [String.length Nat.sub append].
  rewrite Nat.sub_0_r, replace_from_skip. apply replace_from_absent, H.
Qed.

Lemma sub_to_eol_keep (pat u t : string) :
  starts_within pat u t = false ->
  sub_to_eol_from pat (u ++ t) false = (u ++ sub_to_eol_from pat t false)%string.
Proof.
  induction u as [|c u IH]; cbn [append starts_within]; [reflexivity|].
  intros H. apply orb_false_iff in H as [Hp Hs].
  cbn [sub_to_eol_from andb]. cbn [append] in Hp. rewrite Hp, (IH Hs).
  reflexivity.
Qed.

Lemma sub_to_eol_skip (pat s : string) :
  one_line s = true -> sub_to_eol_from pat s true = EmptyString.
Proof.
  induction s as [|c s IH]; [reflexivity|]. cbn [one_line sub_to_eol_from].
  intros H. apply andb_true_iff in H as [Hc Hs]. rewrite Hc. apply IH, Hs.
Qed.

Lemma sub_to_eol_one_line (pat s : string) (skipping : bool) :
  one_line s = true -> one_line (sub_to_eol_from pat s skipping) = true.
Proof.
  revert skipping. induction s as [|c s IH]; intros skipping; [reflexivity|].
  cbn [one_line sub_to_eol_from].
  intros H. apply andb_true_iff in H as [Hc Hs]. rewrite Hc, andb_true_r.
  destruct skipping; cbn [andb]; [apply IH, Hs|].
  destruct (String.prefix pat (String c s)); [apply IH, Hs|].
  cbn [one_line]. rewrite Hc. apply IH, Hs.
Qed.

Lemma one_line_append (s t : string) :
  one_line (s ++ t) = one_line s && one_line t.
Proof.
  induction s as [|c s IH]; cbn; [reflexivity|].
  rewrite IH, andb_assoc. reflexivity.
Qed.

Lemma prefix_append_cases (pat u t : string) :
  String.prefix pat (u ++ t) = true ->
  String.prefix pat u = true \/
  exists p1 p2, pat = (p1 ++ p2)%string /\ u = p1 /\ p2 <> EmptyString /\
                String.prefix p2 t = true.
Proof.
  revert u. induction pat as [|a pat IH]; intros u H.
  - left. destruct u; reflexivity.
  - destruct u as [|b u].
    + right. exists EmptyString, (String a pat).
      repeat split; [discriminate|exact H].
    + cbn in H. cbn [String.prefix].
      destruct (ascii_dec a b) as [<-|]; [|discriminate].
      destruct (IH u H) as [Hp|(p1 & p2 & -> & -> & Hne & Hp)]; [left; exact Hp|].
      right. exists (String a p1), p2. repeat split; assumption.
Qed.

Lemma no_dot_append (s t : string) : no_dot (s ++ t) = no_dot s && no_dot t.
Proof.
  induction s as [|c s IH]; cbn; [reflexivity|].
  rewrite IH, andb_assoc. reflexivity.
Qed.

(** A pattern whose only full stop is its first character does not start
    inside [u] when it does not occur in [u] and what follows [u] is nothing
    or starts with a full stop. *)
Lemma starts_within_dot (q u t : string) :
  no_dot q = true ->
  occurs (String dot q) u = false ->
  t = EmptyString \/ (exists t', t = String dot t') ->
  starts_within (String dot q) u t = false.
Proof.
  intros Hq Hu Ht. induction u as [|c u IH]; [reflexivity|].
  cbn [occurs] in Hu. apply orb_false_iff in Hu as [Hp Ho].
  cbn [starts_within]. rewrite (IH Ho), orb_false_r.
  destruct (String.prefix (String dot q) (String c u ++ t)) eqn:E;
    [|reflexivity].
  exfalso.
  destruct (prefix_append_cases _ _ _ E) as [H|(p1 & p2 & Hpat & Hu1 & Hne & H2)].
  - congruence.
  - destruct p1 as [|a p1]; [discriminate|].
    cbn in Hpat. injection Hpat as _ Hq'. subst q.
    rewrite no_dot_append in Hq. apply andb_true_iff in Hq as [_ Hq2].
    destruct p2 as [|b p2]; [congruence|].
    destruct Ht as [->|[t' ->]]; [cbn in H2; discriminate|].
    cbn [String.prefix] in H2.
    destruct (ascii_dec b dot) as [->|]; [|discriminate].
    cbn in Hq2. discriminate.
Qed.

Lemma sub_to_eol_absent (q u : string) :
  no_dot q = true -> occurs (String dot q) u = false ->
  sub_to_eol (String dot q) u = u.
Proof.
  intros Hq Hu. unfold sub_to_eol.
  rewrite <- (append_empty u) at 1.
  rewrite sub_to_eol_keep by (apply starts_within_dot; auto).
  cbn. apply append_empty.
Qed.

Lemma sub_to_eol_match (q u t : string) :
  no_dot q = true -> one_line q = true -> one_line t = true ->
  occurs (String dot q) u = false ->
  sub_to_eol (String dot q) (u ++ String dot q ++ t) = u.
Proof.
  intros Hq Hl Ht Hu. unfold sub_to_eol.
  rewrite sub_to_eol_keep
    by (apply starts_within_dot;
        [exact Hq|exact Hu|right; eexists; reflexivity]).
  change (String dot q ++ t)%string with (String dot (q ++ t)).
  cbn [sub_to_eol_from andb].
  change (String dot (q ++ t)) with (String dot q ++ t)%string.
  rewrite prefix_append, sub_to_eol_skip, append_empty; [reflexivity|].
  rewrite one_line_append, Hl, Ht. reflexivity.
Qed.

Lemma prefix_empty (s : string) : String.prefix EmptyString s = true.
Proof. destruct s; reflexivity. Qed.

Lemma replace_space_one_line (s : string) :
  one_line s = true -> one_line (replace " " "_" s) = true.
Proof.
  unfold replace. induction s as [|c s IH]; [reflexivity|].
  cbn [one_line]. intros H. apply andb_true_iff in H as [Hc Hs].
  cbn [replace_from String.prefix String.length Nat.sub].
  rewrite prefix_empty.
  destruct (ascii_dec " "%char c) as [E|E].
  - cbn [append one_line]. apply IH, Hs.
  - cbn [one_line]. rewrite Hc. apply IH, Hs.
Qed.

Lemma given_one_line (s : option string) (x : string) :
  one_line_option s = true -> given s = Some x -> one_line x = true.
Proof.
  destruct s as [y|]; cbn; [|discriminate].
  destruct (nonempty y); [|discriminate]. intros H [= <-]. exact H.
Qed.

(** X23: [testcode_file_id] finds the file id in the name that
    [testcode_filename] builds from it, when the stem with its full stop
    does not occur again in the rest of the name, the file id contains
    neither ".inp=" nor ".args=", and the input and the arguments have no
    line feed. *)
Theorem testcode_file_id_filename :
  forall (stem file_id : string) (inp args : option string),
    occurs (stem ++ ".") (name_tail file_id inp args) = false ->
    occurs ".inp=" file_id = false ->
    occurs ".args=" file_id = false ->
    one_line_option inp = true -> one_line_option args = true ->
    testcode_file_id (testcode_filename stem file_id inp args) stem = file_id.
Proof.
  intros stem id inp args Hstem Hinp Hargs Hli Hla.
  unfold testcode_file_id. rewrite testcode_filename_tail.
  rewrite (replace_stem stem _ Hstem). unfold name_tail.
  change ".inp="%string with (String dot "inp=") in *.
  change ".args="%string with (String dot "args=") in *.
  destruct (given inp) as [i|] eqn:Ei.
  - pose proof (given_one_line inp i Hli Ei) as Hi.
    rewrite !append_assoc.
    rewrite sub_to_eol_match;
      [exact (sub_to_eol_absent "args=" id eq_refl Hargs)| | | |];
      try reflexivity; [|exact Hinp].
    destruct (given args) as [a|] eqn:Ea.
    + rewrite one_line_append, Hi. cbn [andb].
      change (String dot "args=" ++ replace " " "_" a)%string
        with (String dot ("args=" ++ replace " " "_" a)).
      cbn [one_line append]. cbn.
      apply replace_space_one_line, (given_one_line args a Hla Ea).
    + rewrite append_empty. exact Hi.
  - rewrite append_empty.
    destruct (given args) as [a|] eqn:Ea.
    + pose proof (replace_space_one_line a (given_one_line args a Hla Ea)) as Ha.
      unfold sub_to_eol at 2.
      rewrite sub_to_eol_keep
        by (apply starts_within_dot;
            [reflexivity|exact Hinp|right; eexists; reflexivity]).
      rewrite (sub_to_eol_keep (String dot "inp=") (String dot "args="))
        by reflexivity.
      apply sub_to_eol_match; try reflexivity; [|exact Hargs].
      apply sub_to_eol_one_line, Ha.
    + rewrite append_empty.
      rewrite (sub_to_eol_absent "inp=" id eq_refl Hinp).
      exact (sub_to_eol_absent "args=" id eq_refl Hargs).
Qed.

Lemma testcode_file_id_filename_witness :
  testcode_file_id
    (testcode_filename "test" "out.2012" (Some "h2o.in") (Some "-n 4 -v"))
    "test"
  = "out.2012".
Proof.
  apply (testcode_file_id_filename "test" "out.2012" (Some "h2o.in")
           (Some "-n 4 -v")); reflexivity.
Defined.

(** ** Headers with a repeated name *)

Lemma dict_get_setitem {V : Type} (d : dict V) (k k' : string) (v : V) :
  dict_get (setitem d k v) k'
  = if String.eqb k' k then Some v else dict_get d k'.
Proof.
  induction d as [|[k0 v0] d IH]; cbn.
  - destruct (String.eqb k' k); reflexivity.
  - destruct (String.eqb_spec k k0) as [->|Hne]; cbn.
    + destruct (String.eqb k' k0); reflexivity.
    + rewrite IH. destruct (String.eqb_spec k' k0) as [->|Hne'];
        [|reflexivity].
      destruct (String.eqb_spec k0 k) as [E|_]; [congruence|reflexivity].
Qed.






(** ** pretty_print_table *)

Lemma spaces_length (n : nat) : String.length (spaces n) = n.
Proof. induction n as [|n IH]; cbn; [reflexivity|]. rewrite IH. reflexivity. Qed.

Lemma string_length_append (s t : string) :
  String.length (s ++ t) = String.length s + String.length t.
Proof. induction s as [|c s IH]; cbn; [reflexivity|]. rewrite IH. reflexivity. Qed.

Lemma ljust_length (w : nat) (s : string) :
  String.length s <= w -> String.length (ljust w s) = w.
Proof.
  intros H. unfold ljust. rewrite string_length_append, spaces_length. lia.
Qed.

Lemma concat_length_determined (sep : string) (l : list string) :
  forall l', map String.length l = map String.length l' ->
             String.length (String.concat sep l)
             = String.length (String.concat sep l').
Proof.
  induction l as [|x l IH]; intros [|x' l'] H; try discriminate;
    [reflexivity|].
  cbn [map] in H. injection H as Hx Hl. specialize (IH l' Hl).
  destruct l as [|y l]; destruct l' as [|y' l']; try discriminate.
  - cbn. exact Hx.
  - change (String.length (x ++ sep ++ String.concat sep (y :: l))
            = String.length (x' ++ sep ++ String.concat sep (y' :: l'))).
    rewrite !string_length_append, IH, Hx. reflexivity.
Qed.

Lemma fold_max_le (l : list nat) (x : nat) :
  x <= fold_left Nat.max l x /\
  forall y, In y l -> y <= fold_left Nat.max l x.
Proof.
  revert x. induction l as [|z l IH]; intros x; cbn; [split; [lia|tauto]|].
  destruct (IH (Nat.max x z)) as [H1 H2]. split; [lia|].
  intros y [<-|Hy]; [lia|apply H2; exact Hy].
Qed.

Lemma max_of_le (l : list nat) (x : nat) :
  In x l -> exists w, max_of l = Ok w /\ forall y, In y l -> y <= w.
Proof.
  destruct l as [|z l]; [intros []|]. intros _. cbn. eexists. split; [reflexivity|].
  destruct (fold_max_le l z) as [H1 H2]. intros y [<-|Hy]; auto.
Qed.

Lemma dict_get_tuples (d : DataSet) (k : string) :
  dict_get (tuples d) k = option_map Tuple (dict_get d k).
Proof.
  induction d as [|[k' v] d IH]; cbn; [reflexivity|].
  destruct (String.eqb k k'); [reflexivity|exact IH].
Qed.

Lemma keys_tuples (d : DataSet) : keys (tuples d) = keys d.
Proof. unfold keys, tuples. rewrite map_map. reflexivity. Qed.

Section PrettyPrintFacts.

Variable str : cell -> string.

Lemma widen_items (items : list value) (w0 : nat) :
  let w := fold_left (fun w item => Nat.max w (String.length (str (Scalar item))))
                     items w0 in
  w0 <= w /\
  forall item, In item items -> String.length (str (Scalar item)) <= w.
Proof.
  revert w0. induction items as [|i items IH]; intros w0; cbn;
    [split; [lia|tauto]|].
  destruct (IH (Nat.max w0 (String.length (str (Scalar i))))) as [H1 H2].
  split; [lia|]. intros item [<-|Hi]; [lia|apply H2; exact Hi].
Qed.

(** The width loop over dictionaries that all hold a tuple for the key. *)
Lemma widen_loop (key : string) (dicts : list (dict cell)) :
  (forall dval, In dval dicts ->
                exists items, dict_get dval key = Some (Tuple items)) ->
  forall w0, exists w,
    for_each (widen str key) dicts w0 = Ok w /\ w0 <= w /\
    forall dval items item,
      In dval dicts -> dict_get dval key = Some (Tuple items) ->
      In item items -> String.length (str (Scalar item)) <= w.
Proof.
  induction dicts as [|d dicts IH]; intros Hall w0.
  - exists w0. cbn. split; [reflexivity|]. split; [lia|]. intros ? ? ? [].
  - destruct (Hall d (or_introl eq_refl)) as (items & Hd).
    cbn [for_each]. unfold widen at 1, getitem. rewrite Hd. cbn [bind iterate].
    destruct (widen_items items w0) as [H1 H2]. cbv zeta in H1, H2.
    destruct (IH (fun dv H => Hall dv (or_intror H))
                 (fold_left (fun w item => Nat.max w (String.length (str (Scalar item))))
                            items w0))
      as (w & Hw & Hle & Hin).
    exists w. split; [exact Hw|]. split; [lia|].
    intros dval items' item [<-|Hdv] Hget Hitem.
    + rewrite Hd in Hget. injection Hget as <-.
      specialize (H2 item Hitem). lia.
    + apply (Hin dval items' item Hdv Hget Hitem).
Qed.

(** The header loop: every key gets its width in [fmt] and its name, once
    per item, in the header. *)
Lemma header_loop (dicts : list (dict cell)) (d0 : dict cell)
    (n : string -> nat) (names : list string) :
  index dicts 0 = Ok d0 ->
  (forall k, In k names ->
             (exists items0, dict_get d0 k = Some (Tuple items0) /\
                             List.length items0 = n k) /\
             forall dval, In dval dicts ->
                          exists items, dict_get dval k = Some (Tuple items)) ->
  forall fmt header, exists fmt' header',
    for_each (header_key str dicts) names (fmt, header) = Ok (fmt', header') /\
    map String.length header'
    = map String.length header ++ cell_widths (width_of str dicts) n names /\
    (forall k, In k names -> dict_get fmt' k = Some (width_of str dicts k)) /\
    (forall k, ~ In k names -> dict_get fmt' k = dict_get fmt k).
Proof.
  intros H0. induction names as [|k names IH]; intros Hgood fmt header.
  - exists fmt, header. cbn. rewrite app_nil_r. repeat split; tauto.
  - destruct (Hgood k (or_introl eq_refl)) as ((items0 & Hk0 & Hn) & Hall).
    destruct (widen_loop k dicts Hall (String.length k)) as (w & Hw & Hle & _).
    assert (Ew : width_of str dicts k = w) by (unfold width_of; rewrite Hw; reflexivity).
    cbn [for_each]. unfold header_key at 1, getitem.
    rewrite H0. cbn [bind]. rewrite Hk0. cbn [bind]. rewrite Hw.
    cbn [bind fst snd]. rewrite Hn.
    destruct (IH (fun k' H => Hgood k' (or_intror H)) (setitem fmt k w)
                 (header ++ repeat (ljust w k) (n k)))
      as (fmt' & header' & Hloop & Hlen & Hin & Hout).
    exists fmt', header'. split; [exact Hloop|]. split; [|split].
    + rewrite Hlen, map_app, <- app_assoc. f_equal.
      unfold cell_widths. cbn [flat_map]. f_equal. rewrite Ew.
      rewrite map_repeat. rewrite ljust_length by exact Hle. reflexivity.
    + intros k' Hk'. destruct (in_dec string_dec k' names) as [Hi|Hni];
        [apply Hin; exact Hi|].
      destruct Hk' as [<-|Hk']; [|tauto].
      rewrite (Hout k Hni), dict_get_setitem, String.eqb_refl, Ew. reflexivity.
    + intros k' Hk'. rewrite Hout by (intros H; apply Hk'; right; exact H).
      rewrite dict_get_setitem.
      destruct (String.eqb_spec k' k) as [->|_]; [|reflexivity].
      exfalso. apply Hk'. left. reflexivity.
Qed.

(** The cells of a tuple: one per item, each as wide as the column. *)
Lemma items_loop (fmt : dict nat) (key : string) (w : nat) (items : list value) :
  dict_get fmt key = Some w ->
  forall line,
    for_each (fun line item =>
                w <- getitem fmt key ;;
                Ok (line ++ [ljust w (str (Scalar item))]))
             items line
    = Ok (line ++ map (fun item => ljust w (str (Scalar item))) items).
Proof.
  intros Hw. induction items as [|i items IH]; intros line; cbn [for_each map].
  - rewrite app_nil_r. reflexivity.
  - unfold getitem at 1. rewrite Hw. cbn [bind]. rewrite IH, <- app_assoc.
    reflexivity.
Qed.

Lemma ljust_items (w : nat) (items : list value) :
  (forall item, In item items -> String.length (str (Scalar item)) <= w) ->
  map String.length (map (fun item => ljust w (str (Scalar item))) items)
  = repeat w (List.length items).
Proof.
  induction items as [|i items IH]; intros Hle; cbn [map List.length repeat];
    [reflexivity|].
  rewrite ljust_length by (apply Hle; left; reflexivity).
  f_equal. apply IH. intros item Hi. apply Hle. right. exact Hi.
Qed.

Lemma line_loop (fmt : dict nat) (dval : dict cell) (w n : string -> nat)
    (names : list string) :
  (forall k, In k names ->
             dict_get fmt k = Some (w k) /\
             exists items, dict_get dval k = Some (Tuple items) /\
                           List.length items = n k /\
                           forall item, In item items ->
                                        String.length (str (Scalar item)) <= w k) ->
  forall line, exists line',
    for_each (line_cells str fmt dval) names line = Ok line' /\
    map String.length line' = map String.length line ++ cell_widths w n names.
Proof.
  induction names as [|k names IH]; intros Hgood line.
  - exists line. cbn. rewrite app_nil_r. split; reflexivity.
  - destruct (Hgood k (or_introl eq_refl)) as (Hw & items & Hk & Hn & Hle).
    cbn [for_each]. unfold line_cells at 1, getitem at 1. rewrite Hk.
    cbn [bind]. rewrite (items_loop fmt k (w k) items Hw). cbn [bind].
    destruct (IH (fun k' H => Hgood k' (or_intror H))
                 (line ++ map (fun item => ljust (w k) (str (Scalar item))) items))
      as (line' & Hloop & Hlen).
    exists line'. split; [exact Hloop|].
    rewrite Hlen, map_app, <- app_assoc. f_equal.
    unfold cell_widths. cbn [flat_map]. f_equal.
    rewrite <- Hn. apply ljust_items. exact Hle.
Qed.

(** The loop over the labels: one line per label, each with the cell widths
    of the header. *)
Lemma label_loop (fmt : dict nat) (dicts : list (dict cell)) (lw : nat)
    (ws : list nat) (l : list (nat * string)) :
  dict_get fmt "label" = Some lw ->
  (forall il, In il l ->
              String.length (snd il) <= lw /\
              exists dval, index dicts (fst il) = Ok dval /\
                forall line, exists line',
                  for_each (line_cells str fmt dval) (sorted (keys dval)) line
                  = Ok line' /\
                  map String.length line' = map String.length line ++ ws) ->
  forall lines, exists lines',
    for_each (label_line str fmt dicts) l lines = Ok lines' /\
    List.length lines' = List.length lines + List.length l /\
    (Forall (fun line => map String.length line = lw :: ws) lines ->
     Forall (fun line => map String.length line = lw :: ws) lines').
Proof.
  intros Hlw. induction l as [|il l IH]; intros Hgood lines.
  - exists lines. cbn. split; [reflexivity|]. split; [lia|tauto].
  - destruct (Hgood il (or_introl eq_refl)) as (Hil & dval & Hd & Hline).
    destruct (Hline [ljust lw (snd il)]) as (line & Hl & Hlen).
    cbn [for_each]. unfold label_line at 1, getitem. rewrite Hlw. cbn [bind].
    rewrite Hd. cbn [bind]. rewrite Hl. cbn [bind].
    destruct (IH (fun il' H => Hgood il' (or_intror H)) (lines ++ [line]))
      as (lines' & Hloop & Hcount & Hall).
    exists lines'. split; [exact Hloop|]. split.
    + rewrite Hcount, length_app. cbn. lia.
    + intros H. apply Hall. apply Forall_app. split; [exact H|].
      constructor; [|constructor]. rewrite Hlen. cbn [map app].
      rewrite ljust_length by exact Hil. reflexivity.
Qed.

End PrettyPrintFacts.

Lemma enumerate_In {A : Type} (l : list A) (i : nat) (x : A) :
  In (i, x) (enumerate l) -> i < List.length l /\ In x l.
Proof.
  unfold enumerate. intros H. split.
  - apply in_combine_l in H. apply in_seq in H. lia.
  - apply in_combine_r in H. exact H.
Qed.

Lemma enumerate_length {A : Type} (l : list A) :
  List.length (enumerate l) = List.length l.
Proof. unfold enumerate. rewrite length_combine, length_seq. lia. Qed.

Lemma same_fields_sorted (d0 d : DataSet) :
  dict_wf d0 -> dict_wf d -> same_fields d0 d ->
  sorted (keys d) = sorted (keys d0).
Proof.
  intros H0 H Hs. apply sorted_eq_iff. apply NoDup_Permutation; [exact H|exact H0|].
  intros k. symmetry. apply Hs.
Qed.

Lemma width_of_le (str : cell -> string) (dicts : list (dict cell))
    (key : string) :
  (forall dval, In dval dicts ->
                exists items, dict_get dval key = Some (Tuple items)) ->
  forall dval items item,
    In dval dicts -> dict_get dval key = Some (Tuple items) ->
    In item items ->
    String.length (str (Scalar item)) <= width_of str dicts key.
Proof.
  intros Hall.
  destruct (widen_loop str key dicts Hall (String.length key))
    as (w & Hw & _ & Hle).
  unfold width_of. rewrite Hw. exact Hle.
Qed.

Lemma In_sorted (l : list string) (k : string) : In k (sorted l) <-> In k l.
Proof.
  split; apply Permutation_in;
    [apply sorted_perm|apply Permutation_sym, sorted_perm].
Qed.

(** X25: for DataSets with distinct field names that all have the fields of
    the first one, with as many values each, at least as many DataSets as
    labels, at least one label and no field called "label",
    pretty_print_table returns a table of one header line and one line per
    label, and all its lines have the same length: every cell is padded to
    the width of its column. *)
Theorem pretty_print_table_aligned :
  forall (str : cell -> string) (labels : list string)
         (d0 : DataSet) (rest : list DataSet),
    labels <> [] ->
    List.length labels <= List.length (d0 :: rest) ->
    (forall d, In d (d0 :: rest) ->
               dict_wf d /\ same_fields d0 d /\ same_lengths d0 d) ->
    ~ In "label" (keys d0) ->
    exists lines,
      table_lines str labels (map tuples (d0 :: rest)) = Ok lines /\
      pretty_print_table str labels (map tuples (d0 :: rest))
      = Ok (String.concat newline lines) /\
      List.length lines = S (List.length labels) /\
      forall l l', In l lines -> In l' lines ->
                   String.length l = String.length l'.
Proof.
  intros str labels d0 rest Hlabels Hcount Hsame Hlabel.
  set (datasets := d0 :: rest) in *.
  set (dicts := map tuples datasets).
  set (names := sorted (keys d0)).
  assert (Hwf0 : dict_wf d0) by (apply Hsame; left; reflexivity).
  assert (Htuple : forall k, In k names ->
            forall dval, In dval dicts ->
              exists items, dict_get dval k = Some (Tuple items) /\
                            List.length items = count_of d0 k).
  { intros k Hk dval Hdval. apply (proj1 (In_sorted (keys d0) k)) in Hk.
    apply in_map_iff in Hdval as (d & <- & Hd).
    destruct (Hsame d Hd) as (_ & Hf & Hl).
    pose proof Hk as Hk'. apply Hf in Hk'.
    apply dict_get_keys in Hk as (v0 & Hv0).
    apply dict_get_keys in Hk' as (v & Hv).
    exists v. rewrite dict_get_tuples, Hv. split; [reflexivity|].
    unfold count_of. rewrite Hv0. symmetry. apply (Hl k v0 v Hv0 Hv). }
  assert (Hall : forall k, In k names ->
            forall dval, In dval dicts ->
              exists items, dict_get dval k = Some (Tuple items)).
  { intros k Hk dval Hdval. destruct (Htuple k Hk dval Hdval) as (i & H & _).
    exists i. exact H. }
  assert (Hlw : exists lw, max_of (map String.length labels) = Ok lw /\
                           forall label, In label labels ->
                                         String.length label <= lw).
  { destruct labels as [|label labels]; [congruence|].
    destruct (max_of_le (map String.length (label :: labels))
                        (String.length label) (or_introl eq_refl))
      as (lw & H & Hle).
    exists lw. split; [exact H|]. intros l Hl. apply Hle.
    apply in_map. exact Hl. }
  destruct Hlw as (lw & Hmax & Hle).
  assert (H0 : index dicts 0 = Ok (tuples d0)) by reflexivity.
  destruct (header_loop str dicts (tuples d0) (count_of d0) names H0)
    with (fmt := [("label", lw)]) (header := [ljust lw EmptyString])
    as (fmt & header & Hheader & Hhlen & Hin & Hout).
  { intros k Hk. split; [|apply Hall; exact Hk].
    apply (Htuple k Hk (tuples d0)). left. reflexivity. }
  assert (Hfl : dict_get fmt "label" = Some lw).
  { rewrite Hout; [reflexivity|]. intros H. apply (proj1 (In_sorted (keys d0) _)) in H. tauto. }
  set (ws := cell_widths (width_of str dicts) (count_of d0) names) in *.
  destruct (label_loop str fmt dicts lw ws (enumerate labels) Hfl)
    with (lines := [header]) as (lines & Hlines & Hlen & Hforall).
  { intros [i label] Hil. apply enumerate_In in Hil as [Hi Hl]. cbn [fst snd].
    split; [apply Hle; exact Hl|].
    assert (Hi' : i < List.length datasets) by lia.
    apply nth_error_Some in Hi'.
    destruct (nth_error datasets i) as [d|] eqn:Ed; [|congruence].
    exists (tuples d). split.
    { unfold index, dicts. rewrite nth_error_map, Ed. reflexivity. }
    apply nth_error_In in Ed.
    destruct (Hsame d Ed) as (Hwf & Hf & _).
    rewrite keys_tuples, (same_fields_sorted d0 d Hwf0 Hwf Hf).
    fold names. apply line_loop. intros k Hk. split; [apply Hin; exact Hk|].
    assert (Hd : In (tuples d) dicts) by (apply in_map; exact Ed).
    destruct (Htuple k Hk (tuples d) Hd) as (items & Hget & Hn).
    exists items. split; [exact Hget|]. split; [exact Hn|].
    intros item Hitem.
    apply (width_of_le str dicts k (Hall k Hk) (tuples d) items item Hd Hget Hitem). }
  assert (Hq : Forall (fun line => map String.length line = lw :: ws) lines).
  { apply Hforall. constructor; [|constructor]. rewrite Hhlen. cbn [map app].
    rewrite ljust_length by (cbn; lia). reflexivity. }
  assert (Htable : table_lines str labels dicts
                   = Ok (map (String.concat "  ") lines)).
  { unfold table_lines. rewrite Hmax. cbn [bind]. cbv zeta. rewrite H0.
    cbn [bind].
    rewrite keys_tuples. fold names.
    unfold dict in Hheader |- *. rewrite Hheader. cbn [bind fst snd].
    rewrite Hlines. reflexivity. }
  exists (map (String.concat "  ") lines). split; [exact Htable|].
  split; [unfold pretty_print_table; rewrite Htable; reflexivity|].
  split.
  - rewrite length_map, Hlen, enumerate_length. reflexivity.
  - intros l l' Hl Hl'. apply in_map_iff in Hl as (c & <- & Hc).
    apply in_map_iff in Hl' as (c' & <- & Hc').
    rewrite Forall_forall in Hq. apply concat_length_determined.
    rewrite (Hq c Hc), (Hq c' Hc'). reflexivity.
Qed.

Lemma pretty_print_table_aligned_witness :
  exists lines,
    table_lines some_str ["benchmark"; "test"]
      (map tuples [[("b", [Num 1%float]); ("a", [Num 1%float; Num 2%float])];
                   [("a", [Num 2%float; Num 1%float]); ("b", [Str "xyzw"])]])
    = Ok lines /\
    pretty_print_table some_str ["benchmark"; "test"]
      (map tuples [[("b", [Num 1%float]); ("a", [Num 1%float; Num 2%float])];
                   [("a", [Num 2%float; Num 1%float]); ("b", [Str "xyzw"])]])
    = Ok (String.concat newline lines) /\
    List.length lines = 3 /\
    forall l l', In l lines -> In l' lines ->
                 String.length l = String.length l'.
Proof.
  apply (pretty_print_table_aligned some_str ["benchmark"; "test"]
           [("b", [Num 1%float]); ("a", [Num 1%float; Num 2%float])]
           [[("a", [Num 2%float; Num 1%float]); ("b", [Str "xyzw"])]]).
  - discriminate.
  - cbn. lia.
  - intros d [<-|[<-|[]]].
    + split; [repeat constructor; cbn; intuition discriminate|].
      split; [intros k; tauto|].
      intros k vb vt Hb Ht. rewrite Hb in Ht. injection Ht as <-. reflexivity.
    + split; [repeat constructor; cbn; intuition discriminate|].
      split; [intros k; cbn; tauto|].
      intros k vb vt. cbn.
      destruct (String.eqb_spec k "b") as [->|_]; cbn;
        [intros [= <-] [= <-]; reflexivity|].
      destruct (String.eqb k "a"); intros [= <-] [= <-]; reflexivity.
  - cbn. intuition discriminate.
Defined.

(** ** The errors of dict_table_string *)

Lemma append_column_step (h : list string) (d : DataSet) (i : nat)
    (v : value) :
  (forall n, In n h -> In n (keys d)) -> i < List.length h ->
  exists d', append_column (Some h) d (i, v) = Ok d' /\ keys d' = keys d.
Proof.
  intros Hh Hi. unfold append_column at 1, index, getitem. cbn [bind fst snd].
  destruct (nth_error h i) as [name|] eqn:En;
    [|apply nth_error_None in En; lia].
  cbn [bind]. apply nth_error_In in En. apply Hh in En.
  apply dict_get_keys in En as (vals & Ev). rewrite Ev. cbn [bind].
  eexists. split; [reflexivity|].
  rewrite keys_setitem. unfold contains. rewrite Ev. reflexivity.
Qed.

(** A row that fits its header is stored; the keys stay as they are. *)
Lemma append_loop_fits (h : list string) (row : list value) :
  forall (k : nat) (d : DataSet),
    (forall n, In n h -> In n (keys d)) ->
    k + List.length row <= List.length h ->
    exists d',
      for_each (append_column (Some h)) (combine (seq k (List.length row)) row) d
      = Ok d' /\ keys d' = keys d.
Proof.
  induction row as [|v row IH]; intros k d Hh Hk.
  - exists d. split; reflexivity.
  - cbn [List.length seq combine for_each] in *.
    destruct (append_column_step h d k v Hh) as (d1 & -> & Hk1); [lia|].
    cbn [bind].
    destruct (IH (S k) d1) as (d' & Hd' & Hk'); [rewrite Hk1; exact Hh|lia|].
    exists d'. split; [exact Hd'|congruence].
Qed.

(** A row that is longer than its header raises [IndexError] at the first
    item past the header. *)
Lemma append_loop_long (h : list string) (row : list value) :
  forall (k : nat) (d : DataSet),
    (forall n, In n h -> In n (keys d)) ->
    k <= List.length h -> List.length h < k + List.length row ->
    for_each (append_column (Some h)) (combine (seq k (List.length row)) row) d
    = Raise IndexError.
Proof.
  induction row as [|v row IH]; intros k d Hh Hk Hlong.
  - cbn in Hlong. lia.
  - cbn [List.length seq combine for_each] in *.
    destruct (Nat.eq_dec k (List.length h)) as [->|Hne].
    + unfold append_column, index. cbn [bind fst].
      rewrite (proj2 (nth_error_None h (List.length h))) by lia. reflexivity.
    + destruct (append_column_step h d k v Hh) as (d1 & -> & Hk1); [lia|].
      cbn [bind]. apply IH; [rewrite Hk1; exact Hh|lia|lia].
Qed.

(** The loop over the rows fails as [table_error] says, as soon as the names
    of the header in force are keys of the dictionary. *)
Lemma table_rows_error (rows : list (list value)) :
  forall (d : DataSet) (head : option (list string)),
    (forall h, head = Some h -> forall n, In n h -> In n (keys d)) ->
    match table_error head rows with
    | Some e => for_each table_row rows (d, head) = Raise e
    | None => exists st, for_each table_row rows (d, head) = Ok st
    end.
Proof.
  induction rows as [|row rows IH]; intros d head Hh; [cbn; eauto|].
  cbn [table_error for_each]. unfold table_row at 1 3, is_data_row.
  cbn [fst snd].
  destruct (compat_all (map is_not_float row)) eqn:Erow; cbn [negb bind].
  - apply IH. intros h [= <-] n Hn. apply keys_register. right. exact Hn.
  - destruct head as [h|].
    + unfold enumerate.
      destruct (List.length h <? List.length row)%nat eqn:L.
      * apply Nat.ltb_lt in L.
        rewrite (append_loop_long h row 0 d (Hh h eq_refl)) by lia.
        reflexivity.
      * apply Nat.ltb_ge in L.
        destruct (append_loop_fits h row 0 d (Hh h eq_refl)) as (d' & -> & Hk);
          [lia|].
        cbn [bind]. apply IH. intros h' [= <-]. rewrite Hk. apply Hh.
        reflexivity.
    + destruct row as [|v row]; [discriminate|]. reflexivity.
Qed.

Lemma table_error_kind (rows : list (list value)) :
  forall (head : option (list string)) (e : exception),
    table_error head rows = Some e -> e = NameError \/ e = IndexError.
Proof.
  induction rows as [|row rows IH]; intros head e; cbn [table_error];
    [discriminate|].
  destruct (is_data_row row); [|apply IH].
  destruct head as [h|]; [|intros [= <-]; left; reflexivity].
  destruct (List.length h <? List.length row)%nat; [|apply IH].
  intros [= <-]. right. reflexivity.
Qed.

(** X15: [dict_table_string] fails only at a row that holds a number: with
    [NameError] when no row without a number (a header) comes before it,
    with [IndexError] when it has more items than the last header before
    it; the first such row decides, and a text without such a row gives a
    dictionary.  An empty line is a header without names, so a row with a
    number right after one raises [IndexError]. *)
Theorem dict_table_string_errors :
  forall (table_string : string),
    (forall e, dict_table_string table_string = Raise e <->
               table_error None (table_data table_string) = Some e) /\
    ((exists data_dict, dict_table_string table_string = Ok data_dict) <->
     table_error None (table_data table_string) = None) /\
    (forall e, dict_table_string table_string = Raise e ->
               e = NameError \/ e = IndexError).
Proof.
  intros s.
  assert (H : match table_error None (table_data s) with
              | Some e => dict_table_string s = Raise e
              | None => exists data_dict, dict_table_string s = Ok data_dict
              end).
  { pose proof (table_rows_error (table_data s) [] None) as H.
    unfold dict_table_string. fold (table_data s).
    unfold DataSet, dict in H |- *.
    destruct (table_error None (table_data s)) as [e|].
    - rewrite H; [reflexivity|discriminate].
    - destruct H as (st & ->); [discriminate|]. cbn [bind]. eauto. }
  pose proof (table_error_kind (table_data s) None) as Hkind.
  destruct (table_error None (table_data s)) as [e0|].
  - rewrite H. split; [|split].
    + intros e. split; intros [= <-]; reflexivity.
    + split; [intros [d Hd]; discriminate|discriminate].
    + intros e [= <-]. apply Hkind. reflexivity.
  - destruct H as [d Hd]. rewrite Hd. split; [|split].
    + intros e. split; discriminate.
    + split; [reflexivity|eauto].
    + intros e. discriminate.
Qed.

Lemma dict_table_string_errors_witness :
  dict_table_string ("a b" ++ newline ++ newline ++ "1") = Raise IndexError /\
  dict_table_string ("a b" ++ newline ++ "1 2" ++ newline ++ "3 4 5")
  = Raise IndexError /\
  dict_table_string ("1 2" ++ newline ++ "a b") = Raise NameError.
Proof.
  split; [|split].
  - apply (proj1 (dict_table_string_errors
                    ("a b" ++ newline ++ newline ++ "1"))).
    vm_compute. reflexivity.
  - apply (proj1 (dict_table_string_errors
                    ("a b" ++ newline ++ "1 2" ++ newline ++ "3 4 5"))).
    vm_compute. reflexivity.
  - apply (proj1 (dict_table_string_errors ("1 2" ++ newline ++ "a b"))).
    vm_compute. reflexivity.
Defined.
